(** * withmock: a shallow embedding of the mock generator and its cache keys

    The development follows the Go sources:
    - [lib/mock.go]: the scope rewriter ([isLocalExpr], [isChannel],
      [scopeName]), the declaration transformer ([funcInfo], [writeMock],
      [writeRecorder], ...), the package scaffold ([mockGen.pkg]), the
      function declarations of [mockGen.file], the scope registry
      ([registerScope], [collectScopes], [getScopes]) and the package names
      ([getVendorPaths], [lookupImportName], [getPackageName]);
    - the import marks of package [lib] ([markImport], [getMark]);
    - [utils.Err] and [utils.IsNotExist];
    - [cache/keys.go]: [CacheFileKey], [NewCacheFileKey] and [Hash].

    Go strings are byte strings: they are modelled by [string], whose
    characters are the 8-bit [ascii].  A Go panic is modelled by [None] (or
    by a dedicated outcome where the state left behind matters). *)

From Stdlib Require Import Ascii String List ZArith Lia Bool.
From stdpp Require Import base option list strings pretty gmap.

Local Open Scope string_scope.
Local Open Scope list_scope.
Set Warnings "-register-all".

(** ** Go string primitives *)

Module GoStrings.

(** [strings.HasPrefix(s, prefix)] *)
Definition HasPrefix (s prefix : string) : bool := String.prefix prefix s.

(** [strings.Contains(s, substr)] *)
Definition Contains (s substr : string) : bool :=
  match String.index 0 substr s with
  | Some _ => true
  | None => false
  end.

(** [s[n:]]; the caller checks [n <= len(s)] (Go panics otherwise). *)
Fixpoint sliceFrom (s : string) (n : nat) {struct n} : string :=
  match n, s with
  | O, _ => s
  | S n', String _ s' => sliceFrom s' n'
  | S _, EmptyString => EmptyString
  end.

(** [strings.SplitN(s, sep, 2)] for a non-empty [sep]: the text before the
    first occurrence of [sep] and the text after it, or [s] alone when [sep]
    does not occur. *)
Definition SplitN2 (s sep : string) : list string :=
  match String.index 0 sep s with
  | Some i => [String.substring 0 i s; sliceFrom s (i + String.length sep)]
  | None => [s]
  end.

(** The double quote, as a one-character string. *)
Definition dquote : string := String (ascii_of_nat 34) EmptyString.

(** [ast.IsExported(name)]: the name starts with an upper-case letter.
    Identifiers are read as ASCII; upper-case letters beyond ASCII are
    outside the model. *)
Definition IsExported (name : string) : bool :=
  match name with
  | EmptyString => false
  | String c _ => (65 <=? nat_of_ascii c)%nat && (nat_of_ascii c <=? 90)%nat
  end.

(** [strings.Join(elems, sep)] *)
Fixpoint Join (elems : list string) (sep : string) : string :=
  match elems with
  | [] => ""
  | [e] => e
  | e :: rest => e +:+ sep +:+ Join rest sep
  end.

End GoStrings.

(** ** The scope rewriter of [lib/mock.go] *)

Module Scope.
Import GoStrings.

Definition isLocalExpr (expr : string) : bool :=
  if existsb (String.eqb expr) ["int"; "int8"; "int16"; "int32"; "int64"] then false
  else if existsb (String.eqb expr) ["uint"; "uint8"; "uint16"; "uint32"; "uint64"] then false
  else if existsb (String.eqb expr) ["rune"; "byte"; "uintptr"; "float32"; "float64"] then false
  else if existsb (String.eqb expr) ["string"; "bool"; "error"; "complex64"; "complex128"] then false
  else if HasPrefix expr "struct{" then false
  else if HasPrefix expr "interface{" then false
  else negb (Contains expr ".").

(** [isChannel] returns [(prefix, subtype)]; [("", "")] when [expr] is not
    recognised as a channel type. *)
Definition isChannel (expr : string) : string * string :=
  if negb (Contains expr " ") then ("", "")
  else
    match SplitN2 expr " " with
    | [p0; p1] =>
        if existsb (String.eqb p0) ["chan"; "<-chan"; "chan->"] then (p0, p1)
        else ("", "")
    | _ => ("", "")
    end.

(** [scopeName] recurses on a proper suffix of [name]: the fuel counts the
    recursive calls, and [S (length name)] of it is always enough
    (see [scopeName_unfold]). *)
Fixpoint scopeName_fuel (fuel : nat) (name scope : string) : string :=
  match fuel with
  | O => name
  | S fuel' =>
      if HasPrefix name "[]" then
        "[]" +:+ scopeName_fuel fuel' (sliceFrom name 2) scope
      else
        let '(channel, sub) := isChannel name in
        if negb (String.eqb channel "") then
          channel +:+ " " +:+ scopeName_fuel fuel' sub scope
        else if isLocalExpr name then scope +:+ "." +:+ name
        else name
  end.

Definition scopeName (name scope : string) : string :=
  scopeName_fuel (S (String.length name)) name scope.

(** The channel directions of [go/ast]: [SEND = 1], [RECV = 2], and a
    bidirectional channel carries both bits. *)
Inductive ChanDir := SEND | RECV | SEND_RECV.

(** The [*ast.ChanType] case of [mockGen.exprString], given the text of the
    element type. *)
Definition chanTypeString (dir : ChanDir) (value : string) : string :=
  let s := "" in
  let s := if dir is RECV then s +:+ "<-" else s in
  let s := s +:+ "chan" in
  let s := if dir is SEND then s +:+ "<-" else s in
  s +:+ " " +:+ value.

End Scope.

(** ** Import marks *)

Module Marks.

Definition mark := string.

Definition noMark : mark := "".
Definition normalMark : mark := "+".
Definition mockMark : mark := "_".
Definition testMark : mark := "@".
Definition replaceMark : mark := "=".

(** [markImport]; [None] is a panic: the slice [name[1:]] of an empty name,
    or an unknown mark. *)
Definition markImport (name : string) (m : mark) : option string :=
  if String.eqb m noMark || String.eqb m normalMark then Some name
  else if String.eqb m mockMark || String.eqb m testMark || String.eqb m replaceMark then
    match name with
    | EmptyString => None
    | String _ rest => Some (m +:+ rest)
    end
  else None.

(** [getMark]; [None] is the panic of [label[0]] on an empty label. *)
Definition getMark (label : string) : option mark :=
  match label with
  | EmptyString => None
  | String c _ =>
      if Ascii.eqb c "_" then Some mockMark
      else if Ascii.eqb c "@" then Some testMark
      else if Ascii.eqb c "=" then Some replaceMark
      else Some normalMark
  end.

End Marks.

(** ** Errors with context ([utils.Err]) *)

Module Utils.

(** A Go [error] value: a [utils.Err], which wraps another error under a
    context label, or an error of any other implementation, known by its
    message. *)
Inductive error :=
| errorString (msg : string)
| Err (Ctxt : string) (cause : error).

(** [func (c Err) Error() string]: the message of the root cause. *)
Fixpoint Error (e : error) : string :=
  match e with
  | errorString msg => msg
  | Err _ cause => Error cause
  end.

(** [func (c Err) Context() string], on the fields of [c]. *)
Fixpoint Context (Ctxt : string) (cause : error) : string :=
  match cause with
  | Err Ctxt2 cause2 => Ctxt +:+ ":" +:+ Context Ctxt2 cause2
  | errorString _ => Ctxt
  end.

End Utils.

(** ** Cache keys ([cache/keys.go]) *)

Module Cache.
Import GoStrings Utils.

(** [Files] is a Go slice: [None] is the nil slice. [hash] is the
    unexported memo field. *)
Record CacheFileKey := {
  Self : string;
  Op : string;
  Files : option (list string);
  hash : string
}.

(** [hex.EncodeToString] *)
Definition hexDigit (n : nat) : ascii :=
  nth n (list_ascii_of_string "0123456789abcdef") "0"%char.

Fixpoint EncodeToString (src : string) : string :=
  match src with
  | EmptyString => ""
  | String c rest =>
      String (hexDigit (nat_of_ascii c / 16))
        (String (hexDigit (nat_of_ascii c mod 16)) (EncodeToString rest))
  end.

Definition newline : string := String (ascii_of_nat 10) EmptyString.

Section Keys.

(** The rendering of a Go string by [encoding/json] (quoting and escaping). *)
Variable jsonString : string -> string.

(** The hash behind [NewCacheHash()]: the bytes of [h.Sum(nil)] once [data]
    was written to [h]. [NewCacheHash] is declared elsewhere in the package
    and is kept abstract here. *)
Variable cacheHashSum : string -> string.

(** The cache behind a [*Cache] receiver, its [self] field and its
    [lookupDetails] method (declared elsewhere in the package and kept
    abstract here): the method may update the cache, and returns a
    fingerprint and an optional error. *)
Variable CacheT : Type.
Variable self : CacheT -> string.
Variable lookupDetails : CacheT -> string -> CacheT * (string * option error).

(** What [json.Encoder.Encode] writes for a key: the exported fields under
    their tags, in declaration order, then a newline. The unexported [hash]
    is no part of it. *)
Definition jsonFiles (files : option (list string)) : string :=
  match files with
  | None => "null"
  | Some l => "[" +:+ Join (map jsonString l) "," +:+ "]"
  end.

Definition jsonEncode (k : CacheFileKey) : string :=
  "{" +:+ dquote +:+ "self" +:+ dquote +:+ ":" +:+ jsonString (Self k) +:+
  "," +:+ dquote +:+ "op" +:+ dquote +:+ ":" +:+ jsonString (Op k) +:+
  "," +:+ dquote +:+ "files" +:+ dquote +:+ ":" +:+ jsonFiles (Files k) +:+
  "}" +:+ newline.

(** The digests computed so far, by the text that was digested: the trace
    against which "computed once" is stated. *)
Definition trace := list string.

(** [calcHash] mutates the key behind the pointer: the updated key is
    returned. *)
Definition calcHash (k : CacheFileKey) (t : trace) : CacheFileKey * trace :=
  let data := jsonEncode k in
  ({| Self := Self k; Op := Op k; Files := Files k;
      hash := EncodeToString (cacheHashSum data) |},
   t ++ [data]).

Definition Hash (k : CacheFileKey) (t : trace) : string * CacheFileKey * trace :=
  if String.eqb (hash k) "" then
    let '(k', t') := calcHash k t in (hash k', k', t')
  else (hash k, k, t).

(** The loop of [NewCacheFileKey]: [files[i]] is assigned before the error
    is looked at. *)
Fixpoint lookupLoop (c : CacheT) (i : nat) (srcs : list string) (files : list string)
  : CacheT * (list string + error) :=
  match srcs with
  | [] => (c, inl files)
  | src :: rest =>
      let '(c', (d, err)) := lookupDetails c src in
      let files' := <[i := d]> files in
      match err with
      | Some e => (c', inr (Err ("c.getDetails(" +:+ src +:+ ")") e))
      | None => lookupLoop c' (S i) rest files'
      end
  end.

(** [NewCacheFileKey] returns the cache as the lookups left it, and the
    pair of Go results: the key ([None] is nil) and the error ([None] is
    nil). *)
Definition NewCacheFileKey (c : CacheT) (op : string) (srcs : list string)
  : CacheT * (option CacheFileKey * option error) :=
  let files := replicate (length srcs) "" in
  match lookupLoop c 0 srcs files with
  | (c', inr e) => (c', (None, Some e))
  | (c', inl files') =>
      (c', (Some {| Self := self c'; Op := op; Files := Some files'; hash := "" |}, None))
  end.

(** The words of the specification, for comparison with the loop above:
    the inputs are resolved in the order they were supplied, each against
    the cache the previous lookups left. *)
Inductive ResolvesAll : CacheT -> list string -> CacheT -> list string -> Prop :=
| resolves_nil c : ResolvesAll c [] c []
| resolves_cons c src c1 d rest c2 ds :
    lookupDetails c src = (c1, (d, None)) ->
    ResolvesAll c1 rest c2 ds ->
    ResolvesAll c (src :: rest) c2 (d :: ds).

(** The first input that fails to resolve, with the error of its lookup. *)
Inductive FailsAt : CacheT -> list string -> CacheT -> string -> error -> Prop :=
| fails_here c src c1 d e rest :
    lookupDetails c src = (c1, (d, Some e)) ->
    FailsAt c (src :: rest) c1 src e
| fails_later c src c1 d rest c2 src' e :
    lookupDetails c src = (c1, (d, None)) ->
    FailsAt c1 rest c2 src' e ->
    FailsAt c (src :: rest) c2 src' e.

(** The keys a program can hold: [hash] is written by [calcHash] only, so
    it is empty or the digest of the key's own encoding. *)
Definition keyOK (k : CacheFileKey) : Prop :=
  hash k = "" \/ hash k = EncodeToString (cacheHashSum (jsonEncode k)).

End Keys.

Arguments lookupLoop {CacheT} _ _ _ _ _.
Arguments NewCacheFileKey {CacheT} _ _ _ _ _.
Arguments ResolvesAll {CacheT} _ _ _ _ _.
Arguments FailsAt {CacheT} _ _ _ _ _ _.
Arguments resolves_nil {CacheT} _ _.
Arguments resolves_cons {CacheT} _ _ _ _ _ _ _ _ _ _.
Arguments fails_here {CacheT} _ _ _ _ _ _ _ _.
Arguments fails_later {CacheT} _ _ _ _ _ _ _ _ _ _ _.

End Cache.

(** ** Expressions and their source text ([mockGen.exprString]) *)

Module Ast.
Import GoStrings.
Export Scope.

(** The expression nodes of [go/ast] that [exprString] renders. A field (of
    a parameter list, a struct or an interface) is its names, its type and
    its tag. [FuncLit] carries the bytes of its body, from the opening to
    the closing brace, as read from the source file ([None]: the read
    failed). [OtherExpr] is any other node kind. *)
Inductive Expr :=
| BasicLit (Value : string)
| CompositeLit (Type_ : option Expr) (Elts : list Expr)
| Ident (Name : string)
| CallExpr (Fun : Expr) (Args : list Expr)
| Ellipsis (Elt : option Expr)
| ChanType (Dir : ChanDir) (Value : Expr)
| KeyValueExpr (Key Value : Expr)
| ParenExpr (X : Expr)
| FuncLit (Type_ : Expr) (body : option string)
| StarExpr (X : Expr)
| SelectorExpr (X : Expr) (Sel : string)
| StructType (Fields : list (list string * Expr * option string))
| ArrayType (Len : option Expr) (Elt : Expr)
| MapType (Key Value : Expr)
| UnaryExpr (Op : string) (X : Expr)
| TypeAssertExpr (X : Expr) (Type_ : option Expr)
| IndexExpr (X Index : Expr)
| InterfaceType (Methods : list (list string * Expr * option string))
| FuncType (Params Results : option (list (list string * Expr * option string)))
| BinaryExpr (X : Expr) (Op : string) (Y : Expr)
| SliceExpr (X : Expr) (Low High Max : option Expr) (Slice3 : bool)
| OtherExpr.

Definition Field : Type := list string * Expr * option string.

Definition tab : string := String (ascii_of_nat 9) EmptyString.
Definition nl : string := String (ascii_of_nat 10) EmptyString.

Section Loops.
Context {A : Type} (f : A -> option string) (sep : string).

(** [for i, x := range l { if i > 0 { s += sep }; s += f(x) }] *)
Fixpoint sepFrom (first : bool) (l : list A) : option string :=
  match l with
  | [] => Some ""
  | x :: rest =>
      match f x, sepFrom false rest with
      | Some s, Some r => Some ((if first then "" else sep) +:+ s +:+ r)
      | _, _ => None
      end
  end.

(** [for _, x := range l { s += f(x) }] *)
Fixpoint concatAll (l : list A) : option string :=
  match l with
  | [] => Some ""
  | x :: rest =>
      match f x, concatAll rest with
      | Some s, Some r => Some (s +:+ r)
      | _, _ => None
      end
  end.

End Loops.

Definition optString (f : Expr -> option string) (o : option Expr) (dflt : string)
  : option string :=
  match o with
  | None => Some dflt
  | Some e => f e
  end.

(** [exprString]; [None] is a panic. The scopes that the [SelectorExpr]
    case registers on the side are no part of the text. *)
Fixpoint exprString (exp : Expr) : option string :=
  (* a parameter of a method or function type: its names, then its type *)
  let namedField (fld : Field) : option string :=
    let '(names, ty, _) := fld in
    t ← exprString ty;
    Some ((if bool_decide (names = []) then "" else Join names ", " +:+ " ") +:+ t) in
  let typeOnly (fld : Field) : option string :=
    let '(_, ty, _) := fld in exprString ty in
  match exp with
  | BasicLit v => Some v
  | CompositeLit ty elts =>
      t ← match ty with None => Some "" | Some e => exprString e end;
      es ← sepFrom exprString ", " true elts;
      Some (t +:+ "{" +:+ es +:+ "}")
  | Ident name => Some name
  | CallExpr f args =>
      s ← exprString f;
      es ← sepFrom exprString ", " true args;
      Some (s +:+ "(" +:+ es +:+ ")")
  | Ellipsis elt =>
      match elt with
      | None => Some "..."
      | Some e => s ← exprString e; Some ("..." +:+ s)
      end
  | ChanType dir v => s ← exprString v; Some (chanTypeString dir s)
  | KeyValueExpr k v => a ← exprString k; b ← exprString v; Some (a +:+ ": " +:+ b)
  | ParenExpr x => s ← exprString x; Some ("(" +:+ s +:+ ")")
  | FuncLit ty body => b ← body; t ← exprString ty; Some (t +:+ " " +:+ b)
  | StarExpr x => s ← exprString x; Some ("*" +:+ s)
  | SelectorExpr x sel => scope ← exprString x; Some (scope +:+ "." +:+ sel)
  | StructType fields =>
      if bool_decide (fields = []) then Some "struct{}"
      else
        fs ← concatAll (fun fld : Field =>
                let '(names, ty, tag) := fld in
                t ← exprString ty;
                Some (tab +:+ Join names ", " +:+ " " +:+ t +:+
                      match tag with Some v => " " +:+ v | None => "" end +:+ nl))
              fields;
        Some ("struct {" +:+ nl +:+ fs +:+ "}")
  | ArrayType len elt =>
      match len with
      | None => s ← exprString elt; Some ("[]" +:+ s)
      | Some l => n ← exprString l; s ← exprString elt; Some ("[" +:+ n +:+ "]" +:+ s)
      end
  | MapType k v => a ← exprString k; b ← exprString v; Some ("map[" +:+ a +:+ "]" +:+ b)
  | UnaryExpr op x => s ← exprString x; Some (op +:+ s)
  | TypeAssertExpr x ty =>
      s ← exprString x;
      t ← match ty with None => Some "type" | Some e => exprString e end;
      Some (s +:+ ".(" +:+ t +:+ ")")
  | IndexExpr x i => a ← exprString x; b ← exprString i; Some (a +:+ "[" +:+ b +:+ "]")
  | InterfaceType methods =>
      if bool_decide (methods = []) then Some "interface{}"
      else
        ms ← concatAll (fun fld : Field =>
                let '(names, ty, _) := fld in
                body ← match ty with
                       | FuncType params results =>
                           name ← head names;
                           ps ← match params with
                                | None => Some ""
                                | Some l => sepFrom namedField ", " true l
                                end;
                           rs ← match results with
                                | None => Some ""
                                | Some l =>
                                    paren ← (if bool_decide (1 < length l)%nat then Some true
                                             else match l with
                                                  | [] => None
                                                  | (ns, _, _) :: _ => Some (bool_decide (0 < length ns)%nat)
                                                  end);
                                    r ← sepFrom namedField ", " true l;
                                    Some (" " +:+ (if paren : bool then "(" else "") +:+ r +:+
                                          (if paren then ")" else ""))
                                end;
                           Some (name +:+ "(" +:+ ps +:+ ")" +:+ rs)
                       | SelectorExpr x sel => s ← exprString x; Some (s +:+ "." +:+ sel)
                       | Ident name => Some name
                       | _ => None
                       end;
                Some (tab +:+ body +:+ nl))
              methods;
        Some ("interface {" +:+ nl +:+ ms +:+ "}")
  | FuncType params results =>
      ps ← match params with
           | None => Some ""
           | Some l => sepFrom namedField ", " true l
           end;
      rs ← match results with
           | None => Some ""
           | Some l =>
               r ← sepFrom typeOnly ", " true l;
               Some (" " +:+ (if bool_decide (1 < length l)%nat then "(" else "") +:+ r +:+
                     (if bool_decide (1 < length l)%nat then ")" else ""))
           end;
      Some ("func(" +:+ ps +:+ ")" +:+ rs)
  | BinaryExpr x op y => a ← exprString x; b ← exprString y; Some (a +:+ op +:+ b)
  | SliceExpr x low high max slice3 =>
      s ← exprString x;
      l ← match low with None => Some "" | Some e => exprString e end;
      h ← match high with None => Some "" | Some e => exprString e end;
      m ← (if slice3 then
             m' ← match max with None => Some "" | Some e => exprString e end;
             Some (":" +:+ m')
           else Some "");
      Some (s +:+ "[" +:+ l +:+ ":" +:+ h +:+ m +:+ "]")
  | OtherExpr => None
  end.

End Ast.

(** ** The declaration transformer of [lib/mock.go] *)

Module Gen.
Import GoStrings.
Export Ast.

(** Writing to an [io.Writer]: a computation yields a value and the text
    it wrote, and sequencing appends the texts. *)
Record W (A : Type) := mkW { value : A; text : string }.
Arguments mkW {A} _ _.
Arguments value {A} _.
Arguments text {A} _.

#[export] Instance W_ret : MRet W := fun A a => mkW a "".
#[export] Instance W_bind : MBind W := fun A B k m =>
  mkW (value (k (value m))) (text m +:+ text (k (value m))).

(** [fmt.Fprintf(out, ...)], on the formatted text. *)
Definition Fprintf (s : string) : W unit := mkW tt s.

(** One writer after the other. *)
Definition andThen (a b : W unit) : W unit := a ;; b.

(** [if c { body }] *)
Definition when (c : bool) (body : W unit) : W unit :=
  if c then body else mret tt.

(** [for _, x := range l { body x }] *)
Fixpoint forEach {A} (l : list A) (body : A -> W unit) : W unit :=
  match l with
  | [] => mret tt
  | x :: rest => body x ;; forEach rest body
  end.

(** [for i := 0; i < n; i++ { body i }] *)
Definition forUpTo (n : Z) (body : Z -> W unit) : W unit :=
  forEach (seqZ 0 n) body.

(** [for i, x := range l { body i x }] *)
Definition forRange {A} (l : list A) (body : Z -> A -> W unit) : W unit :=
  forEach (zip (seqZ 0 (Z.of_nat (length l))) l) (fun ix => body ix.1 ix.2).

(** The verb [%d]. *)
Definition fmtd (i : Z) : string := pretty i.

Record field := {
  names : list string;
  expr : string
}.

Record funcInfo := {
  name : string;
  export : string;
  varidic : bool;
  realDisabled : bool;
  recv_name : string;
  recv_expr : string;
  params : list field;
  results : list field;
  body : string
}.

Definition scopeFields (fields : list field) (scope : string) : list field :=
  map (fun f => {| names := names f; expr := scopeName (expr f) scope |}) fields.

Definition AddScope (fi : funcInfo) (scope : string) : funcInfo :=
  {| name := name fi;
     export := "";
     varidic := varidic fi;
     realDisabled := realDisabled fi;
     recv_name := recv_name fi;
     recv_expr := scopeName (recv_expr fi) scope;
     params := scopeFields (params fi) scope;
     results := scopeFields (results fi) scope;
     body := body fi |}.

Definition IsMethod (fi : funcInfo) : bool := negb (String.eqb (recv_expr fi) "").

(** The signature part that [writeReal] and [writeStub] share: a parameter
    or result list, each field as its names and its type. *)
Definition writeFields (fields : list field) : W unit :=
  forRange fields (fun i f =>
    when (0 <? i)%Z (Fprintf ", ");;
    Fprintf (Join (names f) ", " +:+ " " +:+ expr f)).

Definition writeReal (fi : funcInfo) : W unit :=
  when (negb (String.eqb (export fi) "")) (Fprintf ("//export " +:+ export fi +:+ nl));;
  Fprintf "func ";;
  when (IsMethod fi) (Fprintf ("(" +:+ recv_name fi +:+ " " +:+ recv_expr fi +:+ ") "));;
  when (IsExported (name fi)) (Fprintf "_real_");;
  Fprintf (name fi +:+ "(");;
  writeFields (params fi);;
  Fprintf ") ";;
  when (0 <? length (results fi))%nat
    (Fprintf "(";; writeFields (results fi);; Fprintf ") ");;
  Fprintf (body fi);;
  Fprintf nl.

Definition writeStub (fi : funcInfo) : W unit :=
  Fprintf "func ";;
  when (IsMethod fi) (Fprintf ("(" +:+ recv_name fi +:+ " " +:+ recv_expr fi +:+ ") "));;
  when (IsExported (name fi)) (Fprintf "_real_");;
  Fprintf (name fi +:+ "(");;
  writeFields (params fi);;
  Fprintf ") ";;
  when (0 <? length (results fi))%nat
    (Fprintf "(";; writeFields (results fi);; Fprintf ") ");;
  Fprintf ("{" +:+ nl);;
  Fprintf (tab +:+ "panic(" +:+ dquote +:+ "This is only a stub!" +:+ dquote +:+ ")" +:+ nl);;
  Fprintf ("}" +:+ nl);;
  Fprintf nl.

Definition countParams (fi : funcInfo) : Z :=
  fold_left (fun p param =>
    if (length (names param) =? 0)%nat then (p + 1)%Z
    else (p + Z.of_nat (length (names param)))%Z) (params fi) 0%Z.

(** The inner loop of [writeParams]: one [p<n>] per name, counting on. *)
Fixpoint writeParamNames (j : Z) (p : Z) (ns : list string) : W Z :=
  match ns with
  | [] => mret p
  | _ :: rest =>
      when (0 <? j)%Z (Fprintf ", ");;
      Fprintf ("p" +:+ fmtd p);;
      writeParamNames (j + 1) (p + 1) rest
  end.

Fixpoint writeParamsFrom (i : Z) (p : Z) (ps : list field) : W Z :=
  match ps with
  | [] => mret p
  | param :: rest =>
      when (0 <? i)%Z (Fprintf ", ");;
      p' ← (if (length (names param) =? 0)%nat then
              Fprintf ("p" +:+ fmtd p);; mret (p + 1)%Z
            else writeParamNames 0 p (names param));
      Fprintf (" " +:+ expr param);;
      writeParamsFrom (i + 1) p' rest
  end.

Definition writeParams (fi : funcInfo) : W Z := writeParamsFrom 0 0 (params fi).

Definition retTypes (fi : funcInfo) : list string :=
  fold_left (fun results result =>
    let x := length (names result) in
    let x := if (x =? 0)%nat then 1%nat else x in
    results ++ replicate x (expr result)) (results fi) [].

(** The loops over the parameter numbers, which [writeMock] and
    [writeRecorder] repeat:
    [for i := 0; i < n; i++ { if i > 0 { ", " }; "p%d" }],
    [for i := 0; i < n; i++ { "p%d, " }],
    [for i := 0; i < n; i++ { ", p%d" }], and the first one over [ret%d]. *)
Definition writeArgs (n : Z) : W unit :=
  forUpTo n (fun i =>
    when (0 <? i)%Z (Fprintf ", ");;
    Fprintf ("p" +:+ fmtd i)).

Definition writeArgsComma (n : Z) : W unit :=
  forUpTo n (fun i => Fprintf ("p" +:+ fmtd i +:+ ", ")).

Definition writeArgsAfter (n : Z) : W unit :=
  forUpTo n (fun i => Fprintf (", p" +:+ fmtd i)).

Definition writeRets (n : Z) : W unit :=
  forUpTo n (fun i =>
    when (0 <? i)%Z (Fprintf ", ");;
    Fprintf ("ret" +:+ fmtd i)).

(** One line [ret<i>, _ := ret[<i>].(<ret>)]. *)
Definition writeAssert (i : Z) (ret : string) : W unit :=
  Fprintf (tab +:+ "ret" +:+ fmtd i +:+ ", _ := ret[" +:+ fmtd i +:+ "].(" +:+ ret +:+ ")" +:+ nl).

(** The text ["..."] of a quoted symbol name, as the generated code has it. *)
Definition quoted (s : string) : string := dquote +:+ s +:+ dquote.

Definition writeMock (fi : funcInfo) : W unit :=
  let scopedName := name fi in
  Fprintf "func ";;
  scopedName ← (if IsMethod fi then
                   Fprintf ("(_m " +:+ recv_expr fi +:+ ") ");;
                   mret (if HasPrefix (recv_expr fi) "*"
                         then sliceFrom (recv_expr fi) 1 +:+ "." +:+ scopedName
                         else recv_expr fi +:+ "." +:+ scopedName)
                 else mret scopedName);
  Fprintf (name fi +:+ "(");;
  args ← writeParams fi;
  Fprintf ") ";;
  let returns := retTypes fi in
  when (0 <? length returns)%nat (Fprintf ("(" +:+ Join returns ", " +:+ ") "));;
  Fprintf ("{" +:+ nl);;
  when (negb (IsMethod fi))
    (Fprintf tab;;
     when (0 <? length (results fi))%nat (Fprintf "return ");;
     Fprintf ("_pkgMock." +:+ name fi +:+ "(");;
     writeArgs args;;
     when (varidic fi) (Fprintf "...");;
     Fprintf (")" +:+ nl);;
     Fprintf ("}" +:+ nl);;
     Fprintf ("func (_m *_packageMock) " +:+ name fi +:+ "(");;
     writeParams fi;;
     Fprintf ") ";;
     when (0 <? length returns)%nat (Fprintf ("(" +:+ Join returns ", " +:+ ") "));;
     Fprintf ("{" +:+ nl));;
  (if varidic fi then
     when (negb (realDisabled fi))
       (Fprintf (tab +:+ "if (!_allMocked && !_enabledMocks[" +:+ quoted scopedName +:+ "]) " +:+
                 "|| _disabledMocks[" +:+ quoted scopedName +:+ "] {" +:+ nl);;
        Fprintf (tab +:+ tab);;
        when (0 <? length (results fi))%nat (Fprintf "return ");;
        when (IsMethod fi) (Fprintf "_m.");;
        Fprintf ("_real_" +:+ name fi +:+ "(");;
        writeArgsComma (args - 1);;
        Fprintf ("p" +:+ fmtd (args - 1) +:+ "...");;
        Fprintf (")" +:+ nl);;
        when (length (results fi) =? 0)%nat (Fprintf (tab +:+ "return"));;
        Fprintf (tab +:+ "}" +:+ nl));;
     Fprintf (tab +:+ "args := []interface{}{");;
     writeArgs (args - 1);;
     Fprintf ("}" +:+ nl);;
     Fprintf (tab +:+ "for _, v := range p" +:+ fmtd (args - 1) +:+ " {" +:+ nl);;
     Fprintf (tab +:+ tab +:+ "args = append(args, v)" +:+ nl);;
     Fprintf (tab +:+ "}" +:+ nl);;
     Fprintf tab;;
     when (0 <? length (results fi))%nat (Fprintf "ret := ");;
     Fprintf ("_ctrl.Call(_m, " +:+ quoted (name fi) +:+ ", args...)" +:+ nl)
   else
     when (negb (realDisabled fi))
       (Fprintf (tab +:+ "if (!_allMocked && !_enabledMocks[" +:+ quoted scopedName +:+ "]) " +:+
                 "||  _disabledMocks[" +:+ quoted scopedName +:+ "] {" +:+ nl);;
        Fprintf (tab +:+ tab);;
        when (0 <? length (results fi))%nat (Fprintf "return ");;
        when (IsMethod fi) (Fprintf "_m.");;
        Fprintf ("_real_" +:+ name fi +:+ "(");;
        writeArgs args;;
        Fprintf (")" +:+ nl);;
        when (length (results fi) =? 0)%nat (Fprintf (tab +:+ "return"));;
        Fprintf (tab +:+ "}" +:+ nl));;
     Fprintf tab;;
     when (0 <? length (results fi))%nat (Fprintf "ret := ");;
     Fprintf ("_ctrl.Call(_m, " +:+ quoted (name fi));;
     writeArgsAfter args;;
     Fprintf (")" +:+ nl));;
  forRange returns writeAssert;;
  when (0 <? length returns)%nat
    (Fprintf (tab +:+ "return ");;
     writeRets (Z.of_nat (length returns));;
     Fprintf nl);;
  Fprintf ("}" +:+ nl).

Definition writeRecorder (fi : funcInfo) (recorder : string) : W unit :=
  let args := countParams fi in
  Fprintf ("func (_mr *" +:+ recorder +:+ ") " +:+ name fi +:+ "(");;
  when (0 <? args)%Z
    (if varidic fi then
       when (1 <? args)%Z
         (writeArgs (args - 1);;
          Fprintf " interface{}, ");;
       Fprintf ("p" +:+ fmtd (args - 1) +:+ " ...interface{}")
     else
       writeArgs args;;
       Fprintf " interface{}");;
  Fprintf (") *gomock.Call {" +:+ nl);;
  when (varidic fi)
    (Fprintf (tab +:+ "args := append([]interface{}{");;
     writeArgs (args - 1);;
     Fprintf ("}, p" +:+ fmtd (args - 1) +:+ "...)" +:+ nl));;
  Fprintf (tab +:+ "return _ctrl.RecordCall(_mr.mock, " +:+ quoted (name fi));;
  (if varidic fi then Fprintf ", args..."
   else writeArgsAfter args);;
  Fprintf (")" +:+ nl);;
  Fprintf ("}" +:+ nl).

(** *** Function declarations in [mockGen.file] *)

(** [strings.TrimSpace], on ASCII white space. *)
Definition isSpace (c : ascii) : bool :=
  existsb (Nat.eqb (nat_of_ascii c)) [9; 10; 11; 12; 13; 32]%nat.

Fixpoint trimLeft (s : string) : string :=
  match s with
  | String c rest => if isSpace c then trimLeft rest else s
  | EmptyString => s
  end.

Fixpoint trimRight (s : string) : string :=
  match s with
  | String c rest =>
      match trimRight rest with
      | EmptyString => if isSpace c then "" else String c ""
      | r => String c r
      end
  | EmptyString => s
  end.

Definition TrimSpace (s : string) : string := trimRight (trimLeft s).

(** An [*ast.FuncDecl]: [Doc] is [d.Doc.Text()], [Recv] the first field of
    the receiver list, and [Body] the bytes of the body from its opening
    to its closing brace, as [file] reads them from the source ([None]: a
    declaration without body). *)
Record FuncDecl := {
  Doc : string;
  Recv : option (list string * Expr);
  Name : string;
  Params : list Field;
  Results : option (list Field);
  Body : option string
}.

(** The fields of [mockGen] that the function declarations read or write. *)
Record mockGen := {
  mockPrototypes : bool;
  callInits : bool;
  types : gmap string Expr;
  recorders : gmap string string;
  extFunctions : list string;
  initCount : Z;
  MOCK : string;
  EXPECT : string;
  ObjEXPECT : string
}.

Definition withRecorders (m : mockGen) (r : gmap string string) : mockGen :=
  {| mockPrototypes := mockPrototypes m; callInits := callInits m; types := types m;
     recorders := r; extFunctions := extFunctions m; initCount := initCount m;
     MOCK := MOCK m; EXPECT := EXPECT m; ObjEXPECT := ObjEXPECT m |}.

Definition withExtFunctions (m : mockGen) (l : list string) : mockGen :=
  {| mockPrototypes := mockPrototypes m; callInits := callInits m; types := types m;
     recorders := recorders m; extFunctions := l; initCount := initCount m;
     MOCK := MOCK m; EXPECT := EXPECT m; ObjEXPECT := ObjEXPECT m |}.

Definition withInitCount (m : mockGen) (n : Z) : mockGen :=
  {| mockPrototypes := mockPrototypes m; callInits := callInits m; types := types m;
     recorders := recorders m; extFunctions := extFunctions m; initCount := n;
     MOCK := MOCK m; EXPECT := EXPECT m; ObjEXPECT := ObjEXPECT m |}.

Definition withName (fi : funcInfo) (n : string) : funcInfo :=
  {| name := n; export := export fi; varidic := varidic fi;
     realDisabled := realDisabled fi; recv_name := recv_name fi;
     recv_expr := recv_expr fi; params := params fi; results := results fi;
     body := body fi |}.

Definition isEllipsis (e : Expr) : bool :=
  match e with
  | Ellipsis _ => true
  | _ => false
  end.

(** The parameter (or result) loop: each field with the text of its type. *)
Definition declFields (l : list Field) : option (list field) :=
  mapM (fun fld : Field =>
          let '(ns, ty, _) := fld in
          t ← exprString ty;
          Some {| names := ns; expr := t |}) l.

(** The recorder name that [file] derives from a receiver type. *)
Definition recorderName (ty : Expr) : option string :=
  t ← exprString ty;
  match ty with
  | StarExpr x => s ← exprString x; Some ("_" +:+ s +:+ "_Rec")
  | _ => Some ("_" +:+ t +:+ "_Rec")
  end.

(** The [funcInfo] that [file] builds for a declaration, the recorder name,
    and the key under which the recorder is registered, if any. [None] is
    a panic of [exprString]. *)
Definition funcInfoOf (d : FuncDecl) : option (funcInfo * string * option string) :=
  rcv ← match Recv d with
        | None => Some ("", "", "_package_Rec", None)
        | Some (ns, ty) =>
            t ← exprString ty;
            recorder ← recorderName ty;
            Some (default "" (head ns), t, recorder, Some t)
        end;
  let '(rname, rexpr, recorder, reg) := rcv in
  ps ← declFields (Params d);
  rs ← match Results d with
       | None => Some []
       | Some l => declFields l
       end;
  Some ({| name := Name d;
           export := if HasPrefix (Doc d) "export " then TrimSpace (sliceFrom (Doc d) 7) else "";
           varidic := fold_left (fun _ (p : Field) => isEllipsis p.1.2) (Params d) false;
           realDisabled := false;
           recv_name := rname;
           recv_expr := rexpr;
           params := ps;
           results := rs;
           body := default "" (Body d) |},
        recorder, reg).

(** The [*ast.FuncDecl] case of the declaration loop of [file]: the text
    written, the generator afterwards and the inits collected so far. *)
Definition fileFuncDecl (m : mockGen) (inits : list string) (d : FuncDecl)
  : option (W (mockGen * list string)) :=
  info ← funcInfoOf d;
  let '(fi, recorder, reg) := info in
  let m := match reg with
           | Some t => withRecorders m (<[t := recorder]> (recorders m))
           | None => m
           end in
  Some (
    st ← (if String.eqb (name fi) "init" && negb (IsMethod fi) then
            let fi := withName fi ("_real_init_" +:+ fmtd (initCount m)) in
            writeReal fi;;
            mret (fi, withInitCount m (initCount m + 1),
                  if callInits m then inits ++ [name fi] else inits)
          else if bool_decide (Body d = None) && mockPrototypes m then
            writeStub fi;; mret (fi, m, inits)
          else
            writeReal fi;; mret (fi, m, inits));
    let '(fi, m, inits) := st in
    m ← (if IsExported (Name d) then
           let m := if bool_decide (Body d = None)
                    then withExtFunctions m (extFunctions m ++ [Name d]) else m in
           writeMock fi;;
           writeRecorder fi recorder;;
           mret m
         else mret m);
    Fprintf nl;;
    mret (m, inits)).

(** The declaration loop of [file] over the function declarations of a
    file, and the [init] function that [file] writes last. The file starts
    with no inits collected; the generator carries [initCount] and
    [recorders] from file to file. *)
Fixpoint fileFuncDecls (m : mockGen) (inits : list string) (ds : list FuncDecl)
  : option (W (mockGen * list string)) :=
  match ds with
  | [] => Some (mret (m, inits))
  | d :: rest =>
      w ← fileFuncDecl m inits d;
      w' ← fileFuncDecls (value w).1 (value w).2 rest;
      Some (mkW (value w') (text w +:+ text w'))
  end.

Definition fileInit (inits : list string) : W unit :=
  Fprintf (nl +:+ "// Make sure inits are called" +:+ nl);;
  Fprintf ("func init() {" +:+ nl);;
  Fprintf (tab +:+ "callInits(" +:+ Join inits ", " +:+ ")" +:+ nl);;
  Fprintf ("}" +:+ nl).

End Gen.

(** ** The package scaffold ([mockGen.pkg]) *)

Module Scaffold.
Import GoStrings.
Export Gen.

(** The fixed part of the scaffold: the toggle variables, [callInits], and
    the control surface. *)
Definition pkgHeader (m : mockGen) (name : string) : W unit :=
  Fprintf ("package " +:+ name +:+ nl +:+ nl);;
  Fprintf ("import " +:+ quoted "github.com/golang/mock/gomock" +:+ nl +:+ nl);;
  Fprintf ("type _meta struct{}" +:+ nl);;
  Fprintf ("type _packageMock struct{int}" +:+ nl);;
  Fprintf ("type _package_Rec struct{" +:+ nl);;
  Fprintf (tab +:+ "mock *_packageMock" +:+ nl);;
  Fprintf ("}" +:+ nl +:+ nl);;
  Fprintf ("var (" +:+ nl);;
  Fprintf (tab +:+ "_allMocked = false" +:+ nl);;
  Fprintf (tab +:+ "_enabledMocks = make(map[string]bool)" +:+ nl);;
  Fprintf (tab +:+ "_disabledMocks = make(map[string]bool)" +:+ nl);;
  Fprintf (tab +:+ "_ctrl *gomock.Controller" +:+ nl);;
  Fprintf (tab +:+ "_pkgMock = &_packageMock{}" +:+ nl);;
  Fprintf (")" +:+ nl +:+ nl);;
  Fprintf ("func callInits(inits ...func()) {" +:+ nl);;
  Fprintf (tab +:+ "mocked := _allMocked" +:+ nl);;
  Fprintf (tab +:+ "enabledMocks := _enabledMocks" +:+ nl);;
  Fprintf (tab +:+ "_allMocked = false" +:+ nl);;
  Fprintf (tab +:+ "_enabledMocks = nil" +:+ nl);;
  Fprintf (tab +:+ "for _, f := range inits {" +:+ nl);;
  Fprintf (tab +:+ tab +:+ "f()" +:+ nl);;
  Fprintf (tab +:+ "}" +:+ nl);;
  Fprintf (tab +:+ "_allMocked = mocked" +:+ nl);;
  Fprintf (tab +:+ "_enabledMocks = enabledMocks" +:+ nl);;
  Fprintf ("}" +:+ nl +:+ nl);;
  Fprintf ("func " +:+ MOCK m +:+ "() *_meta {" +:+ nl);;
  Fprintf (tab +:+ "return nil" +:+ nl);;
  Fprintf ("}" +:+ nl);;
  Fprintf ("func (_ *_meta) SetController(controller *gomock.Controller) {" +:+ nl);;
  Fprintf (tab +:+ "_ctrl = controller" +:+ nl);;
  Fprintf ("}" +:+ nl);;
  Fprintf ("func (_ *_meta) MockAll(enabled bool) {" +:+ nl);;
  Fprintf (tab +:+ "_allMocked = enabled" +:+ nl);;
  Fprintf (tab +:+ "_enabledMocks = make(map[string]bool)" +:+ nl);;
  Fprintf (tab +:+ "_disabledMocks = make(map[string]bool)" +:+ nl);;
  Fprintf ("}" +:+ nl);;
  Fprintf ("func (_ *_meta) EnableMock(names ...string) {" +:+ nl);;
  Fprintf (tab +:+ "for _, name := range names {" +:+ nl);;
  Fprintf (tab +:+ tab +:+ "_enabledMocks[name] = true" +:+ nl);;
  Fprintf (tab +:+ tab +:+ "delete(_disabledMocks, name)" +:+ nl);;
  Fprintf (tab +:+ "}" +:+ nl);;
  Fprintf ("}" +:+ nl +:+ nl);;
  Fprintf ("func (_ *_meta) DisableMock(names ...string) {" +:+ nl);;
  Fprintf (tab +:+ "for _, name := range names {" +:+ nl);;
  Fprintf (tab +:+ tab +:+ "_disabledMocks[name] = true" +:+ nl);;
  Fprintf (tab +:+ tab +:+ "delete(_enabledMocks, name)" +:+ nl);;
  Fprintf (tab +:+ "}" +:+ nl);;
  Fprintf ("}" +:+ nl +:+ nl);;
  Fprintf ("func " +:+ EXPECT m +:+ "() *_package_Rec {" +:+ nl);;
  Fprintf (tab +:+ "return &_package_Rec{_pkgMock}" +:+ nl);;
  Fprintf ("}" +:+ nl +:+ nl).

Definition isInterfaceType (e : option Expr) : bool :=
  match e with
  | Some (InterfaceType _) => true
  | _ => false
  end.

(** The body of the loop over [m.recorders], for the entry [base -> rec].
    [None] is the panic of [base[1:]] on an empty key. *)
Definition pkgRecorder (m : mockGen) (base rec : string) : option (W unit) :=
  match base with
  | EmptyString => None
  | String c0 rest =>
      if Ascii.eqb c0 "*" && bool_decide (is_Some (recorders m !! rest)) then
        (* If pointer and non-pointer receiver, just use the non-pointer *)
        Some (mret tt)
      else
        let name := base in
        let mock := "Mock_" +:+ name in
        let retType := mock in
        let mod_ := "" in
        let '(name, mock, retType, mod_) :=
          if Ascii.eqb c0 "*"
          then (rest, "Mock_" +:+ rest, "*" +:+ ("Mock_" +:+ rest), "&")
          else (name, mock, retType, mod_) in
        let isInterface := isInterfaceType (types m !! name) in
        Some (
          when (negb isInterface && negb (IsExported name))
            (Fprintf ("type " +:+ mock +:+ " struct {" +:+ nl);;
             Fprintf (tab +:+ name +:+ nl);;
             Fprintf ("}" +:+ nl);;
             Fprintf ("func (_ *_meta) New" +:+ name +:+ "() " +:+ retType +:+ " {" +:+ nl);;
             Fprintf (tab +:+ "return " +:+ mod_ +:+ mock +:+ "{}" +:+ nl);;
             Fprintf ("}" +:+ nl +:+ nl));;
          Fprintf ("type " +:+ rec +:+ " struct {" +:+ nl);;
          Fprintf (tab +:+ "mock " +:+ base +:+ nl);;
          Fprintf ("}" +:+ nl +:+ nl);;
          Fprintf ("func (_m " +:+ base +:+ ") " +:+ ObjEXPECT m +:+ "() *" +:+ rec +:+ " {" +:+ nl);;
          Fprintf (tab +:+ "return &" +:+ rec +:+ "{_m}" +:+ nl);;
          Fprintf ("}" +:+ nl +:+ nl))
  end.

(** The declarations that the loop writes, one item per declaration. *)
Inductive item :=
| MockStruct (mock name : string)
| Constructor (name retType mod_ mock : string)
| RecorderStruct (rec base : string)
| ExpectAccessor (base objExpect rec : string).

Definition renderItem (it : item) : string :=
  match it with
  | MockStruct mock name =>
      "type " +:+ mock +:+ " struct {" +:+ nl +:+ tab +:+ name +:+ nl +:+ "}" +:+ nl
  | Constructor name retType mod_ mock =>
      "func (_ *_meta) New" +:+ name +:+ "() " +:+ retType +:+ " {" +:+ nl +:+
      tab +:+ "return " +:+ mod_ +:+ mock +:+ "{}" +:+ nl +:+ "}" +:+ nl +:+ nl
  | RecorderStruct rec base =>
      "type " +:+ rec +:+ " struct {" +:+ nl +:+ tab +:+ "mock " +:+ base +:+ nl +:+
      "}" +:+ nl +:+ nl
  | ExpectAccessor base objExpect rec =>
      "func (_m " +:+ base +:+ ") " +:+ objExpect +:+ "() *" +:+ rec +:+ " {" +:+ nl +:+
      tab +:+ "return &" +:+ rec +:+ "{_m}" +:+ nl +:+ "}" +:+ nl +:+ nl
  end.

Definition renderItems (l : list item) : string :=
  fold_right (fun it s => renderItem it +:+ s) "" l.

(** The items of one loop iteration (see [pkgRecorder_items] for the link
    with the text). *)
Definition recorderItems (m : mockGen) (base rec : string) : option (list item) :=
  match base with
  | EmptyString => None
  | String c0 rest =>
      if Ascii.eqb c0 "*" && bool_decide (is_Some (recorders m !! rest)) then Some []
      else
        let name := if Ascii.eqb c0 "*" then rest else base in
        let mock := "Mock_" +:+ name in
        let '(retType, mod_) := if Ascii.eqb c0 "*" then ("*" +:+ mock, "&") else (mock, "") in
        Some ((if negb (isInterfaceType (types m !! name)) && negb (IsExported name)
               then [MockStruct mock name; Constructor name retType mod_ mock]
               else []) ++
              [RecorderStruct rec base; ExpectAccessor base (ObjEXPECT m) rec])
  end.

(** The loop of [pkg] over [m.recorders], in the order [order] in which the
    map happens to be ranged over. *)
Fixpoint pkgRecorders (m : mockGen) (order : list (string * string)) : option (W unit) :=
  match order with
  | [] => Some (mret tt)
  | (base, rec) :: rest =>
      w ← pkgRecorder m base rec;
      w' ← pkgRecorders m rest;
      Some (andThen w w')
  end.

Fixpoint scaffoldItems (m : mockGen) (order : list (string * string)) : option (list item) :=
  match order with
  | [] => Some []
  | (base, rec) :: rest =>
      l ← recorderItems m base rec;
      l' ← scaffoldItems m rest;
      Some (l ++ l')
  end.

Definition pkg (m : mockGen) (name : string) (order : list (string * string))
  : option (W unit) :=
  w ← pkgRecorders m order;
  Some (andThen (pkgHeader m name) w).

(** The items about a base type [T]: its constructor, and the accessor and
    the recorder type of either receiver form. *)
Definition isConstructorFor (T : string) (it : item) : bool :=
  match it with
  | Constructor n _ _ _ => bool_decide (n = T)
  | _ => false
  end.

Definition isAccessorOn (T : string) (it : item) : bool :=
  match it with
  | ExpectAccessor b _ _ => bool_decide (b = T) || bool_decide (b = "*" +:+ T)
  | _ => false
  end.

Definition isRecorderStructOn (T : string) (it : item) : bool :=
  match it with
  | RecorderStruct _ b => bool_decide (b = T) || bool_decide (b = "*" +:+ T)
  | _ => false
  end.

Definition count (P : item -> bool) (l : list item) : nat := length (filter P l).

(** Whether the scaffold is to declare a constructor for the type [T]:
    the guard of [pkg]. *)
Definition constructed (m : mockGen) (T : string) : bool :=
  negb (isInterfaceType (types m !! T)) && negb (IsExported T).

(** The registry after the function declarations [ds] of a package, from an
    empty one: [file] registers the recorder of every method receiver. *)
Definition registerAll (m : mockGen) (ds : list FuncDecl) : option mockGen :=
  w ← fileFuncDecls m [] ds;
  Some (value w).1.

End Scaffold.

(** ** The generated code: toggle state, [callInits] and the dispatchers *)

Module Generated.
Import GoStrings.
Export Scaffold.

(** A Go [map[string]bool] variable: [None] is the nil map. Reading a nil
    map yields the zero value, [delete] on it does nothing, and assigning
    to an entry of it panics. *)
Definition boolMap : Type := option (gmap string bool).

Definition makeMap : boolMap := Some ∅.

Definition mapGet (m : boolMap) (k : string) : bool :=
  match m with
  | Some g => default false (g !! k)
  | None => false
  end.

Definition mapSet (m : boolMap) (k : string) (v : bool) : option boolMap :=
  match m with
  | Some g => Some (Some (<[k := v]> g))
  | None => None
  end.

Definition mapDelete (m : boolMap) (k : string) : boolMap :=
  match m with
  | Some g => Some (delete k g)
  | None => None
  end.

(** The package variables [_allMocked], [_enabledMocks], [_disabledMocks]
    and [_ctrl] of the scaffold; [C] is the state of a controller, and
    [ctrl = None] the nil [_ctrl]. *)
Record ToggleState (C : Type) := {
  allMocked : bool;
  enabledMocks : boolMap;
  disabledMocks : boolMap;
  ctrl : option C
}.
Arguments allMocked {C} _.
Arguments enabledMocks {C} _.
Arguments disabledMocks {C} _.
Arguments ctrl {C} _.

(** A run that ends normally or in a panic, with the state it leaves. *)
Inductive run (S : Type) :=
| Done (s : S)
| Panic (s : S).
Arguments Done {S} _.
Arguments Panic {S} _.

Definition stateOf {S} (r : run S) : S :=
  match r with
  | Done s => s
  | Panic s => s
  end.

Section Toggles.
Context {C : Type}.

(** The [var] block of the scaffold. *)
Definition initialToggles : ToggleState C :=
  {| allMocked := false; enabledMocks := makeMap; disabledMocks := makeMap; ctrl := None |}.

Definition SetController (controller : option C) (t : ToggleState C) : ToggleState C :=
  {| allMocked := allMocked t; enabledMocks := enabledMocks t;
     disabledMocks := disabledMocks t; ctrl := controller |}.

Definition MockAll (enabled : bool) (t : ToggleState C) : ToggleState C :=
  {| allMocked := enabled; enabledMocks := makeMap; disabledMocks := makeMap;
     ctrl := ctrl t |}.

Fixpoint EnableMock (names : list string) (t : ToggleState C) : run (ToggleState C) :=
  match names with
  | [] => Done t
  | name :: rest =>
      match mapSet (enabledMocks t) name true with
      | None => Panic t
      | Some e =>
          EnableMock rest
            {| allMocked := allMocked t; enabledMocks := e;
               disabledMocks := mapDelete (disabledMocks t) name; ctrl := ctrl t |}
      end
  end.

Fixpoint DisableMock (names : list string) (t : ToggleState C) : run (ToggleState C) :=
  match names with
  | [] => Done t
  | name :: rest =>
      match mapSet (disabledMocks t) name true with
      | None => Panic t
      | Some d =>
          DisableMock rest
            {| allMocked := allMocked t; enabledMocks := mapDelete (enabledMocks t) name;
               disabledMocks := d; ctrl := ctrl t |}
      end
  end.

(** [for _, f := range inits { f() }]: an init is any code over the toggle
    state, and a panic of one ends the loop. *)
Fixpoint runInits (inits : list (ToggleState C -> run (ToggleState C))) (t : ToggleState C)
  : run (ToggleState C) :=
  match inits with
  | [] => Done t
  | f :: rest =>
      match f t with
      | Done t' => runInits rest t'
      | Panic t' => Panic t'
      end
  end.

(** [callInits]. The map saved in the local [enabledMocks] cannot be reached
    by the inits: [_enabledMocks] is its only other reference, and it is
    overwritten before the first init runs. *)
Definition callInits (inits : list (ToggleState C -> run (ToggleState C))) (t : ToggleState C)
  : run (ToggleState C) :=
  let mocked := allMocked t in
  let enabledMocks_ := enabledMocks t in
  let t1 := {| allMocked := false; enabledMocks := None;
               disabledMocks := disabledMocks t; ctrl := ctrl t |} in
  match runInits inits t1 with
  | Panic t2 => Panic t2
  | Done t2 =>
      Done {| allMocked := mocked; enabledMocks := enabledMocks_;
              disabledMocks := disabledMocks t2; ctrl := ctrl t2 |}
  end.

(** The calls of the control surface, for sequences of them. *)
Inductive toggleCall :=
| CallMockAll (enabled : bool)
| CallEnableMock (names : list string)
| CallDisableMock (names : list string).

Definition toggleStep (c : toggleCall) (t : ToggleState C) : run (ToggleState C) :=
  match c with
  | CallMockAll enabled => Done (MockAll enabled t)
  | CallEnableMock names => EnableMock names t
  | CallDisableMock names => DisableMock names t
  end.

Fixpoint toggleCalls (cs : list toggleCall) (t : ToggleState C) : run (ToggleState C) :=
  match cs with
  | [] => Done t
  | c :: rest =>
      match toggleStep c t with
      | Done t' => toggleCalls rest t'
      | Panic t' => Panic t'
      end
  end.

(** The test at the head of every dispatcher. *)
Definition realSelected (t : ToggleState C) (scoped : string) : bool :=
  (negb (allMocked t) && negb (mapGet (enabledMocks t) scoped))
  || mapGet (disabledMocks t) scoped.

(** A name is in a set when the map holds [true] for it. *)
Definition setsDisjoint (t : ToggleState C) : Prop :=
  forall name, ~ (mapGet (enabledMocks t) name = true /\ mapGet (disabledMocks t) name = true).

(** Both maps were made (neither is nil). *)
Definition mapsMade (t : ToggleState C) : Prop :=
  is_Some (enabledMocks t) /\ is_Some (disabledMocks t).

(** The state in which [callInits] starts the inits. *)
Definition suspended (t : ToggleState C) : ToggleState C :=
  {| allMocked := false; enabledMocks := None;
     disabledMocks := disabledMocks t; ctrl := ctrl t |}.

(** An init that leaves the disabled set and the controller alone, however
    it ends. *)
Definition keepsFrame (f : ToggleState C -> run (ToggleState C)) : Prop :=
  forall t, disabledMocks (stateOf (f t)) = disabledMocks t
            /\ ctrl (stateOf (f t)) = ctrl t.

End Toggles.

End Generated.

(** ** The statements of a generated dispatcher and what they do *)

Module Dispatch.
Import GoStrings.
Export Generated.

(** The arguments of a generated call: [p0, ..., p(n-1)], the last one
    passed on as the variadic slice ([p(n-1)...]) in the second form. *)
Inductive callArgs :=
| ArgsPlain (n : Z)
| ArgsSpread (n : Z).

(** The arguments after the method name in [_ctrl.Call(_m, "name", ...)]:
    [args...] or [p0, ..., p(n-1)]. *)
Inductive ctrlArgs :=
| CtrlArgsVar
| CtrlParams (n : Z).

(** The statements that [writeMock] writes:
    - [SCallPkgMock ret name a]: [[return] _pkgMock.name(a)];
    - [SIfReal scoped wide ret method name a]:
      [if (!_allMocked && !_enabledMocks["scoped"]) || _disabledMocks["scoped"]
       { [return] [_m.]_real_name(a) [; return] }] ([wide] is the layout:
      one more blank after [||]);
    - [SArgs n]: [args := []interface{}{p0, ..., p(n-1)}];
    - [SRangeAppend i]: [for _, v := range p<i> { args = append(args, v) }];
    - [SCtrlCall bind name a]: [[ret :=] _ctrl.Call(_m, "name", a)];
    - [SAssert i ty]: [ret<i>, _ := ret[<i>].(ty)];
    - [SReturnRets n]: [return ret0, ..., ret(n-1)]. *)
Inductive stmt :=
| SCallPkgMock (ret : bool) (name : string) (a : callArgs)
| SIfReal (scoped : string) (wide : bool) (ret : bool) (method : bool) (name : string)
    (a : callArgs)
| SArgs (n : Z)
| SRangeAppend (i : Z)
| SCtrlCall (bind : bool) (name : string) (a : ctrlArgs)
| SAssert (i : Z) (ty : string)
| SReturnRets (n : Z).

(** A generated function: [func [(_m gRecv)] gName(gParams) [(gReturns)]
    { gBody }]. *)
Record genFunc := {
  gRecv : option string;
  gName : string;
  gParams : string;
  gReturns : list string;
  gBody : list stmt
}.

(** *** Concrete syntax *)

Definition pList (n : Z) : string := text (writeArgs n).

Definition retList (n : Z) : string := text (writeRets n).

Definition renderArgs (a : callArgs) : string :=
  match a with
  | ArgsPlain n => pList n
  | ArgsSpread n => pList n +:+ "..."
  end.

Definition renderCtrlArgs (a : ctrlArgs) : string :=
  match a with
  | CtrlArgsVar => ", args..."
  | CtrlParams n => text (writeArgsAfter n)
  end.

Definition renderStmt (st : stmt) : string :=
  match st with
  | SCallPkgMock ret name a =>
      tab +:+ (if ret then "return " else "") +:+ "_pkgMock." +:+ name +:+ "(" +:+
      renderArgs a +:+ ")" +:+ nl
  | SIfReal scoped wide ret method name a =>
      tab +:+ "if (!_allMocked && !_enabledMocks[" +:+ quoted scoped +:+ "]) ||" +:+
      (if wide then "  " else " ") +:+ "_disabledMocks[" +:+ quoted scoped +:+ "] {" +:+ nl +:+
      tab +:+ tab +:+ (if ret then "return " else "") +:+ (if method then "_m." else "") +:+
      "_real_" +:+ name +:+ "(" +:+ renderArgs a +:+ ")" +:+ nl +:+
      (if ret then "" else tab +:+ "return") +:+ tab +:+ "}" +:+ nl
  | SArgs n => tab +:+ "args := []interface{}{" +:+ pList n +:+ "}" +:+ nl
  | SRangeAppend i =>
      tab +:+ "for _, v := range p" +:+ fmtd i +:+ " {" +:+ nl +:+
      tab +:+ tab +:+ "args = append(args, v)" +:+ nl +:+ tab +:+ "}" +:+ nl
  | SCtrlCall bind name a =>
      tab +:+ (if bind then "ret := " else "") +:+ "_ctrl.Call(_m, " +:+ quoted name +:+
      renderCtrlArgs a +:+ ")" +:+ nl
  | SAssert i ty => text (writeAssert i ty)
  | SReturnRets n => tab +:+ "return " +:+ retList n +:+ nl
  end.

Definition renderBody (b : list stmt) : string :=
  fold_right (fun st s => renderStmt st +:+ s) "" b.

Definition renderFunc (g : genFunc) : string :=
  "func " +:+
  match gRecv g with Some t => "(_m " +:+ t +:+ ") " | None => "" end +:+
  gName g +:+ "(" +:+ gParams g +:+ ") " +:+
  (if (0 <? length (gReturns g))%nat then "(" +:+ Join (gReturns g) ", " +:+ ") " else "") +:+
  "{" +:+ nl +:+ renderBody (gBody g) +:+ "}" +:+ nl.

Definition renderFuncs (l : list genFunc) : string :=
  fold_right (fun g s => renderFunc g +:+ s) "" l.

(** *** The functions that [writeMock] writes for a [funcInfo] *)

Definition scopedNameOf (fi : funcInfo) : string :=
  if IsMethod fi then
    if HasPrefix (recv_expr fi) "*"
    then sliceFrom (recv_expr fi) 1 +:+ "." +:+ name fi
    else recv_expr fi +:+ "." +:+ name fi
  else name fi.

Definition passArgs (fi : funcInfo) (args : Z) : callArgs :=
  if varidic fi then ArgsSpread args else ArgsPlain args.

Definition dispatcherBody (fi : funcInfo) (args : Z) : list stmt :=
  let hasResults := (0 <? length (results fi))%nat in
  let returns := retTypes fi in
  (if realDisabled fi then []
   else [SIfReal (scopedNameOf fi) (negb (varidic fi)) hasResults (IsMethod fi) (name fi)
           (passArgs fi args)]) ++
  (if varidic fi
   then [SArgs (args - 1); SRangeAppend (args - 1); SCtrlCall hasResults (name fi) CtrlArgsVar]
   else [SCtrlCall hasResults (name fi) (CtrlParams args)]) ++
  map (fun it : Z * string => SAssert it.1 it.2)
    (zip (seqZ 0 (Z.of_nat (length returns))) returns) ++
  (if (0 <? length returns)%nat then [SReturnRets (Z.of_nat (length returns))] else []).

Definition mockFuncs (fi : funcInfo) : list genFunc :=
  let args := value (writeParams fi) in
  let hasResults := (0 <? length (results fi))%nat in
  if IsMethod fi then
    [ {| gRecv := Some (recv_expr fi); gName := name fi; gParams := text (writeParams fi);
         gReturns := retTypes fi; gBody := dispatcherBody fi args |} ]
  else
    [ {| gRecv := None; gName := name fi; gParams := text (writeParams fi);
         gReturns := retTypes fi;
         gBody := [SCallPkgMock hasResults (name fi) (passArgs fi args)] |};
      {| gRecv := Some "*_packageMock"; gName := name fi; gParams := text (writeParams fi);
         gReturns := retTypes fi; gBody := dispatcherBody fi args |} ].

(** A variadic function has a parameter: what [file] builds is so (see
    [funcInfoOf_wf]). *)
Definition wfInfo (fi : funcInfo) : Prop :=
  varidic fi = true -> (1 <= countParams fi)%Z.

(** *** Execution *)

(** The Go values that pass through a dispatcher. A variadic parameter
    holds a slice (or nil). *)
Inductive val :=
| VInt (n : Z)
| VString (s : string)
| VBool (b : bool)
| VNil
| VSlice (elems : list val)
| VObject (ty : string) (id : nat).

(** The value of [_pkgMock]. *)
Definition pkgMockValue : val := VObject "*_packageMock" 0.

Section Exec.

(** The controller behind [_ctrl]: [C] is its state, and [ctrlCall c recv
    method args] is [Call]: the controller afterwards and the list it
    returns ([None]: the controller ends the test instead of returning). *)
Context {C : Type}.
Variable ctrlCall : C -> val -> string -> list val -> C * option (list val).

(** Go's type assertion [v.(ty)] from [interface{}] ([None]: it fails),
    and the zero value of a type. *)
Variable assertType : val -> string -> option val.
Variable zeroValue : string -> val.

(** The state of a run: the toggle variables, and the calls that reached
    the controller so far (receiver, method name, argument list). *)
Record State := {
  toggles : ToggleState C;
  calls : list (val * string * list val)
}.

(** How a call ends. [Stuck] stands for code that would not compile (an
    unbound variable, a missing argument). *)
Inductive Outcome :=
| Returned (vs : list val) (s : State)
| Panicked (s : State)
| Stuck.

(** The real implementations: [real name recv args s] runs the function or
    method called [name] (on the receiver [recv], for a method). *)
Variable real : string -> option val -> list val -> State -> Outcome.

(** The variables of a dispatcher: the receiver [_m], the parameters
    [p0, p1, ...], [args], [ret], and [ret0, ret1, ...]. *)
Record Frame := {
  f_recv : val;
  f_params : list val;
  f_args : option (list val);
  f_ret : option (list val);
  f_rets : gmap Z val
}.

Inductive Flow :=
| Continue (fr : Frame) (s : State)
| Exit (o : Outcome).

Definition paramAt (fr : Frame) (i : Z) : option val :=
  if (i <? 0)%Z then None else f_params fr !! Z.to_nat i.

Definition paramsUpTo (fr : Frame) (n : Z) : option (list val) :=
  mapM (paramAt fr) (seqZ 0 n).

Definition evalArgs (fr : Frame) (a : callArgs) : option (list val) :=
  match a with
  | ArgsPlain n => paramsUpTo fr n
  | ArgsSpread n => if (n <? 1)%Z then None else paramsUpTo fr n
  end.

Definition coerce (v : val) (ty : string) : val :=
  match assertType v ty with
  | Some v' => v'
  | None => zeroValue ty
  end.

(** One statement; [pkgMock name vs s] is the call [_pkgMock.name(vs)]. *)
Definition execStmt (pkgMock : string -> list val -> State -> Outcome)
    (st : stmt) (fr : Frame) (s : State) : Flow :=
  match st with
  | SCallPkgMock ret name a =>
      match evalArgs fr a with
      | None => Exit Stuck
      | Some vs =>
          match pkgMock name vs s with
          | Returned rs s' => if ret then Exit (Returned rs s') else Continue fr s'
          | o => Exit o
          end
      end
  | SIfReal scoped _ ret method name a =>
      if realSelected (toggles s) scoped then
        match evalArgs fr a with
        | None => Exit Stuck
        | Some vs =>
            match real ("_real_" +:+ name) (if method then Some (f_recv fr) else None) vs s with
            | Returned rs s' => Exit (Returned (if ret then rs else []) s')
            | o => Exit o
            end
        end
      else Continue fr s
  | SArgs n =>
      match paramsUpTo fr n with
      | None => Exit Stuck
      | Some vs =>
          Continue {| f_recv := f_recv fr; f_params := f_params fr; f_args := Some vs;
                      f_ret := f_ret fr; f_rets := f_rets fr |} s
      end
  | SRangeAppend i =>
      match f_args fr, paramAt fr i with
      | Some args, Some (VSlice elems) =>
          Continue {| f_recv := f_recv fr; f_params := f_params fr;
                      f_args := Some (args ++ elems);
                      f_ret := f_ret fr; f_rets := f_rets fr |} s
      | Some args, Some VNil => Continue fr s
      | _, _ => Exit Stuck
      end
  | SCtrlCall bind name a =>
      match (match a with
             | CtrlArgsVar => f_args fr
             | CtrlParams n => paramsUpTo fr n
             end) with
      | None => Exit Stuck
      | Some args =>
          match ctrl (toggles s) with
          | None => Exit (Panicked s)
          | Some c =>
              let '(c', answer) := ctrlCall c (f_recv fr) name args in
              let s' := {| toggles := SetController (Some c') (toggles s);
                           calls := calls s ++ [(f_recv fr, name, args)] |} in
              match answer with
              | None => Exit (Panicked s')
              | Some rets =>
                  Continue {| f_recv := f_recv fr; f_params := f_params fr;
                              f_args := f_args fr;
                              f_ret := if bind then Some rets else f_ret fr;
                              f_rets := f_rets fr |} s'
              end
          end
      end
  | SAssert i ty =>
      match f_ret fr with
      | None => Exit Stuck
      | Some rets =>
          match (if (i <? 0)%Z then None else rets !! Z.to_nat i) with
          | None => Exit (Panicked s)
          | Some v =>
              Continue {| f_recv := f_recv fr; f_params := f_params fr;
                          f_args := f_args fr; f_ret := f_ret fr;
                          f_rets := <[i := coerce v ty]> (f_rets fr) |} s
          end
      end
  | SReturnRets n =>
      match mapM (fun i => f_rets fr !! i) (seqZ 0 n) with
      | None => Exit Stuck
      | Some vs => Exit (Returned vs s)
      end
  end.

Fixpoint execBody (pkgMock : string -> list val -> State -> Outcome)
    (b : list stmt) (fr : Frame) (s : State) : Flow :=
  match b with
  | [] => Continue fr s
  | st :: rest =>
      match execStmt pkgMock st fr s with
      | Continue fr' s' => execBody pkgMock rest fr' s'
      | Exit o => Exit o
      end
  end.

(** A call of the generated function [g] on the receiver [recv] with the
    parameters [ps]. *)
Definition entry (recv : val) (ps : list val) : Frame :=
  {| f_recv := recv; f_params := ps; f_args := None; f_ret := None; f_rets := ∅ |}.

Definition runFunc (pkgMock : string -> list val -> State -> Outcome)
    (g : genFunc) (recv : val) (ps : list val) (s : State) : Outcome :=
  match execBody pkgMock (gBody g) (entry recv ps) s with
  | Continue _ s' => Returned [] s'
  | Exit o => o
  end.

(** A call of the mock that [writeMock] wrote: of the method on [recv], or
    of the package-level function, which goes through the method of the
    same name on [_pkgMock]. *)
Definition callMock (fs : list genFunc) (recv : val) (ps : list val) (s : State) : Outcome :=
  match fs with
  | [d] => runFunc (fun _ _ _ => Stuck) d recv ps s
  | [w; d] =>
      runFunc (fun name vs s' =>
                 if String.eqb name (gName d)
                 then runFunc (fun _ _ _ => Stuck) d pkgMockValue vs s'
                 else Stuck) w recv ps s
  | _ => Stuck
  end.

(** *** The words of the specification about a mocked call *)

(** The receiver that the controller sees. *)
Definition receiverOf (fi : funcInfo) (recv : val) : val :=
  if IsMethod fi then recv else pkgMockValue.

(** The dispatcher of [fi] does not go to the real implementation: it has
    no real branch, or the toggle state does not select it. *)
Definition mocked (fi : funcInfo) (s : State) : Prop :=
  realDisabled fi = true \/ realSelected (toggles s) (scopedNameOf fi) = false.

(** The parameters of a call and the argument list that the controller is
    to receive for them: the parameters themselves, or, for a variadic
    function, the fixed ones followed by the elements of the last one. *)
Inductive passes (fi : funcInfo) : list val -> list val -> Prop :=
| passes_plain ps : varidic fi = false -> passes fi ps ps
| passes_elements fixed vs :
    varidic fi = true -> passes fi (fixed ++ [VSlice vs]) (fixed ++ vs)
| passes_nil fixed : varidic fi = true -> passes fi (fixed ++ [VNil]) fixed.

(** What a mocked call is to come to: the controller is called with
    [cargs], and its answer is destructured into one value per result type,
    each coerced to its type; an answer shorter than the result types is an
    index out of range. *)
Definition afterCall (fi : funcInfo) (recv : val) (cargs : list val) (c : C) (s : State)
  : Outcome :=
  let '(c', answer) := ctrlCall c recv (name fi) cargs in
  let s' := {| toggles := SetController (Some c') (toggles s);
               calls := calls s ++ [(recv, name fi, cargs)] |} in
  match answer with
  | None => Panicked s'
  | Some rets =>
      if decide (length (retTypes fi) <= length rets)%nat
      then Returned (zip_with coerce rets (retTypes fi)) s'
      else Panicked s'
  end.

Definition outcomeState (o : Outcome) : option State :=
  match o with
  | Returned _ s => Some s
  | Panicked s => Some s
  | Stuck => None
  end.

End Exec.

End Dispatch.

(** ** Sample declarations and a sample run-time *)

Module Examples.
Import GoStrings.
Export Dispatch.

(** [func Add(a, b int) int { return a + b }] *)
Definition addDecl : FuncDecl :=
  {| Doc := ""; Recv := None; Name := "Add";
     Params := [(["a"; "b"], Ident "int", None)];
     Results := Some [([], Ident "int", None)];
     Body := Some "{ return a + b }" |}.

Definition addInfo : funcInfo :=
  {| name := "Add"; export := ""; varidic := false; realDisabled := false;
     recv_name := ""; recv_expr := "";
     params := [{| names := ["a"; "b"]; expr := "int" |}];
     results := [{| names := []; expr := "int" |}];
     body := "{ return a + b }" |}.

(** [func (l *Logger) Logf(lvl int, f string, a ...interface{}) (n int, err error)] *)
Definition logfInfo : funcInfo :=
  {| name := "Logf"; export := ""; varidic := true; realDisabled := false;
     recv_name := "l"; recv_expr := "*Logger";
     params := [{| names := ["lvl"]; expr := "int" |};
                {| names := ["f"]; expr := "string" |};
                {| names := ["a"]; expr := "...interface{}" |}];
     results := [{| names := ["n"]; expr := "int" |}; {| names := ["err"]; expr := "error" |}];
     body := "{}" |}.

(** A controller that counts its calls and answers every call with
    [99, "oops"]. *)
Definition answer99 (c : nat) (recv : val) (method : string) (args : list val)
  : nat * option (list val) :=
  (S c, Some [VInt 99; VString "oops"]).

(** Assertions to [int] and [string], and the zero values. *)
Definition assertBasic (v : val) (ty : string) : option val :=
  match v with
  | VInt _ => if String.eqb ty "int" then Some v else None
  | VString _ => if String.eqb ty "string" then Some v else None
  | _ => None
  end.

Definition zeroBasic (ty : string) : val :=
  if String.eqb ty "int" then VInt 0
  else if String.eqb ty "string" then VString ""
  else VNil.

(** The real implementations: [_real_Add] adds. *)
Definition realAdd (name : string) (recv : option val) (args : list val)
    (s : State (C:=nat)) : Outcome (C:=nat) :=
  match args with
  | [VInt a; VInt b] => Returned [VInt (a + b)] s
  | _ => Panicked s
  end.

Definition unmocked : State (C:=nat) :=
  {| toggles := SetController (Some 0%nat) initialToggles; calls := [] |}.

Definition allMockedState : State (C:=nat) :=
  {| toggles := SetController (Some 0%nat) (MockAll true initialToggles); calls := [] |}.

End Examples.

(** ** [utils.IsNotExist] *)

Module Errors.
Import GoStrings.
Export Utils.

Section NotExist.

(** The verdict of [os.IsNotExist] on an error that is no [utils.Err]. *)
Variable osIsNotExist : error -> bool.

(** [func IsNotExist(err error) bool] *)
Fixpoint IsNotExist (err : error) : bool :=
  match err with
  | Err _ e => IsNotExist e
  | _ => osIsNotExist err
  end.

End NotExist.

End Errors.

(** ** Slice and channel types, as syntax *)

Module TypeLayers.
Import GoStrings.
Export Gen.

(** The type constructors that [scopeName] looks through: a slice and a
    channel around an element type. *)
Inductive layer :=
| SliceOf
| ChanOf (dir : ChanDir).

Definition wrapLayers (ls : list layer) (elem : Expr) : Expr :=
  fold_right (fun l e =>
    match l with
    | SliceOf => ArrayType None e
    | ChanOf dir => ChanType dir e
    end) elem ls.

Definition isSendOnly (l : layer) : bool :=
  match l with
  | ChanOf SEND => true
  | _ => false
  end.

End TypeLayers.

(** ** The tests of the declaration loop of [file] *)

Module FileTests.
Import GoStrings.
Export Gen.

(** The test for an [init] function: the declaration is called [init] and
    is no method. *)
Definition isPlainInit (d : FuncDecl) : bool :=
  match funcInfoOf d with
  | Some (fi, _, _) => String.eqb (name fi) "init" && negb (IsMethod fi)
  | None => false
  end.

(** The test for an external function: an exported declaration without
    body. *)
Definition isExternal (d : FuncDecl) : bool :=
  IsExported (Name d) && bool_decide (Body d = None).

(** The name that [file] gives to the [init] function numbered [n]. *)
Definition realInitName (n : Z) : string := "_real_init_" +:+ fmtd n.

End FileTests.

(** ** The statements of a generated recorder and what they do *)

Module Recorder.
Import GoStrings.
Export Dispatch.

(** The statements that [writeRecorder] writes:
    - [RArgsAppend n]: [args := append([]interface{}{p0, ..., p(n-1)}, p<n>...)];
    - [RReturnRecord name a]: [return _ctrl.RecordCall(_mr.mock, "name", a)]. *)
Inductive rstmt :=
| RArgsAppend (n : Z)
| RReturnRecord (name : string) (a : ctrlArgs).

(** A generated recorder method:
    [func (_mr *rRecorder) rName(rParams) *gomock.Call { rBody }]. *)
Record recFunc := {
  rRecorder : string;
  rName : string;
  rParams : string;
  rBody : list rstmt
}.

Definition renderRStmt (st : rstmt) : string :=
  match st with
  | RArgsAppend n =>
      tab +:+ "args := append([]interface{}{" +:+ pList n +:+ "}, p" +:+ fmtd n +:+ "...)" +:+ nl
  | RReturnRecord name a =>
      tab +:+ "return _ctrl.RecordCall(_mr.mock, " +:+ quoted name +:+ renderCtrlArgs a +:+
      ")" +:+ nl
  end.

Definition renderRecorder (r : recFunc) : string :=
  "func (_mr *" +:+ rRecorder r +:+ ") " +:+ rName r +:+ "(" +:+ rParams r +:+
  ") *gomock.Call {" +:+ nl +:+
  fold_right (fun st s => renderRStmt st +:+ s) "" (rBody r) +:+ "}" +:+ nl.

(** The parameter list of a recorder: every parameter an [interface{}],
    the last one variadic when the function is. *)
Definition recorderParams (fi : funcInfo) : string :=
  let args := countParams fi in
  if (0 <? args)%Z then
    if varidic fi then
      (if (1 <? args)%Z then pList (args - 1) +:+ " interface{}, " else "") +:+
      "p" +:+ fmtd (args - 1) +:+ " ...interface{}"
    else pList args +:+ " interface{}"
  else "".

(** The recorder method that [writeRecorder] writes for a [funcInfo] (see
    [writeRecorder_renders]). *)
Definition recorderFunc (fi : funcInfo) (recorder : string) : recFunc :=
  let args := countParams fi in
  {| rRecorder := recorder; rName := name fi; rParams := recorderParams fi;
     rBody := if varidic fi
              then [RArgsAppend (args - 1); RReturnRecord (name fi) CtrlArgsVar]
              else [RReturnRecord (name fi) (CtrlParams args)] |}.

(** One statement of a recorder, in a frame whose receiver is [_mr.mock]:
    the frame afterwards, or the end of the method with the receiver, the
    method name and the argument list handed to [RecordCall] ([None]: the
    statement cannot be run). *)
Definition execRStmt (st : rstmt) (fr : Frame) : Frame + option (val * string * list val) :=
  match st with
  | RArgsAppend n =>
      match paramsUpTo fr n, paramAt fr n with
      | Some fixed, Some (VSlice elems) =>
          inl {| f_recv := f_recv fr; f_params := f_params fr;
                 f_args := Some (fixed ++ elems); f_ret := f_ret fr; f_rets := f_rets fr |}
      | Some fixed, Some VNil =>
          inl {| f_recv := f_recv fr; f_params := f_params fr;
                 f_args := Some fixed; f_ret := f_ret fr; f_rets := f_rets fr |}
      | _, _ => inr None
      end
  | RReturnRecord name a =>
      match (match a with
             | CtrlArgsVar => f_args fr
             | CtrlParams n => paramsUpTo fr n
             end) with
      | Some args => inr (Some (f_recv fr, name, args))
      | None => inr None
      end
  end.

Fixpoint execRBody (b : list rstmt) (fr : Frame) : option (val * string * list val) :=
  match b with
  | [] => None
  | st :: rest =>
      match execRStmt st fr with
      | inl fr' => execRBody rest fr'
      | inr r => r
      end
  end.

(** A call of the recorder method on a recorder whose [mock] field holds
    [mock], with the parameters [ps]. *)
Definition recorderCall (r : recFunc) (mock : val) (ps : list val)
  : option (val * string * list val) :=
  execRBody (rBody r) (entry mock ps).

End Recorder.

(** ** Hexadecimal text *)

Module HexText.

(** A lower-case hexadecimal digit. *)
Definition isHexDigit (c : ascii) : bool :=
  existsb (Ascii.eqb c) (list_ascii_of_string "0123456789abcdef").

Fixpoint allHex (s : string) : bool :=
  match s with
  | EmptyString => true
  | String c rest => isHexDigit c && allHex rest
  end.

End HexText.

(** ** Package names ([getVendorPaths], [lookupImportName],
    [getPackageName] of [lib/mock.go]) *)

Module PkgNames.
Import GoStrings.
Export Utils.

(** [strings.HasSuffix(s, suffix)] and [s[:n]] (for [n <= len(s)]). *)
Definition HasSuffix (s suffix : string) : bool :=
  (String.length suffix <=? String.length s)%nat
  && String.eqb (sliceFrom s (String.length s - String.length suffix)) suffix.

Definition sliceTo (s : string) (n : nat) : string := String.substring 0 n s.

(** The directory part of [path.Split(p)]: [p] up to and including its
    last slash, the empty string when [p] has no slash. *)
Fixpoint splitDir (p : string) : string :=
  match p with
  | EmptyString => ""
  | String c rest =>
      match splitDir rest with
      | EmptyString => if Ascii.eqb c "/" then "/" else ""
      | d => String c d
      end
  end.

(** One turn of the loop of [getVendorPaths]: the package path one level
    up. *)
Definition parentOf (pkgName : string) : string :=
  let pkgName := splitDir pkgName in
  if HasSuffix pkgName "/" then sliceTo pkgName (String.length pkgName - 1) else pkgName.

Section Commands.

(** [path.Join] of two elements. *)
Variable pathJoin : string -> string -> string.

(** The loop of [getVendorPaths]; every turn shortens [pkgName], so that
    [S (length pkgName)] turns are enough (see [getVendorPaths_unfold]). *)
Fixpoint getVendorPaths_fuel (fuel : nat) (pkgName : string) (vendors : list string)
  : list string :=
  match fuel with
  | O => vendors ++ ["vendor"]
  | S fuel' =>
      if (0 <? String.length pkgName)%nat then
        let vendor := pathJoin pkgName "vendor" in
        let vendors := vendors ++ [vendor] in
        getVendorPaths_fuel fuel' (parentOf pkgName) vendors
      else vendors ++ ["vendor"]
  end.

Definition getVendorPaths (pkgName : string) : list string :=
  getVendorPaths_fuel (S (String.length pkgName)) pkgName [].

(** The world outside the program: [goListName w path] is
    [GetOutput("go", "list", "-f", "{{.Name}}", path)] run in the world
    [w], [Getwd] and [Chdir] are [os.Getwd] and [os.Chdir] (whose error
    the code drops). *)
Variable World : Type.
Variable goListName : World -> string -> World * (string + error).
Variable Getwd : World -> string + error.
Variable Chdir : World -> string -> World.

(** The loop of [lookupImportName] over the alternates. *)
Fixpoint lookupAlternates (w : World) (alternates : list string) : World * option string :=
  match alternates with
  | [] => (w, None)
  | alternate :: rest =>
      match goListName w alternate with
      | (w', inl name) => (w', Some name)
      | (w', inr _) => lookupAlternates w' rest
      end
  end.

Definition lookupImportName (w : World) (main : string) (alternates : list string)
  : World * (string + error) :=
  match goListName w main with
  | (w1, inl name) => (w1, inl name)
  | (w1, inr err) =>
      match lookupAlternates w1 alternates with
      | (w2, Some name) => (w2, inl name)
      | (w2, None) => (w2, inr err)
      end
  end.

(** The package variable [pkgNames], and the world. *)
Record LookupState := {
  pkgNames : gmap string string;
  world : World
}.

Definition getPackageName (impPath srcPath pkgName : string) (st : LookupState)
  : LookupState * (string + error) :=
  (* Special case for the magic "C" package *)
  if String.eqb impPath "C" then (st, inl "")
  else
    match pkgNames st !! impPath with
    | Some name => (st, inl name)
    | None =>
        let chdir := "" in
        let cache := true in
        let lookupPath := impPath in
        let '(chdir, cache) :=
          if HasPrefix impPath "./" then (srcPath, false) else (chdir, cache) in
        let '(chdir, lookupPath) :=
          if HasPrefix impPath "_/" then (sliceFrom impPath 1, ".") else (chdir, lookupPath) in
        match (if negb (String.eqb chdir "") then
                 match Getwd (world st) with
                 | inr err => inr err
                 | inl cwd => inl (Chdir (world st) chdir, Some cwd)
                 end
               else inl (world st, None)) with
        | inr err => (st, inr err)
        | inl (w, cwd) =>
            let lookupPaths :=
              if String.eqb chdir "" && negb (String.eqb pkgName "") then
                map (fun vsrc => vsrc +:+ "/" +:+ lookupPath) (getVendorPaths pkgName)
              else [] in
            let '(w, r) := lookupImportName w lookupPath lookupPaths in
            (* the deferred os.Chdir(cwd) *)
            let w := match cwd with Some d => Chdir w d | None => w end in
            match r with
            | inr err =>
                ({| pkgNames := pkgNames st; world := w |},
                 inr (errorString ("Failed to get name for '" +:+ impPath +:+ "': " +:+
                                   Error err)))
            | inl name =>
                ({| pkgNames := if cache then <[impPath := name]> (pkgNames st)
                                else pkgNames st;
                    world := w |},
                 inl name)
            end
        end
    end.

(** Every lookup of the paths, in order, fails. *)
Inductive AllFail : World -> list string -> World -> Prop :=
| all_fail_nil w : AllFail w [] w
| all_fail_cons w p w1 e rest w2 :
    goListName w p = (w1, inr e) -> AllFail w1 rest w2 -> AllFail w (p :: rest) w2.

End Commands.

Arguments lookupAlternates {World} _ _ _.
Arguments lookupImportName {World} _ _ _ _.
Arguments getPackageName _ {World} _ _ _ _ _ _ _.
Arguments AllFail {World} _ _ _ _.
Arguments LookupState : clear implicits.
Arguments pkgNames {World} _.
Arguments world {World} _.

(** The components of a package path, and the paths to its ancestors, the
    path itself first. *)
Definition isComponent (c : string) : Prop := c <> "" /\ Contains c "/" = false.

Fixpoint ancestorsRev (rcs : list string) : list (list string) :=
  match rcs with
  | [] => []
  | _ :: rest => rev rcs :: ancestorsRev rest
  end.

Definition ancestors (cs : list string) : list (list string) := ancestorsRev (rev cs).

End PkgNames.

(** ** The scopes that [exprString] registers *)

Module ScopeRegistry.

(** The field [m.scopes], a Go [map[string]bool]: [None] is the nil map.
    The three methods below read and write no other field. *)
Definition scopesField : Type := option (gmap string bool).

Definition registerScope (scope : string) (scopes : scopesField) : scopesField :=
  match scopes with
  | Some g => Some (<[scope := true]> g)
  | None => None
  end.

Definition collectScopes (scopes : scopesField) : scopesField := Some ∅.

(** [getScopes] ranges over the map: Go fixes no order for that, and the
    order of the list below is one of the possible ones. *)
Definition getScopes (scopes : scopesField) : list string * scopesField :=
  (match scopes with
   | Some g => (map_to_list g).*1
   | None => []
   end, None).

(** A run of [registerScope] calls, in order. *)
Definition registerScopes (l : list string) (scopes : scopesField) : scopesField :=
  foldl (fun s scope => registerScope scope s) scopes l.

End ScopeRegistry.

(** ** More sample declarations *)

Module MoreExamples.
Import GoStrings.
Export Examples.

(** [func init() { setup() }] *)
Definition initDecl : FuncDecl :=
  {| Doc := ""; Recv := None; Name := "init"; Params := []; Results := None;
     Body := Some "{ setup() }" |}.

(** [func Sqrt(x float64) float64], implemented in assembly. *)
Definition sqrtDecl : FuncDecl :=
  {| Doc := ""; Recv := None; Name := "Sqrt";
     Params := [(["x"], Ident "float64", None)];
     Results := Some [([], Ident "float64", None)];
     Body := None |}.

(** [func Reset() { n = 0 }] *)
Definition resetDecl : FuncDecl :=
  {| Doc := ""; Recv := None; Name := "Reset"; Params := []; Results := None;
     Body := Some "{ n = 0 }" |}.

Definition resetInfo : funcInfo :=
  {| name := "Reset"; export := ""; varidic := false; realDisabled := false;
     recv_name := ""; recv_expr := ""; params := []; results := [];
     body := "{ n = 0 }" |}.

(** The declaration of [logfInfo]. *)
Definition logfDecl : FuncDecl :=
  {| Doc := ""; Recv := Some (["l"], StarExpr (Ident "Logger")); Name := "Logf";
     Params := [(["lvl"], Ident "int", None); (["f"], Ident "string", None);
                (["a"], Ellipsis (Some (InterfaceType [])), None)];
     Results := Some [(["n"], Ident "int", None); (["err"], Ident "error", None)];
     Body := Some "{}" |}.

(** A generator at the start of a package. *)
Definition gen0 : mockGen :=
  {| mockPrototypes := false; Gen.callInits := true; types := ∅; recorders := ∅;
     extFunctions := []; initCount := 0; MOCK := "MOCK"; EXPECT := "EXPECT";
     ObjEXPECT := "EXPECT" |}.

(** A real implementation that returns a value whatever it is called on. *)
Definition realOne (name : string) (recv : option val) (args : list val)
    (s : State (C:=nat)) : Outcome (C:=nat) :=
  Returned [VInt 1] s.

(** A world in which every package is named after its path, and which
    counts the commands that ran. *)
Definition namedAfterPath (w : nat) (path : string) : nat * (string + Utils.error) :=
  (S w, inl ("name of " +:+ path)).

End MoreExamples.

(** * Properties *)

#[local] Arguments String.append !_ _ / : simpl nomatch.

(** ** Strings *)

Module StringFacts.
Import GoStrings.

Lemma append_assoc (a b c : string) : (a +:+ b) +:+ c = a +:+ (b +:+ c).
Proof. induction a as [|x a IH]; simpl; [reflexivity | now rewrite IH]. Qed.

Lemma append_empty_r (a : string) : a +:+ "" = a.
Proof. induction a as [|x a IH]; simpl; [reflexivity | now rewrite IH]. Qed.

(** Appends to the right, literals unfolded into their characters. *)
Ltac string_norm :=
  repeat (progress (cbn; rewrite ?append_assoc, ?append_empty_r)).

Lemma length_append (a b : string) :
  String.length (a +:+ b) = (String.length a + String.length b)%nat.
Proof. induction a as [|x a IH]; simpl; [reflexivity | now rewrite IH]. Qed.

Lemma sliceFrom_length (s : string) (n : nat) :
  String.length (sliceFrom s n) = (String.length s - n)%nat.
Proof.
  revert s; induction n as [|n IH]; intros [|c s]; simpl; auto with arith.
Qed.

Lemma sliceFrom_append (a b : string) : sliceFrom (a +:+ b) (String.length a) = b.
Proof. induction a as [|x a IH]; simpl; [now destruct b | exact IH]. Qed.

Lemma prefix_append (a b : string) : String.prefix a (a +:+ b) = true.
Proof.
  induction a as [|x a IH]; simpl; [now destruct b |].
  destruct (ascii_dec x x) as [_|N]; [exact IH | now elim N].
Qed.

Lemma prefix_length (p s : string) :
  String.prefix p s = true -> (String.length p <= String.length s)%nat.
Proof.
  revert s; induction p as [|x p IH]; intros [|y s]; simpl; try lia; try discriminate.
  destruct (ascii_dec x y); [|discriminate]. intros H. apply IH in H. lia.
Qed.

Lemma index_lt (sep s : string) (i : nat) :
  sep <> "" -> String.index 0 sep s = Some i -> (i < String.length s)%nat.
Proof.
  intros Hsep. revert i. induction s as [|c s IH]; intros i; cbn [String.index String.length].
  - destruct sep; [now elim Hsep | discriminate].
  - destruct (String.prefix sep (String c s)).
    + intros H. simplify_eq. lia.
    + destruct (String.index 0 sep s) as [j|]; [|discriminate].
      intros H. simplify_eq. specialize (IH j eq_refl). lia.
Qed.

End StringFacts.

(** ** Import marks *)

Module MarksProps.
Import GoStrings Marks StringFacts.

Lemma getMark_sigil (m : mark) (rest : string) :
  m = mockMark \/ m = testMark \/ m = replaceMark ->
  getMark (m +:+ rest) = Some m.
Proof. intros [-> | [-> | ->]]; reflexivity. Qed.

(** C10. For a non-empty [name]: marking with the mock, test or replace
    mark returns the sigil followed by [name] without its first character,
    a string as long as [name], from which [getMark] recovers the mark;
    marking with no mark or the normal mark returns [name] unchanged; and
    [getMark] of a label whose first character is none of the three sigils
    is the normal mark. *)
Theorem markImport_overwrites_first (name : string) (m : mark) :
  name <> "" ->
  (m = mockMark \/ m = testMark \/ m = replaceMark ->
     markImport name m = Some (m +:+ sliceFrom name 1)
     /\ String.length (m +:+ sliceFrom name 1) = String.length name
     /\ getMark (m +:+ sliceFrom name 1) = Some m)
  /\ (m = noMark \/ m = normalMark -> markImport name m = Some name)
  /\ (forall c rest, name = String c rest ->
        c <> "_"%char -> c <> "@"%char -> c <> "="%char ->
        getMark name = Some normalMark).
Proof.
  intros Hne. destruct name as [|c0 rest0]; [now elim Hne | clear Hne].
  split; [|split].
  - intros Hm. split; [|split].
    + destruct Hm as [-> | [-> | ->]]; reflexivity.
    + destruct Hm as [-> | [-> | ->]]; reflexivity.
    + now apply getMark_sigil.
  - intros [-> | ->]; reflexivity.
  - intros c rest [= <- <-] H1 H2 H3. simpl.
    apply Ascii.eqb_neq in H1, H2, H3. now rewrite H1, H2, H3.
Qed.

Lemma markImport_overwrites_first_witness :
  "code/lib"%string <> ""%string
  /\ markImport "code/lib" testMark = Some "@ode/lib"%string.
Proof.
  split; [discriminate |].
  destruct (markImport_overwrites_first "code/lib" testMark) as [H _]; [discriminate |].
  destruct H as [H _]; [right; left; reflexivity | exact H].
Defined.

End MarksProps.

(** ** The scope rewriter *)

Module ScopeProps.
Import GoStrings Scope StringFacts.

Lemma isChannel_sub_shorter (name channel sub : string) :
  isChannel name = (channel, sub) -> channel <> "" ->
  (String.length sub < String.length name)%nat.
Proof.
  unfold isChannel, Contains, SplitN2.
  destruct (String.index 0 " " name) as [i|] eqn:Hi; simpl;
    [|intros H; now simplify_eq].
  match goal with |- context [if ?b then _ else _] => destruct b end;
    [|intros H; now simplify_eq].
  intros H _. simplify_eq. rewrite sliceFrom_length.
  apply index_lt in Hi; [simpl; lia | discriminate].
Qed.

Lemma slice_shorter (name : string) :
  HasPrefix name "[]" = true -> (String.length (sliceFrom name 2) < String.length name)%nat.
Proof.
  intros H. apply prefix_length in H. rewrite sliceFrom_length. simpl in H. lia.
Qed.

Lemma scopeName_fuel_irrelevant (scope : string) (f1 : nat) :
  forall (f2 : nat) (name : string),
    (String.length name < f1)%nat -> (String.length name < f2)%nat ->
    scopeName_fuel f1 name scope = scopeName_fuel f2 name scope.
Proof.
  induction f1 as [|f1 IH]; intros f2 name H1 H2; [lia |].
  destruct f2 as [|f2]; [lia |]. cbn [scopeName_fuel].
  destruct (HasPrefix name "[]") eqn:Hp.
  - f_equal. pose proof (slice_shorter name Hp). apply IH; lia.
  - destruct (isChannel name) as [channel sub] eqn:Hc.
    destruct (String.eqb channel "") eqn:He; cbn [negb]; [reflexivity |].
    apply String.eqb_neq in He.
    pose proof (isChannel_sub_shorter _ _ _ Hc He).
    do 2 f_equal. apply IH; lia.
Qed.

(** [scopeName] satisfies the equation of the source. *)
Lemma scopeName_unfold (name scope : string) :
  scopeName name scope =
    if HasPrefix name "[]" then "[]" +:+ scopeName (sliceFrom name 2) scope
    else
      let '(channel, sub) := isChannel name in
      if negb (String.eqb channel "") then channel +:+ " " +:+ scopeName sub scope
      else if isLocalExpr name then scope +:+ "." +:+ name
      else name.
Proof.
  unfold scopeName at 1. cbn [scopeName_fuel].
  destruct (HasPrefix name "[]") eqn:Hp.
  - f_equal. pose proof (slice_shorter name Hp).
    apply scopeName_fuel_irrelevant; lia.
  - destruct (isChannel name) as [channel sub] eqn:Hc.
    destruct (String.eqb channel "") eqn:He; cbn [negb]; [reflexivity |].
    apply String.eqb_neq in He.
    pose proof (isChannel_sub_shorter _ _ _ Hc He).
    do 2 f_equal. apply scopeName_fuel_irrelevant; lia.
Qed.

(** Rule (1): a slice prefix. *)
Lemma scopeName_slice (x scope : string) :
  scopeName ("[]" +:+ x) scope = "[]" +:+ scopeName x scope.
Proof.
  rewrite scopeName_unfold. unfold HasPrefix. rewrite prefix_append.
  f_equal.
Qed.

(** Rule (2) for the two directions that [isChannel] knows. *)
Lemma scopeName_chan (x scope : string) :
  scopeName (chanTypeString SEND_RECV x) scope = "chan " +:+ scopeName x scope.
Proof. rewrite scopeName_unfold. destruct x; reflexivity. Qed.

Lemma scopeName_recv_chan (x scope : string) :
  scopeName (chanTypeString RECV x) scope = "<-chan " +:+ scopeName x scope.
Proof. rewrite scopeName_unfold. destruct x; reflexivity. Qed.

(** Rules (3) and (4): neither a slice nor a channel that [isChannel]
    knows. *)
Lemma scopeName_plain (name scope : string) :
  HasPrefix name "[]" = false -> (isChannel name).1 = "" ->
  scopeName name scope = if isLocalExpr name then scope +:+ "." +:+ name else name.
Proof.
  intros Hp Hc. rewrite scopeName_unfold, Hp.
  destruct (isChannel name) as [channel sub]. cbn [fst] in Hc. now rewrite Hc.
Qed.

Lemma Contains_skip (c : ascii) (s : string) :
  c <> "."%char -> Contains (String c s) "." = Contains s ".".
Proof.
  intros Hc. unfold Contains. cbn [String.index String.prefix].
  destruct (ascii_dec "." c) as [<- | _]; [now elim Hc |].
  now destruct (String.index 0 "." s).
Qed.

(** Whatever the element type, a send-only channel is not taken apart: its
    text is prefixed as a whole, or left alone when the element type holds
    a dot. *)
Lemma scopeName_send_chan (x scope : string) :
  scopeName (chanTypeString SEND x) scope =
    if Contains x "." then chanTypeString SEND x
    else scope +:+ "." +:+ chanTypeString SEND x.
Proof.
  rewrite scopeName_plain.
  - unfold isLocalExpr, chanTypeString. cbn [String.append].
    cbn [existsb String.eqb Ascii.eqb Bool.eqb orb andb HasPrefix String.prefix].
    rewrite !Contains_skip by discriminate.
    now destruct (Contains x ".").
  - reflexivity.
  - destruct x; reflexivity.
Qed.

(** An already qualified name passes through. *)
Example scopeName_qualified : scopeName "pkg.Foo" "pkg" = "pkg.Foo".
Proof. reflexivity. Qed.

Example scopeName_nested : scopeName "[]chan Foo" "pkg" = "[]chan pkg.Foo".
Proof. reflexivity. Qed.

(** C2. On the text of a send-only channel type, as [exprString] writes
    it, [scopeName] does not rewrite the element type: [isChannel] looks
    for the prefix [chan->], the text is taken for a local identifier, and
    the whole of it is prefixed. *)
Theorem scopeName_send_only_not_rewritten :
  chanTypeString SEND "Foo" = "chan<- Foo"
  /\ isChannel "chan<- Foo" = ("", "")
  /\ scopeName (chanTypeString SEND "Foo") "pkg" = "pkg.chan<- Foo"
  /\ scopeName (chanTypeString SEND "Foo") "pkg" <> "chan<- " +:+ scopeName "Foo" "pkg".
Proof.
  split; [reflexivity |].
  split; [reflexivity |].
  split; [reflexivity |].
  vm_compute. discriminate.
Qed.

End ScopeProps.

(** ** Cache keys *)

Module CacheProps.
Import GoStrings Utils Cache StringFacts.

Lemma EncodeToString_empty (src : string) : EncodeToString src = "" -> src = "".
Proof. destruct src as [|c rest]; [reflexivity | discriminate]. Qed.

Section KeyProps.
Variable jsonString : string -> string.
Variable cacheHashSum : string -> string.

#[local] Abbreviation Hash := (Hash jsonString cacheHashSum).
#[local] Abbreviation calcHash := (calcHash jsonString cacheHashSum).
#[local] Abbreviation jsonEncode := (jsonEncode jsonString).
#[local] Abbreviation keyOK := (keyOK jsonString cacheHashSum).
#[local] Abbreviation digestOf k := (EncodeToString (cacheHashSum (jsonEncode k))).

(** The encoding reads the exported fields only. *)
Lemma jsonEncode_fields (k k' : CacheFileKey) :
  Self k = Self k' -> Op k = Op k' -> Files k = Files k' ->
  jsonEncode k = jsonEncode k'.
Proof. unfold Cache.jsonEncode. now intros -> -> ->. Qed.

(** Whatever the memo holds, [Hash] returns the digest of the fields. *)
Lemma Hash_value (k : CacheFileKey) (t : trace) :
  keyOK k -> (Hash k t).1.1 = digestOf k.
Proof.
  intros Hk. unfold Cache.Hash.
  destruct (String.eqb (hash k) "") eqn:He; simpl; [reflexivity |].
  apply String.eqb_neq in He. now destruct Hk.
Qed.

Lemma Hash_keeps_fields (k : CacheFileKey) (t : trace) :
  let k1 := (Hash k t).1.2 in
  Self k1 = Self k /\ Op k1 = Op k /\ Files k1 = Files k.
Proof.
  unfold Cache.Hash. destruct (String.eqb (hash k) ""); simpl; auto.
Qed.

Lemma Hash_keyOK (k : CacheFileKey) (t : trace) : keyOK k -> keyOK (Hash k t).1.2.
Proof.
  intros Hk. unfold Cache.Hash.
  destruct (String.eqb (hash k) "") eqn:He; simpl; [|exact Hk].
  right. reflexivity.
Qed.

Lemma Hash_fresh (k : CacheFileKey) (t : trace) :
  hash k = "" ->
  Hash k t =
    (digestOf k,
     {| Self := Self k; Op := Op k; Files := Files k; hash := digestOf k |},
     t ++ [jsonEncode k]).
Proof. intros He. unfold Cache.Hash. now rewrite He. Qed.

Lemma Hash_memo (k : CacheFileKey) (t : trace) :
  hash k <> "" -> Hash k t = (hash k, k, t).
Proof.
  intros He. unfold Cache.Hash. apply String.eqb_neq in He. now rewrite He.
Qed.

(** The hash has a positive size: [Sum] never returns the empty string. *)
Hypothesis sum_nonempty : forall data, cacheHashSum data <> "".

(** C3. [Hash] is memoized and a function of the fields: a second call on
    the same key returns the same string, leaves the key alone and computes
    no digest ([t] is the trace of the digests computed); on a fresh key
    the first call computes exactly one digest; and two keys with the same
    scope identifier, operation and fingerprints have the same hash,
    whenever and in whatever order [Hash] is called on them. *)
Theorem Hash_memoized (k : CacheFileKey) (t : trace) :
  keyOK k ->
  let r1 := Hash k t in
  let r2 := Hash r1.1.2 r1.2 in
  (r2.1.1 = r1.1.1 /\ r2.1.2 = r1.1.2 /\ r2.2 = r1.2)
  /\ (hash k = "" -> r1.2 = t ++ [jsonEncode k])
  /\ (hash k <> "" -> r1.2 = t)
  /\ (forall k' t', keyOK k' ->
        Self k' = Self k -> Op k' = Op k -> Files k' = Files k ->
        (Hash k' t').1.1 = r1.1.1).
Proof.
  intros Hk r1 r2. subst r1 r2.
  destruct (String.eqb_spec (hash k) "") as [He | He].
  - rewrite (Hash_fresh k t He). cbn [fst snd].
    assert (Hd : digestOf k <> "").
    { intros Hd. apply EncodeToString_empty in Hd. now apply sum_nonempty in Hd. }
    rewrite Hash_memo by exact Hd. cbn [fst snd hash].
    repeat split; try tauto.
    intros k' t' Hk' HS HO HF. rewrite Hash_value by assumption.
    now rewrite (jsonEncode_fields k' k).
  - rewrite (Hash_memo k t He). cbn [fst snd].
    rewrite (Hash_memo k t He). cbn [fst snd].
    repeat split; try tauto.
    intros k' t' Hk' HS HO HF. rewrite Hash_value by assumption.
    destruct Hk as [Hk | Hk]; [tauto |].
    now rewrite Hk, (jsonEncode_fields k' k).
Qed.

End KeyProps.

Lemma Hash_memoized_witness :
  let k := {| Self := "cache"; Op := "mock"; Files := Some ["f1"; "f2"]; hash := "" |} in
  let sum := fun _ : string => "k"%string in
  keyOK id sum k
  /\ (Hash id sum (Hash id sum k []).1.2 (Hash id sum k []).2).2 = (Hash id sum k []).2.
Proof.
  intros k sum.
  assert (Hk : keyOK id sum k) by (left; reflexivity).
  split; [exact Hk |].
  pose proof (Hash_memoized id sum (fun _ => ltac:(discriminate)) k [] Hk) as H.
  cbv zeta in H. exact (proj2 (proj2 (proj1 H))).
Defined.

Section NewKeyProps.
Context {CacheT : Type}.
Variable self : CacheT -> string.
Variable lookupDetails : CacheT -> string -> CacheT * (string * option error).

#[local] Abbreviation lookupLoop := (lookupLoop lookupDetails).
#[local] Abbreviation NewCacheFileKey := (NewCacheFileKey self lookupDetails).
#[local] Abbreviation ResolvesAll := (ResolvesAll lookupDetails).
#[local] Abbreviation FailsAt := (FailsAt lookupDetails).

(** The loop fills [files] from index [i] on, in the order of [srcs]. *)
Lemma lookupLoop_resolves (srcs : list string) :
  forall c c' fps pre post,
    ResolvesAll c srcs c' fps ->
    length post = length srcs ->
    lookupLoop c (length pre) srcs (pre ++ post) = (c', inl (pre ++ fps)).
Proof.
  induction srcs as [|src rest IH]; intros c c' fps pre post Hr Hlen.
  - inversion Hr; subst. destruct post; [reflexivity | discriminate].
  - inversion Hr as [|? ? c1 d ? ? ds Hl Hrest]; subst.
    destruct post as [|p post]; [discriminate |].
    cbn [Cache.lookupLoop]. rewrite Hl.
    replace (<[length pre := d]> (pre ++ p :: post)) with ((pre ++ [d]) ++ post).
    + replace (S (length pre)) with (length (pre ++ [d])) by (rewrite length_app; simpl; lia).
      rewrite (IH c1 c' ds (pre ++ [d]) post Hrest) by (simpl in Hlen; lia).
      now rewrite <- app_assoc.
    + rewrite <- app_assoc. simpl.
      rewrite insert_app_r_alt by lia.
      now replace (length pre - length pre)%nat with 0%nat by lia.
Qed.

Lemma lookupLoop_fails (srcs : list string) :
  forall c c' src e i files,
    FailsAt c srcs c' src e ->
    lookupLoop c i srcs files = (c', inr (Err ("c.getDetails(" +:+ src +:+ ")") e)).
Proof.
  induction srcs as [|s rest IH]; intros c c' src e i files Hf;
    inversion Hf as [? ? c1 d ? ? Hl | ? ? c1 d ? ? ? ? Hl Hrest]; subst;
    cbn [Cache.lookupLoop]; rewrite Hl; [reflexivity | now apply IH].
Qed.

Lemma ResolvesAll_length (srcs : list string) c c' fps :
  ResolvesAll c srcs c' fps -> length fps = length srcs.
Proof. induction 1; simpl; congruence. Qed.

Lemma FailsAt_elem (srcs : list string) c c' src e :
  FailsAt c srcs c' src e -> src ∈ srcs.
Proof. induction 1; [apply list_elem_of_here | now apply list_elem_of_further]. Qed.

(** Every list of inputs resolves as a whole or has a first failure. *)
Lemma resolves_or_fails (srcs : list string) (c : CacheT) :
  (exists c' fps, ResolvesAll c srcs c' fps) \/ (exists c' src e, FailsAt c srcs c' src e).
Proof.
  revert c. induction srcs as [|src rest IH]; intros c.
  - left. exists c, []. constructor.
  - destruct (lookupDetails c src) as [c1 [d [e|]]] eqn:Hl.
    + right. exists c1, src, e. econstructor. exact Hl.
    + destruct (IH c1) as [(c' & fps & H) | (c' & src' & e & H)].
      * left. exists c', (d :: fps). econstructor; eassumption.
      * right. exists c', src', e. eapply Cache.fails_later; eassumption.
Qed.

(** C9. [NewCacheFileKey] resolves the inputs in order. When every input
    resolves, it returns a key with the scope identifier, the operation and
    the fingerprints in the order of the inputs, and no error. When an
    input fails, it returns no key and an [Err] that carries the failing
    input's context and the lookup's error. One of the two always holds. *)
Theorem NewCacheFileKey_all_or_nothing (c : CacheT) (op : string) (srcs : list string) :
  (forall c' fps, ResolvesAll c srcs c' fps ->
     NewCacheFileKey c op srcs =
       (c', (Some {| Self := self c'; Op := op; Files := Some fps; hash := "" |}, None))
     /\ length fps = length srcs)
  /\ (forall c' src e, FailsAt c srcs c' src e ->
        NewCacheFileKey c op srcs =
          (c', (None, Some (Err ("c.getDetails(" +:+ src +:+ ")") e)))
        /\ Error (Err ("c.getDetails(" +:+ src +:+ ")") e) = Error e
        /\ src ∈ srcs)
  /\ ((exists c' fps, ResolvesAll c srcs c' fps)
      \/ (exists c' src e, FailsAt c srcs c' src e)).
Proof.
  split; [|split].
  - intros c' fps Hr. split; [|now apply ResolvesAll_length in Hr].
    unfold Cache.NewCacheFileKey.
    pose proof (lookupLoop_resolves srcs c c' fps [] (replicate (length srcs) "") Hr) as H.
    rewrite length_replicate in H. simpl in H. now rewrite H.
  - intros c' src e Hf. split; [|split].
    + unfold Cache.NewCacheFileKey. now rewrite (lookupLoop_fails srcs c c' src e).
    + reflexivity.
    + now apply FailsAt_elem in Hf.
  - apply resolves_or_fails.
Qed.

End NewKeyProps.

(** A failed lookup in the middle: the key is dropped, the context names
    the input, and the later input is not looked up. *)
Example NewCacheFileKey_fails_in_the_middle :
  let lookup := fun (c : nat) (src : string) =>
    (S c, if String.eqb src "b" then ("", Some (errorString "no such file"))
          else ("fp-" +:+ src, None)) in
  NewCacheFileKey (fun _ => "self") lookup 0%nat "op" ["a"; "b"; "c"]
  = (2%nat, (None, Some (Err "c.getDetails(b)" (errorString "no such file")))).
Proof. reflexivity. Qed.

Example NewCacheFileKey_in_order :
  let lookup := fun (c : nat) (src : string) => (S c, ("fp-" +:+ src, @None error)) in
  NewCacheFileKey (fun _ => "self") lookup 0%nat "op" ["a"; "b"]
  = (2%nat, (Some {| Self := "self"; Op := "op"; Files := Some ["fp-a"; "fp-b"]; hash := "" |},
             None)).
Proof. reflexivity. Qed.

End CacheProps.

(** ** The toggle state *)

Module ToggleProps.
Import GoStrings Generated.

Section Props.
Context {C : Type}.
Implicit Types t : ToggleState C.

Lemma mapGet_set (g : gmap string bool) (k k' : string) :
  mapGet (Some (<[k := true]> g)) k' = if decide (k = k') then true else mapGet (Some g) k'.
Proof. unfold mapGet. rewrite lookup_insert. now case_decide. Qed.

Lemma mapGet_delete (g : gmap string bool) (k k' : string) :
  mapGet (Some (delete k g)) k' = if decide (k = k') then false else mapGet (Some g) k'.
Proof. unfold mapGet. rewrite lookup_delete. now case_decide. Qed.

(** One name at a time, [EnableMock] moves the name into the enabled set. *)
Lemma EnableMock_spec (names : list string) :
  forall t, mapsMade t -> setsDisjoint t ->
    exists t', EnableMock names t = Done t'
      /\ mapsMade t' /\ setsDisjoint t'
      /\ allMocked t' = allMocked t /\ ctrl t' = ctrl t
      /\ (forall n, n ∈ names ->
            mapGet (enabledMocks t') n = true /\ mapGet (disabledMocks t') n = false)
      /\ (forall n, n ∉ names ->
            mapGet (enabledMocks t') n = mapGet (enabledMocks t) n
            /\ mapGet (disabledMocks t') n = mapGet (disabledMocks t) n).
Proof.
  induction names as [|name rest IH]; intros t Hm Hd.
  - exists t. do 5 (split; [tauto |]).
    split; [intros n Hn; now apply not_elem_of_nil in Hn | tauto].
  - destruct t as [am [e|] [d|] c]; try (destruct Hm as [[? ?] [? ?]]; discriminate).
    cbn [EnableMock mapSet mapDelete enabledMocks disabledMocks allMocked ctrl].
    set (t1 := {| allMocked := am; enabledMocks := Some (<[name := true]> e);
                  disabledMocks := Some (delete name d); ctrl := c |}).
    assert (Hm1 : mapsMade t1) by (split; eexists; reflexivity).
    assert (Hd1 : setsDisjoint t1).
    { intros n [H1 H2]. unfold t1 in H1, H2.
      cbn [enabledMocks disabledMocks] in H1, H2.
      rewrite mapGet_set in H1. rewrite mapGet_delete in H2.
      case_decide; [discriminate |]. apply (Hd n). now split. }
    destruct (IH t1 Hm1 Hd1) as (t' & Hrun & Hm' & Hd' & Ham & Hc & Hin & Hout).
    exists t'. do 5 (split; [assumption |]). split.
    + intros n Hn.
      destruct (decide (n ∈ rest)) as [Hr | Hr]; [now apply Hin |].
      apply elem_of_cons in Hn as [-> | Hn]; [|tauto].
      destruct (Hout name Hr) as [-> ->]. unfold t1. cbn [enabledMocks disabledMocks].
      rewrite mapGet_set, mapGet_delete. now rewrite !decide_True.
    + intros n Hn. apply not_elem_of_cons in Hn as [Hne Hr].
      destruct (Hout n Hr) as [-> ->]. unfold t1. cbn [enabledMocks disabledMocks].
      rewrite mapGet_set, mapGet_delete. now rewrite !decide_False by congruence.
Qed.

Lemma DisableMock_spec (names : list string) :
  forall t, mapsMade t -> setsDisjoint t ->
    exists t', DisableMock names t = Done t'
      /\ mapsMade t' /\ setsDisjoint t'
      /\ allMocked t' = allMocked t /\ ctrl t' = ctrl t
      /\ (forall n, n ∈ names ->
            mapGet (disabledMocks t') n = true /\ mapGet (enabledMocks t') n = false)
      /\ (forall n, n ∉ names ->
            mapGet (enabledMocks t') n = mapGet (enabledMocks t) n
            /\ mapGet (disabledMocks t') n = mapGet (disabledMocks t) n).
Proof.
  induction names as [|name rest IH]; intros t Hm Hd.
  - exists t. do 5 (split; [tauto |]).
    split; [intros n Hn; now apply not_elem_of_nil in Hn | tauto].
  - destruct t as [am [e|] [d|] c]; try (destruct Hm as [[? ?] [? ?]]; discriminate).
    cbn [DisableMock mapSet mapDelete enabledMocks disabledMocks allMocked ctrl].
    set (t1 := {| allMocked := am; enabledMocks := Some (delete name e);
                  disabledMocks := Some (<[name := true]> d); ctrl := c |}).
    assert (Hm1 : mapsMade t1) by (split; eexists; reflexivity).
    assert (Hd1 : setsDisjoint t1).
    { intros n [H1 H2]. unfold t1 in H1, H2.
      cbn [enabledMocks disabledMocks] in H1, H2.
      rewrite mapGet_delete in H1. rewrite mapGet_set in H2.
      case_decide; [discriminate |]. apply (Hd n). now split. }
    destruct (IH t1 Hm1 Hd1) as (t' & Hrun & Hm' & Hd' & Ham & Hc & Hin & Hout).
    exists t'. do 5 (split; [assumption |]). split.
    + intros n Hn.
      destruct (decide (n ∈ rest)) as [Hr | Hr]; [now apply Hin |].
      apply elem_of_cons in Hn as [-> | Hn]; [|tauto].
      destruct (Hout name Hr) as [-> ->]. unfold t1. cbn [enabledMocks disabledMocks].
      rewrite mapGet_set, mapGet_delete. now rewrite !decide_True.
    + intros n Hn. apply not_elem_of_cons in Hn as [Hne Hr].
      destruct (Hout n Hr) as [-> ->]. unfold t1. cbn [enabledMocks disabledMocks].
      rewrite mapGet_set, mapGet_delete. now rewrite !decide_False by congruence.
Qed.

Lemma MockAll_spec (enabled : bool) t :
  mapsMade (MockAll enabled t) /\ setsDisjoint (MockAll enabled t)
  /\ forall n, mapGet (enabledMocks (MockAll enabled t)) n = false
               /\ mapGet (disabledMocks (MockAll enabled t)) n = false.
Proof.
  split; [split; eexists; reflexivity |].
  split; [intros n [H _]; discriminate | intros n; split; reflexivity].
Qed.

(** Every sequence of calls runs to its end from a state with both maps
    made and the sets disjoint, and ends in such a state. *)
Lemma toggleCalls_invariant (cs : list toggleCall) :
  forall t, mapsMade t -> setsDisjoint t ->
    exists t', toggleCalls cs t = Done t' /\ mapsMade t' /\ setsDisjoint t'.
Proof.
  induction cs as [|c rest IH]; intros t Hm Hd; [now exists t |].
  cbn [toggleCalls]. destruct c as [enabled | names | names]; cbn [toggleStep].
  - destruct (MockAll_spec enabled t) as (Hm' & Hd' & _). now apply IH.
  - destruct (EnableMock_spec names t Hm Hd) as (t1 & -> & Hm' & Hd' & _). now apply IH.
  - destruct (DisableMock_spec names t Hm Hd) as (t1 & -> & Hm' & Hd' & _). now apply IH.
Qed.

(** C4. From the reset state, every sequence of [MockAll], [EnableMock]
    and [DisableMock] calls runs to its end in a state whose enabled and
    disabled sets are disjoint; there, [EnableMock(name)] puts [name] in
    the enabled set and takes it out of the disabled set, [DisableMock(name)]
    does the converse, and [MockAll] empties both sets. *)
Theorem toggle_sets_stay_disjoint (cs : list toggleCall) :
  exists t, toggleCalls cs (initialToggles (C:=C)) = Done t
    /\ setsDisjoint t
    /\ (forall name, exists t',
          EnableMock [name] t = Done t' /\ setsDisjoint t'
          /\ mapGet (enabledMocks t') name = true
          /\ mapGet (disabledMocks t') name = false)
    /\ (forall name, exists t',
          DisableMock [name] t = Done t' /\ setsDisjoint t'
          /\ mapGet (disabledMocks t') name = true
          /\ mapGet (enabledMocks t') name = false)
    /\ (forall enabled name,
          mapGet (enabledMocks (MockAll enabled t)) name = false
          /\ mapGet (disabledMocks (MockAll enabled t)) name = false).
Proof.
  destruct (toggleCalls_invariant cs initialToggles) as (t & Hrun & Hm & Hd).
  { split; eexists; reflexivity. }
  { intros n [H _]. discriminate. }
  exists t. split; [exact Hrun |]. split; [exact Hd |]. split; [|split].
  - intros name.
    destruct (EnableMock_spec [name] t Hm Hd) as (t' & Hr & _ & Hd' & _ & _ & Hin & _).
    exists t'. destruct (Hin name) as [H1 H2]; [apply list_elem_of_here |]. auto.
  - intros name.
    destruct (DisableMock_spec [name] t Hm Hd) as (t' & Hr & _ & Hd' & _ & _ & Hin & _).
    exists t'. destruct (Hin name) as [H1 H2]; [apply list_elem_of_here |]. auto.
  - intros enabled name. now destruct (MockAll_spec enabled t) as (_ & _ & H).
Qed.

End Props.

End ToggleProps.

(** ** The initializer bracket *)

Module InitProps.
Import GoStrings Generated.

Section Props.
Context {C : Type}.
Implicit Types t : ToggleState C.

Lemma runInits_frame (inits : list (ToggleState C -> run (ToggleState C))) :
  (forall f, f ∈ inits -> keepsFrame f) ->
  forall t, disabledMocks (stateOf (runInits inits t)) = disabledMocks t
            /\ ctrl (stateOf (runInits inits t)) = ctrl t.
Proof.
  induction inits as [|f rest IH]; intros Hk t; [now split |].
  cbn [runInits].
  destruct (Hk f (list_elem_of_here f rest) t) as [Hd Hc].
  destruct (f t) as [t' | t'] eqn:Hf; cbn [stateOf] in *.
  - destruct (IH (fun g Hg => Hk g (list_elem_of_further g f rest Hg)) t') as [Hd' Hc'].
    split; congruence.
  - now split.
Qed.

(** With mocking suspended every dispatcher takes the real branch, unless
    the name is in the disabled set, where it takes it as well. *)
Lemma suspended_selects_real t (name : string) :
  realSelected (suspended t) name = true.
Proof. unfold realSelected, suspended. reflexivity. Qed.

(** C6, as the code has it. [callInits] starts the inits with all-mocked
    false and the enabled set nil, so that every dispatcher goes to the
    real implementation. When all inits return, it puts back the flag and
    the enabled set it saved, and keeps the disabled set and the controller
    as the inits left them. When an init panics, the panic leaves
    [callInits] at once: nothing is put back. The bracket itself never
    writes the disabled set or the controller: they are unchanged if no
    init writes them. *)
Theorem callInits_restores_on_return
    (inits : list (ToggleState C -> run (ToggleState C))) t :
  (forall name, realSelected (suspended t) name = true)
  /\ (forall t2, runInits inits (suspended t) = Done t2 ->
        callInits inits t =
          Done {| allMocked := allMocked t; enabledMocks := enabledMocks t;
                  disabledMocks := disabledMocks t2; ctrl := ctrl t2 |})
  /\ (forall t2, runInits inits (suspended t) = Panic t2 ->
        callInits inits t = Panic t2)
  /\ ((forall f, f ∈ inits -> keepsFrame f) ->
        disabledMocks (stateOf (callInits inits t)) = disabledMocks t
        /\ ctrl (stateOf (callInits inits t)) = ctrl t).
Proof.
  split; [apply suspended_selects_real |].
  split; [|split].
  - intros t2 H. unfold callInits. fold (suspended t). now rewrite H.
  - intros t2 H. unfold callInits. fold (suspended t). now rewrite H.
  - intros Hk. destruct (runInits_frame inits Hk (suspended t)) as [Hd Hc].
    unfold callInits. fold (suspended t).
    destruct (runInits inits (suspended t)); cbn [stateOf] in *; now split.
Qed.

End Props.

(** An init that panics, with everything mocked before the bracket: the
    panic leaves the flag false and the enabled set nil, not as they were
    saved. *)
Lemma callInits_panic_not_restored :
  let t : ToggleState unit := MockAll true initialToggles in
  let boom : ToggleState unit -> run (ToggleState unit) := fun t' => Panic t' in
  callInits [boom] t = Panic (suspended t)
  /\ allMocked t = true
  /\ allMocked (stateOf (callInits [boom] t)) = false
  /\ enabledMocks t = makeMap
  /\ enabledMocks (stateOf (callInits [boom] t)) = None.
Proof.
  cbv zeta. repeat split.
Qed.

(** Inside the bracket the enabled set is nil: an init that calls
    [EnableMock] writes to a nil map and panics. *)
Example EnableMock_while_suspended_panics :
  let t : ToggleState unit := suspended initialToggles in
  EnableMock ["Add"] t = Panic t.
Proof. reflexivity. Qed.

(** An init that turns mocking on: the bracket puts back what it saved. *)
Example callInits_overrides_inits :
  let t : ToggleState unit := initialToggles in
  callInits [fun t' => Done (MockAll true t')] t = Done t.
Proof. reflexivity. Qed.

End InitProps.

(** ** The recorders and constructors of the scaffold *)

Module ScaffoldProps.
Import GoStrings Scaffold StringFacts.

(** The text that [pkg] writes for an entry is the text of its items. *)
Lemma pkgRecorder_items (m : mockGen) (base rec : string) :
  text <$> pkgRecorder m base rec = renderItems <$> recorderItems m base rec.
Proof.
  unfold pkgRecorder, recorderItems. destruct base as [|c0 rest]; [reflexivity |].
  destruct (Ascii.eqb c0 "*" && bool_decide (is_Some (recorders m !! rest)));
    [reflexivity |].
  destruct (Ascii.eqb c0 "*");
    match goal with |- context [isInterfaceType ?x] => destruct (isInterfaceType x) end;
    match goal with |- context [IsExported ?x] => destruct (IsExported x) end;
    string_norm; reflexivity.
Qed.

(** Both receiver forms of a base type are registered under the recorder
    named after the base type. *)
Lemma recorderName_shared (T : string) :
  recorderName (Ident T) = Some ("_" +:+ T +:+ "_Rec")
  /\ recorderName (StarExpr (Ident T)) = Some ("_" +:+ T +:+ "_Rec")
  /\ exprString (StarExpr (Ident T)) = Some ("*" +:+ T).
Proof. repeat split. Qed.

Lemma count_app (P : item -> bool) (l1 l2 : list item) :
  count P (l1 ++ l2) = (count P l1 + count P l2)%nat.
Proof. unfold count. now rewrite filter_app, length_app. Qed.

Section Counting.
Variable m : mockGen.
Variable T : string.
Hypothesis T_base : HasPrefix T "*" = false.

#[local] Abbreviation constructed := (Scaffold.constructed m T).

Lemma base_not_star (rest : string) : String "*" rest <> T.
Proof.
  intros H. pose proof T_base as Tb. rewrite <- H in Tb.
  change (HasPrefix ("*" +:+ rest) "*" = false) in Tb.
  unfold HasPrefix in Tb. now rewrite (prefix_append "*" rest) in Tb.
Qed.

Lemma star_not_base : "*" +:+ T <> T.
Proof. apply base_not_star. Qed.

(** What an entry of the registry contributes, by its key. *)
Definition weightC (b : string) : nat :=
  if decide (b = T) then (if constructed then 1 else 0)
  else if decide (b = "*" +:+ T)
       then (if bool_decide (is_Some (recorders m !! T)) then 0
             else if constructed then 1 else 0)
       else 0.

Definition weightA (b : string) : nat :=
  if decide (b = T) then 1
  else if decide (b = "*" +:+ T)
       then (if bool_decide (is_Some (recorders m !! T)) then 0 else 1)
       else 0.

Lemma count_cons (P : item -> bool) (it : item) (l : list item) :
  count P (it :: l) = ((if P it then 1 else 0) + count P l)%nat.
Proof. unfold count. rewrite filter_cons. now destruct (P it). Qed.

Lemma recorderItems_weights (b rec : string) :
  b <> "" ->
  exists l, recorderItems m b rec = Some l
    /\ count (isConstructorFor T) l = weightC b
    /\ count (isAccessorOn T) l = weightA b
    /\ count (isRecorderStructOn T) l = weightA b.
Proof.
  intros Hb. destruct b as [|c0 rest]; [now elim Hb | clear Hb].
  unfold recorderItems, weightC, weightA.
  pose proof star_not_base as Hsb.
  destruct (decide (String c0 rest = T)) as [HT | HT];
    destruct (decide (String c0 rest = "*" +:+ T)) as [HS | HS].
  - congruence.
  - (* the value receiver of [T] *)
    assert (Hc : Ascii.eqb c0 "*" = false).
    { apply Ascii.eqb_neq. intros ->. now apply (base_not_star rest). }
    rewrite Hc. cbn [andb]. rewrite HT. fold constructed.
    destruct constructed; cbn [andb negb]; (eexists; split; [reflexivity |]);
      cbn [app]; rewrite !count_cons; cbn;
      rewrite ?bool_decide_true by reflexivity; repeat split.
  - (* the pointer receiver of [T] *)
    assert (c0 = "*"%char /\ rest = T) as [-> ->] by (now inversion HS).
    rewrite Ascii.eqb_refl. cbn [andb].
    destruct (bool_decide (is_Some (recorders m !! T)));
      [eexists; split; [reflexivity |]; repeat split |].
    fold constructed.
    destruct constructed; cbn [andb negb]; (eexists; split; [reflexivity |]);
      cbn [app]; rewrite !count_cons; cbn;
      rewrite ?(bool_decide_false (String "*" T = T)) by assumption;
      rewrite ?bool_decide_true by reflexivity;
      repeat split.
  - (* another key *)
    destruct (Ascii.eqb_spec c0 "*") as [-> | Hc].
    + assert (Hr : rest <> T) by (intros ->; now apply HS).
      cbn [andb]. destruct (bool_decide (is_Some (recorders m !! rest)));
        [eexists; split; [reflexivity |]; repeat split |].
      destruct (negb (isInterfaceType (types m !! rest)) && negb (IsExported rest));
        (eexists; split; [reflexivity |]);
        cbn [app]; rewrite !count_cons; cbn;
        rewrite ?(bool_decide_false (rest = T)) by assumption;
        rewrite ?(bool_decide_false (String "*" rest = T)) by assumption;
        rewrite ?(bool_decide_false (String "*" rest = String "*" T)) by congruence;
        repeat split.
    + cbn [andb].
      destruct (negb (isInterfaceType (types m !! String c0 rest))
                && negb (IsExported (String c0 rest)));
        (eexists; split; [reflexivity |]);
        cbn [app]; rewrite !count_cons; cbn;
        rewrite ?(bool_decide_false (String c0 rest = T)) by assumption;
        rewrite ?(bool_decide_false (String c0 rest = String "*" T)) by congruence;
        repeat split.
Qed.

(** The items of the whole loop, counted key by key. *)
Lemma scaffoldItems_counts (order : list (string * string)) :
  (forall b r, (b, r) ∈ order -> b <> "") ->
  exists items, scaffoldItems m order = Some items
    /\ count (isConstructorFor T) items = sum_list (weightC <$> order.*1)
    /\ count (isAccessorOn T) items = sum_list (weightA <$> order.*1)
    /\ count (isRecorderStructOn T) items = sum_list (weightA <$> order.*1).
Proof.
  induction order as [|[b r] rest IH]; intros Hne.
  - exists []. repeat split.
  - destruct (recorderItems_weights b r) as (l & Hl & HC & HA & HR).
    { apply (Hne b r), list_elem_of_here. }
    destruct IH as (items & Hi & HC' & HA' & HR').
    { intros b' r' H. apply (Hne b' r'). now apply list_elem_of_further. }
    exists (l ++ items). cbn [scaffoldItems]. rewrite Hl, Hi. cbn.
    rewrite !count_app. repeat split; congruence.
Qed.

(** A weight that is zero off two keys sums to the weights of those keys
    that occur. *)
Lemma sum_two_keys (w : string -> nat) (keys : list string) :
  NoDup keys ->
  (forall b, b <> T -> b <> "*" +:+ T -> w b = 0%nat) ->
  sum_list (w <$> keys) =
    ((if bool_decide (T ∈ keys) then w T else 0)
     + (if bool_decide (("*" +:+ T) ∈ keys) then w ("*" +:+ T) else 0))%nat.
Proof.
  intros Hnd Hw. induction keys as [|k rest IH].
  - reflexivity.
  - apply NoDup_cons in Hnd as [Hk Hnd]. cbn. rewrite (IH Hnd).
    destruct (decide (k = T)) as [-> | HkT].
    + rewrite (bool_decide_true (T ∈ T :: rest)) by apply list_elem_of_here.
      rewrite (bool_decide_false (T ∈ rest)) by assumption.
      rewrite (bool_decide_ext (("*" +:+ T) ∈ T :: rest) (("*" +:+ T) ∈ rest)); [simpl; lia |].
      rewrite elem_of_cons. pose proof star_not_base. tauto.
    + destruct (decide (k = "*" +:+ T)) as [-> | HkS].
      * rewrite (bool_decide_true (("*" +:+ T) ∈ ("*" +:+ T) :: rest))
          by apply list_elem_of_here.
        rewrite (bool_decide_false (("*" +:+ T) ∈ rest)) by assumption.
        rewrite (bool_decide_ext (T ∈ ("*" +:+ T) :: rest) (T ∈ rest)); [simpl; lia |].
        rewrite elem_of_cons. pose proof star_not_base. intuition congruence.
      * rewrite (Hw k HkT HkS).
        rewrite (bool_decide_ext (T ∈ k :: rest) (T ∈ rest))
          by (rewrite elem_of_cons; intuition congruence).
        rewrite (bool_decide_ext (("*" +:+ T) ∈ k :: rest) (("*" +:+ T) ∈ rest))
          by (rewrite elem_of_cons; intuition congruence).
        simpl; lia.
Qed.

Lemma weightC_off (b : string) : b <> T -> b <> "*" +:+ T -> weightC b = 0%nat.
Proof. intros H1 H2. unfold weightC. now rewrite !decide_False. Qed.

Lemma weightA_off (b : string) : b <> T -> b <> "*" +:+ T -> weightA b = 0%nat.
Proof. intros H1 H2. unfold weightA. now rewrite !decide_False. Qed.

Lemma registered_key (order : list (string * string)) (b : string) :
  order ≡ₚ map_to_list (recorders m) ->
  b ∈ order.*1 <-> is_Some (recorders m !! b).
Proof.
  intros Hp. rewrite list_elem_of_fmap. split.
  - intros ([b' r] & -> & Hin). rewrite Hp in Hin.
    apply elem_of_map_to_list in Hin. now exists r.
  - intros [r Hr]. exists (b, r). split; [reflexivity |].
    rewrite Hp. now apply elem_of_map_to_list.
Qed.


End Counting.

Lemma renderItems_app (l1 l2 : list item) :
  renderItems (l1 ++ l2) = renderItems l1 +:+ renderItems l2.
Proof.
  induction l1 as [|it l1 IH]; [reflexivity |].
  cbn [app renderItems fold_right]. fold (renderItems (l1 ++ l2)). fold (renderItems l1).
  now rewrite IH, append_assoc.
Qed.

(** The text of the loop of [pkg] is the text of its items. *)
Lemma pkgRecorders_items (m : mockGen) (order : list (string * string)) :
  text <$> pkgRecorders m order = renderItems <$> scaffoldItems m order.
Proof.
  induction order as [|[b r] rest IH]; [reflexivity |].
  cbn [pkgRecorders scaffoldItems].
  pose proof (pkgRecorder_items m b r) as Hb.
  destruct (pkgRecorder m b r) as [w|], (recorderItems m b r) as [l|];
    try discriminate; [|reflexivity].
  destruct (pkgRecorders m rest) as [w'|], (scaffoldItems m rest) as [l'|];
    try discriminate; [|reflexivity].
  cbn [fmap option_fmap option_map mbind option_bind] in *.
  rewrite renderItems_app. change (text (andThen w w')) with (text w +:+ text w').
  congruence.
Qed.



End ScaffoldProps.

(** ** The text of a mock and the functions it declares *)

Module RenderProps.
Import GoStrings Dispatch StringFacts.

Lemma text_bind {A B} (m : W A) (k : A -> W B) :
  text (m ≫= k) = text m +:+ text (k (value m)).
Proof. reflexivity. Qed.

Lemma forEach_app {A} (l1 l2 : list A) (body : A -> W unit) :
  text (forEach (l1 ++ l2) body) = text (forEach l1 body) +:+ text (forEach l2 body).
Proof.
  induction l1 as [|x l1 IH]; [reflexivity |].
  cbn [app forEach]. rewrite !text_bind, IH. now rewrite append_assoc.
Qed.

Lemma seqZ_one (m : Z) : seqZ m 1 = [m].
Proof. unfold seqZ. cbn. f_equal; lia. Qed.

Lemma forEach_one {A} (x : A) (body : A -> W unit) :
  text (forEach [x] body) = text (body x).
Proof. cbn [forEach]. rewrite text_bind. apply append_empty_r. Qed.

Lemma spread_loop (n : Z) :
  (1 <= n)%Z ->
  text (writeArgsComma (n - 1)) +:+ "p" +:+ fmtd (n - 1) = text (writeArgs n).
Proof.
  intros Hn. replace n with (Z.of_nat (Z.to_nat (n - 1)) + 1)%Z at 3 by lia.
  replace (n - 1)%Z with (Z.of_nat (Z.to_nat (n - 1))) at 1 2 by lia.
  generalize (Z.to_nat (n - 1)) as k. clear. intros k.
  unfold writeArgs, writeArgsComma, forUpTo.
  induction k as [|k IH].
  - reflexivity.
  - rewrite Nat2Z.inj_succ, <- Z.add_1_r.
    rewrite (seqZ_app 0 (Z.of_nat k) 1) by lia.
    rewrite (seqZ_app 0 (Z.of_nat k + 1) 1) by lia.
    rewrite !forEach_app. rewrite <- IH. rewrite !seqZ_one, !forEach_one.
    rewrite text_bind. rewrite !Z.add_0_l.
    replace (0 <? Z.of_nat k + 1)%Z with true by (symmetry; apply Z.ltb_lt; lia).
    cbn [when text Fprintf value]. now rewrite !append_assoc.
Qed.

Lemma spread_loop_nf (n : Z) (rest : string) :
  (1 <= n)%Z ->
  text (writeArgsComma (n - 1)) +:+ String "p" (fmtd (n - 1) +:+ rest)
  = text (writeArgs n) +:+ rest.
Proof.
  intros Hn. rewrite <- (spread_loop n Hn). now rewrite !append_assoc.
Qed.

Lemma asserts_text (l : list (Z * string)) :
  text (forEach l (fun ix : Z * string => writeAssert ix.1 ix.2))
  = renderBody (map (fun it : Z * string => SAssert it.1 it.2) l).
Proof.
  induction l as [|[i ty] l IH]; [reflexivity |].
  cbn [forEach map renderBody fold_right]. rewrite text_bind.
  fold (renderBody (map (fun it : Z * string => SAssert it.1 it.2) l)).
  now rewrite IH.
Qed.

Lemma renderBody_app (b1 b2 : list stmt) :
  renderBody (b1 ++ b2) = renderBody b1 +:+ renderBody b2.
Proof.
  induction b1 as [|st b1 IH]; [reflexivity |].
  cbn [app renderBody fold_right]. fold (renderBody (b1 ++ b2)). fold (renderBody b1).
  now rewrite IH, append_assoc.
Qed.

Ltac wnorm :=
  repeat (progress (cbn -[retTypes writeParams writeArgs writeArgsComma writeArgsAfter
                          writeRets writeAssert forEach seqZ Join fmtd];
                    rewrite ?text_bind, ?append_assoc, ?append_empty_r)).

Lemma writeParamNames_value (ns : list string) (j p : Z) :
  value (writeParamNames j p ns) = (p + Z.of_nat (length ns))%Z.
Proof.
  revert j p. induction ns as [|n ns IH]; intros j p; cbn [writeParamNames length].
  - change (value (mret p)) with p. lia.
  - change (value (when (0 <? j)%Z (Fprintf ", ") ≫= _))
      with (value (writeParamNames (j + 1) (p + 1) ns)).
    rewrite IH. lia.
Qed.

Lemma writeParamsFrom_value (ps : list field) (i p : Z) :
  value (writeParamsFrom i p ps) =
    fold_left (fun p param =>
      if (length (names param) =? 0)%nat then (p + 1)%Z
      else (p + Z.of_nat (length (names param)))%Z) ps p.
Proof.
  revert i p. induction ps as [|param ps IH]; intros i p; [reflexivity |].
  cbn [writeParamsFrom fold_left].
  destruct (length (names param) =? 0)%nat eqn:He.
  - change (value (when (0 <? i)%Z (Fprintf ", ") ≫= _))
      with (value (writeParamsFrom (i + 1) (p + 1) ps)).
    apply IH.
  - change (value (when (0 <? i)%Z (Fprintf ", ") ≫= _))
      with (value (writeParamsFrom (i + 1) (value (writeParamNames 0 p (names param))) ps)).
    rewrite IH. now rewrite writeParamNames_value.
Qed.

Lemma writeParams_countParams (fi : funcInfo) : value (writeParams fi) = countParams fi.
Proof. apply writeParamsFrom_value. Qed.

Lemma countParams_fold_ge (ps : list field) (p : Z) :
  (p + Z.of_nat (length ps) <=
   fold_left (fun p param =>
      if (length (names param) =? 0)%nat then (p + 1)%Z
      else (p + Z.of_nat (length (names param)))%Z) ps p)%Z.
Proof.
  revert p. induction ps as [|param ps IH]; intros p; cbn [fold_left length]; [lia |].
  destruct (length (names param) =? 0)%nat eqn:He.
  - specialize (IH (p + 1)%Z). lia.
  - apply Nat.eqb_neq in He. specialize (IH (p + Z.of_nat (length (names param)))%Z). lia.
Qed.

Lemma countParams_ge (fi : funcInfo) : (Z.of_nat (length (params fi)) <= countParams fi)%Z.
Proof. unfold countParams. pose proof (countParams_fold_ge (params fi) 0). lia. Qed.

Lemma varidic_fold (ps : list Field) (b : bool) :
  fold_left (fun _ (p : Field) => isEllipsis p.1.2) ps b = true -> b = true \/ ps <> [].
Proof. destruct ps; [now left | now right]. Qed.

Lemma funcInfoOf_wf (d : FuncDecl) fi recorder reg :
  funcInfoOf d = Some (fi, recorder, reg) -> wfInfo fi /\ realDisabled fi = false /\ name fi = Name d.
Proof.
  unfold funcInfoOf. intros H.
  destruct (match Recv d with None => _ | Some _ => _ end) as [[[[rn re] rc] rg]|]; [|discriminate].
  cbn [mbind option_bind] in H.
  destruct (declFields (Params d)) as [ps|] eqn:Hps; [|discriminate].
  cbn [mbind option_bind] in H.
  destruct (match Results d with None => _ | Some _ => _ end) as [rs|]; [|discriminate].
  cbn [mbind option_bind] in H. injection H as <- _ _.
  match goal with |- wfInfo ?f /\ _ => set (fi0 := f) end.
  split; [|split; reflexivity].
  intros Hv. change (varidic fi0) with
    (fold_left (fun _ (p : Field) => isEllipsis p.1.2) (Params d) false) in Hv.
  apply varidic_fold in Hv as [Hv | Hv]; [discriminate |].
  pose proof (countParams_ge fi0) as Hge.
  change (params fi0) with ps in Hge.
  unfold declFields in Hps. apply length_mapM in Hps.
  assert (length (Params d) <> 0%nat) by (destruct (Params d); [now elim Hv | discriminate]).
  lia.
Qed.

(** The text that [writeMock] writes is the concrete syntax of
    [mockFuncs]: the dispatchers run below are the ones written. *)
Lemma writeMock_renders (fi : funcInfo) :
  wfInfo fi -> text (writeMock fi) = renderFuncs (mockFuncs fi).
Proof.
  intros Hwf. unfold wfInfo in Hwf. rewrite <- writeParams_countParams in Hwf.
  unfold writeMock, mockFuncs.
  unfold dispatcherBody, scopedNameOf, passArgs, renderFuncs, forRange.
  destruct (IsMethod fi) eqn:Hm, (varidic fi) eqn:Hv, (realDisabled fi) eqn:Hd,
    (results fi) as [|r rs] eqn:Hr.
  all: try (specialize (Hwf eq_refl)).
  all: cbv zeta.
  all: cbn [fold_right]; unfold renderFunc; cbn [gRecv gName gParams gReturns gBody].
  all: rewrite ?renderBody_app, <- ?asserts_text.
  all: unfold renderBody; cbn [fold_right]; unfold renderStmt, renderArgs, renderCtrlArgs.
  all: unfold pList, retList.
  all: destruct (0 <? length (retTypes fi))%nat eqn:Hret.
  all: wnorm.
  all: rewrite ?(spread_loop_nf _ _ Hwf).
  all: try reflexivity.
Qed.

End RenderProps.

(** ** Function declarations in [file] *)

Module FileProps.
Import GoStrings Dispatch StringFacts RenderProps.

Lemma value_bind {A B} (m : W A) (k : A -> W B) :
  value (m ≫= k) = value (k (value m)).
Proof. reflexivity. Qed.

Ltac wsimpl :=
  repeat first [ rewrite text_bind | rewrite value_bind
               | progress cbn [value text mret W_ret Fprintf fst snd] ];
  rewrite ?append_assoc, ?append_empty_r.

Lemma exported_not_init (n : string) : IsExported n = true -> String.eqb n "init" = false.
Proof.
  destruct n as [|c rest]; [discriminate |].
  intros He. apply String.eqb_neq. intros Hn. injection Hn as -> _. discriminate He.
Qed.

(** For an exported declaration, [file] writes the real form (or the stub),
    then the mock and the recorder. *)
Lemma fileFuncDecl_exported (m : mockGen) (inits : list string) (d : FuncDecl)
    fi recorder reg :
  funcInfoOf d = Some (fi, recorder, reg) ->
  IsExported (Name d) = true ->
  exists w, fileFuncDecl m inits d = Some w
    /\ text w =
         text (if bool_decide (Body d = None) && mockPrototypes m
               then writeStub fi else writeReal fi) +:+
         text (writeMock fi) +:+ text (writeRecorder fi recorder) +:+ nl
    /\ (value w).2 = inits.
Proof.
  intros Hfi Hex. destruct (funcInfoOf_wf d fi recorder reg Hfi) as (_ & _ & Hname).
  unfold fileFuncDecl. rewrite Hfi. cbn [mbind option_bind].
  rewrite Hname, (exported_not_init _ Hex), Hex. cbn [andb].
  eexists. split; [reflexivity |].
  destruct reg; cbn [withRecorders mockPrototypes];
    destruct (bool_decide (Body d = None)), (mockPrototypes m); cbn [andb];
    (split; [wsimpl | wsimpl]; reflexivity).
Qed.

(** The real form of an exported function carries the prefix [_real_]. *)
Lemma writeReal_exported (fi : funcInfo) :
  IsExported (name fi) = true ->
  text (writeReal fi) =
    (if negb (String.eqb (export fi) "") then "//export " +:+ export fi +:+ nl else "") +:+
    "func " +:+
    (if IsMethod fi then "(" +:+ recv_name fi +:+ " " +:+ recv_expr fi +:+ ") " else "") +:+
    "_real_" +:+ name fi +:+ "(" +:+ text (writeFields (params fi)) +:+ ") " +:+
    (if (0 <? length (results fi))%nat
     then "(" +:+ text (writeFields (results fi)) +:+ ") " else "") +:+
    body fi +:+ nl.
Proof.
  intros Hex. unfold writeReal. rewrite Hex.
  destruct (negb (String.eqb (export fi) "")), (IsMethod fi),
    (0 <? length (results fi))%nat;
    repeat (rewrite ?text_bind; cbn [when value text mbind W_bind mret W_ret Fprintf]);
    rewrite ?append_assoc, ?append_empty_r; cbn [String.append];
    rewrite ?append_assoc, ?append_empty_r; reflexivity.
Qed.

(** An [init] function is renamed [_real_init_<n>], written in its real
    form only, and collected when the inits are to be called. *)
Lemma fileFuncDecl_init (m : mockGen) (inits : list string) (d : FuncDecl) fi recorder reg :
  funcInfoOf d = Some (fi, recorder, reg) ->
  Name d = "init" -> Recv d = None ->
  let renamed := "_real_init_" +:+ fmtd (initCount m) in
  exists w, fileFuncDecl m inits d = Some w
    /\ text w = text (writeReal (withName fi renamed)) +:+ nl
    /\ (value w).2 = (if Gen.callInits m then inits ++ [renamed] else inits)
    /\ initCount (value w).1 = (initCount m + 1)%Z.
Proof.
  intros Hfi Hname Hrecv renamed.
  assert (Hm : IsMethod fi = false /\ name fi = "init").
  { unfold funcInfoOf in Hfi. rewrite Hrecv in Hfi. cbn [mbind option_bind] in Hfi.
    destruct (declFields (Params d)); [|discriminate]. cbn [mbind option_bind] in Hfi.
    destruct (match Results d with None => _ | Some _ => _ end); [|discriminate].
    cbn [mbind option_bind] in Hfi. injection Hfi as <- _ _. now split. }
  destruct Hm as [Hm Hn].
  unfold fileFuncDecl. rewrite Hfi. cbn [mbind option_bind].
  rewrite Hn, Hm, Hname.
  assert (reg = None) as ->.
  { unfold funcInfoOf in Hfi. rewrite Hrecv in Hfi. cbn [mbind option_bind] in Hfi.
    destruct (declFields (Params d)); [|discriminate]. cbn [mbind option_bind] in Hfi.
    destruct (match Results d with None => _ | Some _ => _ end); [|discriminate].
    cbn [mbind option_bind] in Hfi. now injection Hfi as _ _ <-. }
  cbn [String.eqb Ascii.eqb Bool.eqb andb negb IsExported nat_of_ascii].
  eexists. split; [reflexivity |]. fold renamed.
  split; [|split]; try reflexivity.
  wsimpl. reflexivity.
Qed.

End FileProps.

(** ** What a generated dispatcher does *)

Module ExecProps.
Import GoStrings Dispatch StringFacts RenderProps.

Section Running.
Context {C : Type}.
Variable ctrlCall : C -> val -> string -> list val -> C * option (list val).
Variable assertType : val -> string -> option val.
Variable zeroValue : string -> val.
Variable real : string -> option val -> list val -> State (C:=C) -> Outcome (C:=C).

#[local] Abbreviation execStmt := (Dispatch.execStmt ctrlCall assertType zeroValue real).
#[local] Abbreviation execBody := (Dispatch.execBody ctrlCall assertType zeroValue real).
#[local] Abbreviation runFunc := (Dispatch.runFunc ctrlCall assertType zeroValue real).
#[local] Abbreviation callMock := (Dispatch.callMock ctrlCall assertType zeroValue real).
#[local] Abbreviation coerce := (Dispatch.coerce assertType zeroValue).
#[local] Abbreviation afterCall := (Dispatch.afterCall ctrlCall assertType zeroValue).

Implicit Types (fr : Frame) (s : State (C:=C)).

Lemma paramsUpTo_take fr (k : Z) :
  (Z.to_nat k <= length (f_params fr))%nat ->
  paramsUpTo fr k = Some (take (Z.to_nat k) (f_params fr)).
Proof.
  intros Hk. unfold paramsUpTo. apply mapM_Some. unfold seqZ.
  apply Forall2_fmap_l. apply Forall2_same_length_lookup_2.
  - rewrite length_seq, length_take. lia.
  - intros i x y Hx Hy. apply lookup_seq in Hx as [-> Hi].
    rewrite lookup_take_Some in Hy. destruct Hy as [Hy _].
    unfold paramAt, compose. cbn beta.
    assert ((Z.of_nat (0 + i) + 0 <? 0)%Z = false) as -> by (apply Z.ltb_ge; lia).
    now replace (Z.to_nat (Z.of_nat (0 + i) + 0)) with i by lia.
Qed.

Lemma paramsUpTo_all fr (k : Z) :
  Z.to_nat k = length (f_params fr) -> paramsUpTo fr k = Some (f_params fr).
Proof.
  intros Hk. rewrite paramsUpTo_take by lia. now rewrite Hk, firstn_all.
Qed.

Lemma execBody_app pm (b1 b2 : list stmt) fr s :
  execBody pm (b1 ++ b2) fr s =
    match execBody pm b1 fr s with
    | Continue fr' s' => execBody pm b2 fr' s'
    | Exit o => Exit o
    end.
Proof.
  revert fr s. induction b1 as [|st b1 IH]; intros fr s; [reflexivity |].
  cbn [app Dispatch.execBody]. destruct (execStmt pm st fr s); [apply IH | reflexivity].
Qed.


Lemma evalArgs_pass (fi : funcInfo) fr :
  wfInfo fi ->
  length (f_params fr) = Z.to_nat (countParams fi) ->
  evalArgs fr (passArgs fi (countParams fi)) = Some (f_params fr).
Proof.
  intros Hwf Hlen. unfold passArgs, evalArgs.
  destruct (varidic fi) eqn:Hv.
  - specialize (Hwf Hv).
    assert ((countParams fi <? 1)%Z = false) as -> by (apply Z.ltb_ge; lia).
    now apply paramsUpTo_all.
  - now apply paramsUpTo_all.
Qed.

(** The dispatcher proper, when the real implementation is selected. *)
Lemma dispatcher_forwards (fi : funcInfo) pm recv ps s :
  wfInfo fi -> realDisabled fi = false -> results fi <> [] ->
  length ps = Z.to_nat (countParams fi) ->
  realSelected (toggles s) (scopedNameOf fi) = true ->
  match execBody pm (dispatcherBody fi (countParams fi)) (entry recv ps) s with
  | Continue _ s' => Returned [] s'
  | Exit o => o
  end = real ("_real_" +:+ name fi) (if IsMethod fi then Some recv else None) ps s.
Proof.
  intros Hwf Hd Hres Hlen Hsel. unfold dispatcherBody. rewrite Hd.
  cbn [app Dispatch.execBody Dispatch.execStmt]. rewrite Hsel.
  rewrite (evalArgs_pass fi (entry recv ps) Hwf Hlen). cbn [f_recv f_params entry].
  destruct (results fi); [now elim Hres |]. cbn [length Nat.ltb Nat.leb].
  now destruct (real _ _ _ _).
Qed.



Lemma retTypes_fold (rs : list field) (acc : list string) :
  fold_left (fun results result =>
    let x := length (names result) in
    let x := if (x =? 0)%nat then 1%nat else x in
    results ++ replicate x (expr result)) rs acc
  = acc ++ concat (map (fun result =>
       replicate (if (length (names result) =? 0)%nat then 1%nat else length (names result))
         (expr result)) rs).
Proof.
  revert acc. induction rs as [|r rs IH]; intros acc; cbn [fold_left map concat].
  - now rewrite app_nil_r.
  - rewrite IH. now rewrite <- app_assoc.
Qed.

Lemma retTypes_nil (fi : funcInfo) : results fi = [] -> retTypes fi = [].
Proof. unfold retTypes. now intros ->. Qed.

Lemma retTypes_nonempty (fi : funcInfo) :
  results fi <> [] -> (0 <? length (retTypes fi))%nat = true.
Proof.
  unfold retTypes. rewrite retTypes_fold. destruct (results fi) as [|r rs]; [easy |].
  intros _. cbn [map concat app]. rewrite !length_app, length_replicate.
  apply Nat.ltb_lt. destruct (length (names r) =? 0)%nat eqn:He; [lia |].
  apply Nat.eqb_neq in He. lia.
Qed.

(** The assertions [ret<i>, _ := ret[<i>].(ty)], from index [k] on. *)
Definition asserts (k : Z) (tys : list string) : list stmt :=
  map (fun it : Z * string => SAssert it.1 it.2) (zip (seqZ k (Z.of_nat (length tys))) tys).

Lemma asserts_cons (k : Z) (ty : string) (tys : list string) :
  asserts k (ty :: tys) = SAssert k ty :: asserts (k + 1) tys.
Proof.
  unfold asserts. cbn [length]. rewrite Nat2Z.inj_succ.
  rewrite seqZ_cons by lia. cbn [zip zip_with map fst snd].
  now replace (Z.succ k) with (k + 1)%Z by lia; replace (Z.pred (Z.succ (Z.of_nat (length tys)))) with (Z.of_nat (length tys)) by lia.
Qed.

Definition withRets fr (m : gmap Z val) : Frame :=
  {| f_recv := f_recv fr; f_params := f_params fr; f_args := f_args fr;
     f_ret := f_ret fr; f_rets := m |}.

(** The assertions bind [ret<k+i>] to the coerced entry [k+i], or panic at
    the first index beyond the list. *)
Lemma exec_asserts pm (rets : list val) (tys : list string) :
  forall (k : nat) fr s,
    f_ret fr = Some rets -> (k <= length rets)%nat ->
    execBody pm (asserts (Z.of_nat k) tys) fr s =
      if decide (k + length tys <= length rets)%nat
      then Continue
             (withRets fr
                (fold_left (fun m (it : nat * string) =>
                              <[Z.of_nat it.1 := coerce (default VNil (rets !! it.1)) it.2]> m)
                           (zip (seq k (length tys)) tys) (f_rets fr))) s
      else Exit (Panicked s).
Proof.
  induction tys as [|ty tys IH]; intros k fr s Hret Hk0.
  - cbn [length]. rewrite decide_True by lia. now destruct fr.
  - rewrite asserts_cons. cbn [Dispatch.execBody Dispatch.execStmt]. rewrite Hret.
    assert ((Z.of_nat k <? 0)%Z = false) as -> by (apply Z.ltb_ge; lia).
    rewrite Nat2Z.id.
    destruct (rets !! k) as [v|] eqn:Hk.
    + replace (Z.of_nat k + 1)%Z with (Z.of_nat (S k)) by lia.
      apply lookup_lt_Some in Hk as Hlt.
      rewrite IH by (try reflexivity; lia). cbn [length].
      destruct (decide (S k + length tys <= length rets)%nat).
      * rewrite decide_True by lia.
        unfold withRets.
        cbn [seq zip zip_with fold_left fst snd f_rets f_recv f_params f_args f_ret].
        rewrite Hk, Hret. reflexivity.
      * now rewrite decide_False by lia.
    + apply lookup_ge_None in Hk. cbn [length]. now rewrite decide_False by lia.
Qed.


#[local] Abbreviation bindRets rets :=
  (fun (m : gmap Z val) (it : nat * string) =>
     <[Z.of_nat it.1 := coerce (default VNil (rets !! it.1)) it.2]> m).

Lemma bindRets_below (rets : list val) (tys : list string) :
  forall (k : nat) (m0 : gmap Z val) (i : nat),
    (i < k)%nat ->
    fold_left (bindRets rets) (zip (seq k (length tys)) tys) m0 !! Z.of_nat i
    = m0 !! Z.of_nat i.
Proof.
  induction tys as [|ty tys IH]; intros k m0 i Hi; [reflexivity |].
  cbn [length seq zip zip_with fold_left fst snd].
  rewrite IH by lia. apply lookup_insert_ne. lia.
Qed.

Lemma bindRets_lookup (rets : list val) (tys : list string) :
  forall (k : nat) (m0 : gmap Z val) (j : nat) (ty : string),
    tys !! j = Some ty ->
    fold_left (bindRets rets) (zip (seq k (length tys)) tys) m0 !! Z.of_nat (k + j)
    = Some (coerce (default VNil (rets !! (k + j)%nat)) ty).
Proof.
  induction tys as [|ty0 tys IH]; intros k m0 j ty Hj; [discriminate |].
  cbn [length seq zip zip_with fold_left fst snd].
  destruct j as [|j].
  - injection Hj as ->. rewrite Nat.add_0_r.
    rewrite bindRets_below by lia. apply lookup_insert_eq.
  - cbn [lookup list_lookup] in Hj.
    replace (k + S j)%nat with (S k + j)%nat by lia. now apply IH.
Qed.

(** [return ret0, ..., ret(n-1)] after the assertions. *)
Lemma return_rets (rets : list val) (tys : list string) :
  (length tys <= length rets)%nat ->
  mapM (fun i => fold_left (bindRets rets) (zip (seq 0 (length tys)) tys) ∅ !! i)
       (seqZ 0 (Z.of_nat (length tys)))
  = Some (zip_with coerce rets tys).
Proof.
  intros Hlen. apply mapM_Some. unfold seqZ. rewrite Nat2Z.id.
  apply Forall2_fmap_l. apply Forall2_same_length_lookup_2.
  - rewrite length_seq, length_zip_with. lia.
  - intros i x y Hx Hy. apply lookup_seq in Hx as [-> Hi].
    apply lookup_zip_with_Some in Hy as (v & ty & -> & Hv & Hty).
    unfold compose. cbn beta. rewrite Z.add_0_r.
    rewrite (bindRets_lookup rets tys 0 ∅ i ty Hty). cbn [Nat.add]. now rewrite Hv.
Qed.

(** The end of a dispatcher: the assertions and the return, on the answer
    of the controller. *)
Lemma exec_destructure pm (fi : funcInfo) (rets : list val) fr s :
  f_ret fr = (if (0 <? length (results fi))%nat then Some rets else None) ->
  f_rets fr = ∅ ->
  match execBody pm
          (asserts 0 (retTypes fi) ++
           (if (0 <? length (retTypes fi))%nat
            then [SReturnRets (Z.of_nat (length (retTypes fi)))] else [])) fr s with
  | Continue _ s' => Returned [] s'
  | Exit o => o
  end =
  if decide (length (retTypes fi) <= length rets)%nat
  then Returned (zip_with coerce rets (retTypes fi)) s
  else Panicked s.
Proof.
  intros Hret Hempty.
  destruct (results fi) as [|r rs] eqn:Hr.
  - rewrite (retTypes_nil fi Hr). cbn. rewrite decide_True by lia.
    now rewrite zip_with_nil_r.
  - assert (Hne : (0 <? length (retTypes fi))%nat = true).
    { apply retTypes_nonempty. now rewrite Hr. }
    rewrite Hne. cbn [length Nat.ltb Nat.leb] in Hret.
    rewrite execBody_app.
    change (asserts 0 (retTypes fi)) with (asserts (Z.of_nat 0) (retTypes fi)).
    rewrite (exec_asserts pm rets (retTypes fi) 0 fr s Hret) by lia.
    cbn [Nat.add].
    destruct (decide (length (retTypes fi) <= length rets)%nat) as [Hle | Hle]; [|reflexivity].
    cbn [Dispatch.execBody Dispatch.execStmt f_rets withRets]. rewrite Hempty.
    now rewrite (return_rets rets (retTypes fi) Hle).
Qed.



Lemma paramAt_last fr (fixed : list val) (v : val) (n : Z) :
  f_params fr = fixed ++ [v] ->
  length fixed = Z.to_nat (n - 1) -> (1 <= n)%Z ->
  paramAt fr (n - 1) = Some v.
Proof.
  intros Hps Hlen Hn. unfold paramAt. rewrite Hps.
  assert ((n - 1 <? 0)%Z = false) as -> by (apply Z.ltb_ge; lia).
  rewrite <- Hlen. now rewrite list_lookup_middle.
Qed.

Lemma dispatcher_mocked (fi : funcInfo) pm recv ps cargs (c : C) s :
  wfInfo fi -> mocked fi s -> ctrl (toggles s) = Some c ->
  length ps = Z.to_nat (countParams fi) ->
  passes fi ps cargs ->
  match execBody pm (dispatcherBody fi (countParams fi)) (entry recv ps) s with
  | Continue _ s' => Returned [] s'
  | Exit o => o
  end = afterCall fi recv cargs c s.
Proof.
  intros Hwf Hmock Hc Hlen Hpass. unfold dispatcherBody.
  (* the guard is not written, or not taken *)
  rewrite execBody_app.
  assert (Hguard :
    execBody pm
      (if realDisabled fi then []
       else [SIfReal (scopedNameOf fi) (negb (varidic fi)) (0 <? length (results fi))%nat
               (IsMethod fi) (name fi) (passArgs fi (countParams fi))])
      (entry recv ps) s = Continue (entry recv ps) s).
  { destruct (realDisabled fi) eqn:Hd; [reflexivity |].
    destruct Hmock as [Hm | Hm]; [congruence |].
    cbn [Dispatch.execBody Dispatch.execStmt]. now rewrite Hm. }
  rewrite Hguard. clear Hguard. rewrite execBody_app.
  unfold Dispatch.afterCall.
  (* up to the call of the controller *)
  assert (Hcall :
    execBody pm
      (if varidic fi
       then [SArgs (countParams fi - 1); SRangeAppend (countParams fi - 1);
             SCtrlCall (0 <? length (results fi))%nat (name fi) CtrlArgsVar]
       else [SCtrlCall (0 <? length (results fi))%nat (name fi)
               (CtrlParams (countParams fi))])
      (entry recv ps) s =
    let '(c', answer) := ctrlCall c recv (name fi) cargs in
    let s' := {| toggles := SetController (Some c') (toggles s);
                 calls := calls s ++ [(recv, name fi, cargs)] |} in
    match answer with
    | None => Exit (Panicked s')
    | Some rets =>
        Continue {| f_recv := recv; f_params := ps;
                    f_args := if varidic fi then Some cargs else None;
                    f_ret := if (0 <? length (results fi))%nat then Some rets else None;
                    f_rets := ∅ |} s'
    end).
  { destruct Hpass as [ps Hv | fixed vs Hv | fixed Hv]; rewrite Hv.
    - cbn [Dispatch.execBody Dispatch.execStmt].
      rewrite paramsUpTo_all by (cbn [entry f_params]; lia).
      cbn [entry f_params f_recv f_args f_ret f_rets]. rewrite Hc.
      destruct (ctrlCall c recv (name fi) ps) as [c' [rets|]]; reflexivity.
    - specialize (Hwf Hv). rewrite length_app in Hlen. cbn [length] in Hlen.
      cbn [Dispatch.execBody Dispatch.execStmt].
      rewrite paramsUpTo_take by (cbn [entry f_params]; rewrite length_app; cbn [length]; lia).
      cbn [entry f_params]. replace (Z.to_nat (countParams fi - 1)) with (length fixed) by lia.
      rewrite take_app_length. cbn [f_args].
      rewrite (paramAt_last _ fixed (VSlice vs) (countParams fi))
        by first [reflexivity | lia].
      cbn [entry f_args f_recv f_params f_ret f_rets]. rewrite Hc.
      destruct (ctrlCall c recv (name fi) (fixed ++ vs)) as [c' [rets|]]; reflexivity.
    - specialize (Hwf Hv). rewrite length_app in Hlen. cbn [length] in Hlen.
      cbn [Dispatch.execBody Dispatch.execStmt].
      rewrite paramsUpTo_take by (cbn [entry f_params]; rewrite length_app; cbn [length]; lia).
      cbn [entry f_params]. replace (Z.to_nat (countParams fi - 1)) with (length fixed) by lia.
      rewrite take_app_length. cbn [f_args].
      rewrite (paramAt_last _ fixed VNil (countParams fi))
        by first [reflexivity | lia].
      cbn [entry f_args f_recv f_params f_ret f_rets]. rewrite Hc.
      destruct (ctrlCall c recv (name fi) fixed) as [c' [rets|]]; reflexivity. }
  rewrite Hcall. clear Hcall.
  destruct (ctrlCall c recv (name fi) cargs) as [c' [rets|]]; [|reflexivity].
  cbv zeta. apply (exec_destructure pm fi rets); reflexivity.
Qed.


#[local] Abbreviation stuck := (fun (_ : string) (_ : list val) (_ : State (C:=C)) => @Stuck C).

(** A call of the mock is a run of the dispatcher: directly for a method,
    through the package-level function otherwise. *)
Lemma callMock_dispatcher (fi : funcInfo) recv ps s :
  wfInfo fi -> length ps = Z.to_nat (countParams fi) ->
  callMock (mockFuncs fi) recv ps s =
    match
      match execBody stuck (dispatcherBody fi (countParams fi))
              (entry (receiverOf fi recv) ps) s with
      | Continue _ s' => Returned [] s'
      | Exit o => o
      end
    with
    | Returned rs s' =>
        Returned (if IsMethod fi || (0 <? length (results fi))%nat then rs else []) s'
    | o => o
    end.
Proof.
  intros Hwf Hlen. unfold Dispatch.callMock, mockFuncs, receiverOf.
  rewrite writeParams_countParams.
  destruct (IsMethod fi) eqn:Hm.
  - unfold Dispatch.runFunc. cbn [gBody orb]. fold (entry recv ps).
    now destruct (execBody _ _ _ _) as [? ? | [| |]].
  - unfold Dispatch.runFunc at 1. cbn [gBody gName Dispatch.execBody Dispatch.execStmt orb].
    fold (entry recv ps).
    rewrite (evalArgs_pass fi (entry recv ps) Hwf Hlen). cbn [entry f_params].
    rewrite String.eqb_refl. unfold Dispatch.runFunc. cbn [gBody]. fold (entry pkgMockValue ps).
    destruct (execBody _ _ _ _) as [? ? | [| |]];
      destruct (0 <? length (results fi))%nat; reflexivity.
Qed.


Lemma afterCall_results (fi : funcInfo) recv cargs (c : C) s (b : bool) :
  match afterCall fi recv cargs c s with
  | Returned rs s' => Returned (if b || (0 <? length (results fi))%nat then rs else []) s'
  | o => o
  end = afterCall fi recv cargs c s.
Proof.
  unfold Dispatch.afterCall.
  destruct (ctrlCall c recv (name fi) cargs) as [c' [rets|]]; [|reflexivity].
  destruct (decide _); [|reflexivity].
  destruct (results fi) as [|r rs] eqn:Hr.
  - rewrite (retTypes_nil fi Hr), zip_with_nil_r. now destruct b.
  - cbn [length Nat.ltb Nat.leb]. now rewrite orb_true_r.
Qed.

Lemma callMock_mocked (fi : funcInfo) recv ps cargs (c : C) s :
  wfInfo fi -> mocked fi s -> ctrl (toggles s) = Some c ->
  length ps = Z.to_nat (countParams fi) ->
  passes fi ps cargs ->
  callMock (mockFuncs fi) recv ps s = afterCall fi (receiverOf fi recv) cargs c s.
Proof.
  intros Hwf Hmock Hc Hlen Hpass.
  rewrite (callMock_dispatcher fi recv ps s Hwf Hlen).
  rewrite (dispatcher_mocked fi _ (receiverOf fi recv) ps cargs c s Hwf Hmock Hc Hlen Hpass).
  apply afterCall_results.
Qed.

(** C1. For a function or method declaration with results, as [file] reads
    it, the text that [writeMock] writes is the syntax of the dispatcher;
    and when the symbol is not globally mocked and not enabled, or is
    disabled, a call of the dispatcher is the call of the [_real_]
    implementation with the same arguments, with its outcome: the values it
    returns, or its panic. *)
Theorem dispatcher_forwards_to_real (d : FuncDecl) fi recorder reg recv ps s :
  funcInfoOf d = Some (fi, recorder, reg) ->
  results fi <> [] ->
  length ps = Z.to_nat (countParams fi) ->
  (allMocked (toggles s) = false
   /\ mapGet (enabledMocks (toggles s)) (scopedNameOf fi) = false)
  \/ mapGet (disabledMocks (toggles s)) (scopedNameOf fi) = true ->
  text (writeMock fi) = renderFuncs (mockFuncs fi)
  /\ callMock (mockFuncs fi) recv ps s
     = real ("_real_" +:+ Name d) (if IsMethod fi then Some recv else None) ps s.
Proof.
  intros Hfi Hres Hlen Hsel.
  destruct (funcInfoOf_wf d fi recorder reg Hfi) as (Hwf & Hd & Hname).
  split; [now apply writeMock_renders |].
  assert (Hreal : realSelected (toggles s) (scopedNameOf fi) = true).
  { unfold realSelected. destruct Hsel as [[-> ->] | ->]; [reflexivity | apply orb_true_r]. }
  rewrite (callMock_dispatcher fi recv ps s Hwf Hlen).
  rewrite (dispatcher_forwards fi _ (receiverOf fi recv) ps s Hwf Hd Hres Hlen Hreal).
  rewrite Hname. unfold receiverOf.
  assert (Hb : IsMethod fi || (0 <? length (results fi))%nat = true).
  { destruct (results fi); [now elim Hres | apply orb_true_r]. }
  rewrite Hb. destruct (IsMethod fi); now destruct (real _ _ _ _).
Qed.

(** C5. In mocked mode the dispatcher of a variadic function calls the
    controller once, with the fixed arguments followed by the elements of
    the variadic argument, one entry each. *)
Theorem variadic_arguments_flattened (fi : funcInfo) recv fixed vs (c : C) s :
  wfInfo fi -> varidic fi = true -> mocked fi s -> ctrl (toggles s) = Some c ->
  length fixed = Z.to_nat (countParams fi - 1) ->
  callMock (mockFuncs fi) recv (fixed ++ [VSlice vs]) s
    = afterCall fi (receiverOf fi recv) (fixed ++ vs) c s
  /\ exists s',
       outcomeState (callMock (mockFuncs fi) recv (fixed ++ [VSlice vs]) s) = Some s'
       /\ calls s' = calls s ++ [(receiverOf fi recv, name fi, fixed ++ vs)].
Proof.
  intros Hwf Hv Hmock Hc Hlen.
  assert (Hcall : callMock (mockFuncs fi) recv (fixed ++ [VSlice vs]) s
                  = afterCall fi (receiverOf fi recv) (fixed ++ vs) c s).
  { apply callMock_mocked; try assumption.
    - specialize (Hwf Hv). rewrite length_app. cbn [length]. lia.
    - now constructor. }
  split; [exact Hcall |]. rewrite Hcall. unfold Dispatch.afterCall.
  destruct (ctrlCall c (receiverOf fi recv) (name fi) (fixed ++ vs)) as [c' [rets|]].
  - destruct (decide _); eexists; split; reflexivity.
  - eexists; split; reflexivity.
Qed.

(** C7. In mocked mode, when the controller answers with a list that has
    an entry for every declared result, the dispatcher returns one value
    per declared result: the entry asserted to the result type, or the zero
    value of that type when the assertion fails. *)
Theorem failed_coercion_yields_zero (fi : funcInfo) recv ps cargs (c c' : C) rets s :
  wfInfo fi -> mocked fi s -> ctrl (toggles s) = Some c ->
  length ps = Z.to_nat (countParams fi) -> passes fi ps cargs ->
  ctrlCall c (receiverOf fi recv) (name fi) cargs = (c', Some rets) ->
  (length (retTypes fi) <= length rets)%nat ->
  exists vs s',
    callMock (mockFuncs fi) recv ps s = Returned vs s'
    /\ length vs = length (retTypes fi)
    /\ forall i v ty, rets !! i = Some v -> retTypes fi !! i = Some ty ->
         vs !! i = Some (match assertType v ty with
                         | Some v' => v'
                         | None => zeroValue ty
                         end).
Proof.
  intros Hwf Hmock Hc Hlen Hpass Hans Hrets.
  rewrite (callMock_mocked fi recv ps cargs c s Hwf Hmock Hc Hlen Hpass).
  unfold Dispatch.afterCall. rewrite Hans. rewrite decide_True by exact Hrets.
  eexists. eexists. split; [reflexivity |]. split.
  - rewrite length_zip_with. lia.
  - intros i v ty Hv Hty. rewrite lookup_zip_with, Hv, Hty. reflexivity.
Qed.

(** An answer that is too short is an index out of range. *)
Lemma short_answer_panics (fi : funcInfo) recv ps cargs (c c' : C) rets s :
  wfInfo fi -> mocked fi s -> ctrl (toggles s) = Some c ->
  length ps = Z.to_nat (countParams fi) -> passes fi ps cargs ->
  ctrlCall c (receiverOf fi recv) (name fi) cargs = (c', Some rets) ->
  (length rets < length (retTypes fi))%nat ->
  exists s', callMock (mockFuncs fi) recv ps s = Panicked s'.
Proof.
  intros Hwf Hmock Hc Hlen Hpass Hans Hrets.
  rewrite (callMock_mocked fi recv ps cargs c s Hwf Hmock Hc Hlen Hpass).
  unfold Dispatch.afterCall. rewrite Hans. rewrite decide_False by lia.
  eexists. reflexivity.
Qed.

End Running.

(** One value per declared result: a result field counts once for each of
    its names, and once when it has none. *)
Lemma retTypes_length (fi : funcInfo) :
  length (retTypes fi) =
    sum_list (map (fun r => Nat.max 1 (length (names r))) (results fi)).
Proof.
  unfold retTypes. rewrite retTypes_fold. cbn [app].
  induction (results fi) as [|r rs IH]; [reflexivity |].
  cbn [map concat sum_list sum_list_with]. rewrite length_app, length_replicate, IH.
  fold (sum_list (map (fun r => Nat.max 1 (length (names r))) rs)).
  destruct (length (names r)) as [|n]; cbn [Nat.eqb]; unfold id; lia.
Qed.

Section Samples.
Import Examples.

Lemma dispatcher_forwards_to_real_witness :
  funcInfoOf addDecl = Some (addInfo, "_package_Rec", None)
  /\ callMock answer99 assertBasic zeroBasic realAdd (mockFuncs addInfo) VNil
       [VInt 2; VInt 3] unmocked
     = Returned [VInt 5] unmocked.
Proof.
  split; [reflexivity |].
  refine (proj2 (dispatcher_forwards_to_real answer99 assertBasic zeroBasic realAdd
                   addDecl addInfo "_package_Rec" None VNil [VInt 2; VInt 3] unmocked
                   eq_refl _ eq_refl _)).
  - discriminate.
  - left. split; reflexivity.
Defined.

Lemma variadic_arguments_flattened_witness :
  exists s',
    outcomeState (callMock answer99 assertBasic zeroBasic realAdd (mockFuncs logfInfo)
                    (VObject "*Logger" 1)
                    ([VInt 2; VString "%d %d"] ++ [VSlice [VInt 7; VInt 8]]) allMockedState)
    = Some s'
    /\ calls s' = calls allMockedState ++
         [(receiverOf logfInfo (VObject "*Logger" 1), name logfInfo,
           [VInt 2; VString "%d %d"] ++ [VInt 7; VInt 8])].
Proof.
  refine (proj2 (variadic_arguments_flattened answer99 assertBasic zeroBasic realAdd
                   logfInfo (VObject "*Logger" 1) [VInt 2; VString "%d %d"]
                   [VInt 7; VInt 8] 0%nat allMockedState _ eq_refl _ eq_refl eq_refl)).
  - intros _. vm_compute. discriminate.
  - right. reflexivity.
Defined.

Lemma failed_coercion_yields_zero_witness :
  exists vs s',
    callMock answer99 assertBasic zeroBasic realAdd (mockFuncs logfInfo)
      (VObject "*Logger" 1) ([VInt 2; VString "%d"] ++ [VSlice [VInt 7]]) allMockedState
    = Returned vs s'
    /\ length vs = length (retTypes logfInfo)
    /\ forall i v ty, [VInt 99; VString "oops"] !! i = Some v ->
         retTypes logfInfo !! i = Some ty ->
         vs !! i = Some (match assertBasic v ty with
                         | Some v' => v'
                         | None => zeroBasic ty
                         end).
Proof.
  refine (failed_coercion_yields_zero answer99 assertBasic zeroBasic realAdd
            logfInfo (VObject "*Logger" 1) ([VInt 2; VString "%d"] ++ [VSlice [VInt 7]])
            ([VInt 2; VString "%d"] ++ [VInt 7]) 0%nat 1%nat [VInt 99; VString "oops"]
            allMockedState _ _ eq_refl eq_refl _ eq_refl _).
  - intros _. vm_compute. discriminate.
  - right. reflexivity.
  - now constructor.
  - vm_compute. lia.
Defined.

(** The second result of [Logf] is an [error]: the string that the
    controller answers does not assert to it, and the zero value stands in. *)
Example mocked_Logf_returns :
  callMock answer99 assertBasic zeroBasic realAdd (mockFuncs logfInfo)
    (VObject "*Logger" 1) [VInt 2; VString "%d"; VSlice [VInt 7]] allMockedState
  = Returned [VInt 99; VNil]
      {| toggles := SetController (Some 1%nat) (MockAll true initialToggles);
         calls := [(VObject "*Logger" 1, "Logf", [VInt 2; VString "%d"; VInt 7])] |}.
Proof. vm_compute. reflexivity. Qed.

End Samples.

End ExecProps.

(** ** More about the scope rewriter *)

Module ScopeLaws.
Import GoStrings Scope StringFacts ScopeProps TypeLayers.

Lemma prefix_empty (s : string) : String.prefix "" s = true.
Proof. now destruct s. Qed.

Lemma Contains_dot (s : string) : Contains (String "." s) "." = true.
Proof. unfold Contains. cbn [String.index String.prefix]. now rewrite prefix_empty. Qed.

Lemma Contains_cons_true (c : ascii) (s : string) :
  Contains s "." = true -> Contains (String c s) "." = true.
Proof.
  intros H. destruct (ascii_dec c ".") as [-> | Hc]; [apply Contains_dot |].
  now rewrite Contains_skip.
Qed.

Lemma Contains_app_r (a b : string) :
  Contains b "." = true -> Contains (a +:+ b) "." = true.
Proof.
  intros H. induction a as [|c a IH]; [exact H |].
  cbn [String.append]. now apply Contains_cons_true.
Qed.

(** The text before the first occurrence of a one-character separator, the
    separator, and the text after it make up the string. *)
Lemma index_split (c : ascii) (s : string) (i : nat) :
  String.index 0 (String c "") s = Some i ->
  s = String.substring 0 i s +:+ String c (sliceFrom s (i + 1)).
Proof.
  revert i. induction s as [|x s IH]; intros i; cbn [String.index String.prefix].
  - discriminate.
  - destruct (ascii_dec c x) as [<- | Hx].
    + rewrite prefix_empty. intros [= <-]. reflexivity.
    + destruct (String.index 0 (String c "") s) as [j|]; [|discriminate].
      intros [= <-]. cbn [String.substring sliceFrom Nat.add String.append].
      f_equal. now apply IH.
Qed.

Lemma prefix_split (p s : string) :
  String.prefix p s = true -> s = p +:+ sliceFrom s (String.length p).
Proof.
  revert s. induction p as [|c p IH]; intros s; [reflexivity |].
  destruct s as [|x s]; cbn [String.prefix]; [discriminate |].
  destruct (ascii_dec c x) as [<- | _]; [|discriminate].
  intros H. cbn [String.length sliceFrom String.append]. f_equal. now apply IH.
Qed.

(** What [isChannel] recognises: one of its three prefixes, a blank, and
    the rest. *)
Lemma isChannel_split (name channel sub : string) :
  isChannel name = (channel, sub) -> channel <> "" ->
  name = channel +:+ " " +:+ sub
  /\ (channel = "chan" \/ channel = "<-chan" \/ channel = "chan->").
Proof.
  unfold isChannel, Contains, SplitN2.
  destruct (String.index 0 " " name) as [i|] eqn:Hi; cbn [negb];
    [|intros H; now simplify_eq].
  destruct (existsb _ _) eqn:He; [|intros H; now simplify_eq].
  intros [= <- <-] _. split.
  - apply index_split in Hi. exact Hi.
  - cbn [existsb] in He. rewrite !orb_true_iff in He.
    destruct He as [He | [He | [He | He]]]; try discriminate;
      apply String.eqb_eq in He; auto.
Qed.

(** Rule (2), for each of the three prefixes. *)
Lemma scopeName_channel (channel x scope : string) :
  channel = "chan" \/ channel = "<-chan" \/ channel = "chan->" ->
  scopeName (channel +:+ " " +:+ x) scope = channel +:+ " " +:+ scopeName x scope.
Proof.
  intros [-> | [-> | ->]]; rewrite scopeName_unfold; destruct x; reflexivity.
Qed.

Lemma isLocalExpr_dotted (t : string) : Contains t "." = true -> isLocalExpr t = false.
Proof.
  intros H. unfold isLocalExpr. rewrite H.
  repeat match goal with |- context [if ?b then _ else _] => destruct b end; reflexivity.
Qed.

(** A name that holds a dot is left as it is. *)
Lemma scopeName_dotted (scope : string) (k : nat) :
  forall t, (String.length t < k)%nat -> Contains t "." = true -> scopeName t scope = t.
Proof.
  induction k as [|k IH]; intros t Hk Hdot; [lia |].
  rewrite scopeName_unfold.
  destruct (HasPrefix t "[]") eqn:Hp.
  - pose proof (slice_shorter t Hp) as Hs.
    apply prefix_split in Hp. cbn [String.length] in Hp.
    rewrite IH; [now rewrite <- Hp | lia |].
    rewrite Hp in Hdot. cbn [String.append] in Hdot.
    now rewrite !Contains_skip in Hdot by discriminate.
  - destruct (isChannel t) as [channel sub] eqn:Hc.
    destruct (String.eqb_spec channel "") as [-> | Hne]; cbn [negb].
    + now rewrite isLocalExpr_dotted.
    + pose proof (isChannel_sub_shorter _ _ _ Hc Hne) as Hs.
      destruct (isChannel_split _ _ _ Hc Hne) as [Ht Hch].
      rewrite IH; [now rewrite <- Ht | lia |].
      rewrite Ht in Hdot.
      destruct Hch as [-> | [-> | ->]]; cbn [String.append] in Hdot;
        now rewrite !Contains_skip in Hdot by discriminate.
Qed.

Lemma scopeName_idem_upto (scope : string) (k : nat) :
  forall name, (String.length name < k)%nat ->
    scopeName (scopeName name scope) scope = scopeName name scope.
Proof.
  induction k as [|k IH]; intros name Hk; [lia |].
  pose proof (scopeName_unfold name scope) as Hu.
  destruct (HasPrefix name "[]") eqn:Hp.
  - pose proof (slice_shorter name Hp) as Hs.
    rewrite Hu, scopeName_slice. f_equal. apply IH. lia.
  - destruct (isChannel name) as [channel sub] eqn:Hc.
    destruct (String.eqb_spec channel "") as [-> | Hne]; cbn [negb] in Hu.
    + destruct (isLocalExpr name).
      * rewrite Hu.
        apply (scopeName_dotted scope (S (String.length (scope +:+ "." +:+ name)))); [lia |].
        apply Contains_app_r. apply Contains_dot.
      * now rewrite !Hu.
    + pose proof (isChannel_sub_shorter _ _ _ Hc Hne) as Hs.
      destruct (isChannel_split _ _ _ Hc Hne) as [_ Hch].
      rewrite Hu, (scopeName_channel _ _ _ Hch). do 2 f_equal. apply IH. lia.
Qed.

(** X1. [scopeName] is idempotent: a name that was qualified for a scope
    is left as it is when it is qualified for that scope again. *)
Theorem scopeName_idempotent (name scope : string) :
  scopeName (scopeName name scope) scope = scopeName name scope.
Proof.
  apply (scopeName_idem_upto scope (S (String.length name))). lia.
Qed.

Lemma scopeName_peels_upto (scope : string) (k : nat) :
  forall name, (String.length name < k)%nat ->
    exists pre core,
      name = pre +:+ core
      /\ HasPrefix core "[]" = false /\ (isChannel core).1 = ""
      /\ scopeName name scope =
           pre +:+ (if isLocalExpr core then scope +:+ "." +:+ core else core).
Proof.
  induction k as [|k IH]; intros name Hk; [lia |].
  pose proof (scopeName_unfold name scope) as Hu.
  destruct (HasPrefix name "[]") eqn:Hp.
  - pose proof (slice_shorter name Hp) as Hs.
    destruct (IH (sliceFrom name 2)) as (pre & core & Hn & H1 & H2 & H3); [lia |].
    exists ("[]" +:+ pre), core. split; [|split; [|split]]; try assumption.
    + apply prefix_split in Hp. cbn [String.length] in Hp.
      rewrite Hp at 1. rewrite Hn. cbn [String.append]. reflexivity.
    + rewrite Hu, H3. cbn [String.append]. reflexivity.
  - destruct (isChannel name) as [channel sub] eqn:Hc.
    destruct (String.eqb_spec channel "") as [-> | Hne]; cbn [negb] in Hu.
    + exists "", name. rewrite Hc. now repeat split.
    + pose proof (isChannel_sub_shorter _ _ _ Hc Hne) as Hs.
      destruct (isChannel_split _ _ _ Hc Hne) as [Hname _].
      destruct (IH sub) as (pre & core & Hn & H1 & H2 & H3); [lia |].
      exists (channel +:+ " " +:+ pre), core. split; [|split; [|split]]; try assumption.
      * rewrite Hname at 1. rewrite Hn. now rewrite !append_assoc.
      * rewrite Hu, H3. now rewrite !append_assoc.
Qed.

(** X2. [scopeName] keeps the text of the name and inserts at most one
    qualifier: the name is a run of slice and channel prefixes followed by
    a core that is neither a slice nor a channel that [isChannel] knows,
    and the result is the same prefixes followed by the core, with
    [scope.] in front of it when [isLocalExpr] holds of the core. *)
Theorem scopeName_inserts_one_qualifier (name scope : string) :
  exists pre core,
    name = pre +:+ core
    /\ HasPrefix core "[]" = false /\ (isChannel core).1 = ""
    /\ scopeName name scope =
         pre +:+ (if isLocalExpr core then scope +:+ "." +:+ core else core).
Proof.
  apply (scopeName_peels_upto scope (S (String.length name))). lia.
Qed.

Lemma isChannel_star (x : string) : isChannel (String "*" x) = ("", "").
Proof.
  unfold isChannel, Contains, SplitN2. cbn [String.index String.prefix].
  destruct (ascii_dec " " "*") as [H | _]; [discriminate H |].
  destruct (String.index 0 " " x) as [j|]; reflexivity.
Qed.

(** X3. [scopeName] does not look through a pointer: the text of a pointer
    type without a dot is prefixed as a whole ([*T] becomes [scope.*T]),
    and one with a dot is left alone. *)
Theorem scopeName_pointer_not_entered (x scope : string) :
  scopeName ("*" +:+ x) scope =
    if Contains x "." then "*" +:+ x else scope +:+ "." +:+ "*" +:+ x.
Proof.
  cbn [String.append]. rewrite scopeName_plain.
  - unfold isLocalExpr.
    cbn [existsb String.eqb Ascii.eqb Bool.eqb orb andb HasPrefix String.prefix].
    rewrite Contains_skip by discriminate.
    now destruct (Contains x ".").
  - reflexivity.
  - now rewrite isChannel_star.
Qed.

(** X4. For a local identifier under slices and channels that are not
    send-only, rewriting the text that [exprString] writes is the same as
    writing the type with the identifier selected from the scope. *)
Theorem scopeName_agrees_with_selector (ls : list layer) (x scope : string) :
  forallb (fun l => negb (isSendOnly l)) ls = true ->
  HasPrefix x "[]" = false -> Contains x " " = false -> isLocalExpr x = true ->
  exists t,
    exprString (wrapLayers ls (Ident x)) = Some t
    /\ exprString (wrapLayers ls (SelectorExpr (Ident scope) x)) = Some (scopeName t scope).
Proof.
  intros Hls Hp Hsp Hloc. induction ls as [|l ls IH].
  - exists x. split; [reflexivity |]. cbn [wrapLayers fold_right exprString mbind option_bind].
    rewrite scopeName_plain; [now rewrite Hloc | exact Hp |].
    unfold isChannel. now rewrite Hsp.
  - cbn [forallb] in Hls. apply andb_true_iff in Hls as [Hl Hls].
    destruct (IH Hls) as (t & H1 & H2).
    destruct l as [|dir]; cbn [wrapLayers fold_right exprString].
    + fold (wrapLayers ls (Ident x)). fold (wrapLayers ls (SelectorExpr (Ident scope) x)).
      rewrite H1, H2. cbn [mbind option_bind].
      exists ("[]" +:+ t). split; [reflexivity |]. now rewrite scopeName_slice.
    + fold (wrapLayers ls (Ident x)). fold (wrapLayers ls (SelectorExpr (Ident scope) x)).
      rewrite H1, H2. cbn [mbind option_bind].
      exists (chanTypeString dir t). split; [reflexivity |].
      destruct dir; [discriminate Hl | |].
      * now rewrite scopeName_recv_chan.
      * now rewrite scopeName_chan.
Qed.

Lemma scopeName_agrees_with_selector_witness :
  exprString (wrapLayers [SliceOf; ChanOf RECV] (SelectorExpr (Ident "pkg") "Foo"))
  = Some "[]<-chan pkg.Foo"%string.
Proof.
  destruct (scopeName_agrees_with_selector [SliceOf; ChanOf RECV] "Foo" "pkg"
              eq_refl eq_refl eq_refl eq_refl) as (t & H1 & H2).
  injection H1 as <-. exact H2.
Defined.

Lemma scopeName_nonempty (name scope : string) : scopeName name scope <> "".
Proof.
  rewrite scopeName_unfold.
  destruct (HasPrefix name "[]"); [discriminate |].
  destruct (isChannel name) as [channel sub].
  destruct (String.eqb_spec channel "") as [-> | Hne]; cbn [negb].
  - destruct (isLocalExpr name) eqn:Hl.
    + destruct scope; discriminate.
    + intros ->. discriminate Hl.
  - destruct channel; [now elim Hne | discriminate].
Qed.

(** X5. [scopeName] never returns the empty string: the empty name is
    rewritten to [scope.]. So [AddScope] gives every [funcInfo] a receiver
    type, and [IsMethod] holds of its result, also for a function that is
    no method. *)
Theorem AddScope_always_method (fi : funcInfo) (scope : string) :
  scopeName "" scope = scope +:+ "."
  /\ recv_expr (AddScope fi scope) <> ""
  /\ IsMethod (AddScope fi scope) = true.
Proof.
  split; [reflexivity |]. split.
  - apply scopeName_nonempty.
  - unfold IsMethod. cbn [AddScope recv_expr].
    destruct (String.eqb_spec (scopeName (recv_expr fi) scope) "") as [H | H]; [|reflexivity].
    now apply scopeName_nonempty in H.
Qed.

Lemma countParams_scopeFields (ps : list field) (scope : string) (p : Z) :
  fold_left (fun p param =>
      if (length (names param) =? 0)%nat then (p + 1)%Z
      else (p + Z.of_nat (length (names param)))%Z) (scopeFields ps scope) p
  = fold_left (fun p param =>
      if (length (names param) =? 0)%nat then (p + 1)%Z
      else (p + Z.of_nat (length (names param)))%Z) ps p.
Proof.
  revert p. induction ps as [|f ps IH]; intros p; [reflexivity |].
  cbn [scopeFields map fold_left names]. apply IH.
Qed.

Lemma retTypes_scopeFields (rs : list field) (scope : string) (acc acc' : list string) :
  acc' = map (fun t => scopeName t scope) acc ->
  fold_left (fun results result =>
    let x := length (names result) in
    let x := if (x =? 0)%nat then 1%nat else x in
    results ++ replicate x (expr result)) (scopeFields rs scope) acc'
  = map (fun t => scopeName t scope)
      (fold_left (fun results result =>
         let x := length (names result) in
         let x := if (x =? 0)%nat then 1%nat else x in
         results ++ replicate x (expr result)) rs acc).
Proof.
  revert acc acc'. induction rs as [|r rs IH]; intros acc acc' ->; [reflexivity |].
  cbn [scopeFields map fold_left names expr]. apply IH.
  rewrite map_app. f_equal.
  generalize (if (length (names r) =? 0)%nat then 1%nat else length (names r)) as n.
  intros n. induction n as [|n IHn]; [reflexivity |]. cbn [replicate map]. now f_equal.
Qed.

(** X6. [AddScope] keeps the shape of the signature: the number of
    parameters that [countParams] counts, the names of the parameters and
    the variadic flag are unchanged, the result types are the old ones
    rewritten one by one, and the [export] name is dropped. *)
Theorem AddScope_keeps_arity (fi : funcInfo) (scope : string) :
  countParams (AddScope fi scope) = countParams fi
  /\ map names (params (AddScope fi scope)) = map names (params fi)
  /\ retTypes (AddScope fi scope) = map (fun t => scopeName t scope) (retTypes fi)
  /\ varidic (AddScope fi scope) = varidic fi
  /\ export (AddScope fi scope) = "".
Proof.
  split; [|split; [|split; [|split]]]; try reflexivity.
  - unfold countParams. cbn [AddScope params]. apply countParams_scopeFields.
  - cbn [AddScope params]. unfold scopeFields. rewrite map_map. reflexivity.
  - unfold retTypes. cbn [AddScope results]. now apply retTypes_scopeFields.
Qed.

End ScopeLaws.

(** ** More about the import marks *)

Module MarksLaws.
Import GoStrings Marks StringFacts.

(** X7. Marking an import with the mark it already carries changes
    nothing. *)
Theorem markImport_own_mark (name : string) (m : mark) :
  getMark name = Some m -> markImport name m = Some name.
Proof.
  destruct name as [|c rest]; [discriminate |]. cbn [getMark].
  destruct (Ascii.eqb_spec c "_") as [-> | H1]; [now intros [= <-] |].
  destruct (Ascii.eqb_spec c "@") as [-> | H2]; [now intros [= <-] |].
  destruct (Ascii.eqb_spec c "=") as [-> | H3]; [now intros [= <-] |].
  now intros [= <-].
Qed.

Lemma markImport_own_mark_witness :
  getMark "_os" = Some mockMark /\ markImport "_os" mockMark = Some "_os"%string.
Proof. split; [reflexivity | apply markImport_own_mark; reflexivity]. Defined.

(** X8. The last mark wins: a mock, test or replace mark put on a marked
    name gives what it gives on the name itself, and putting the same mark
    twice is putting it once. *)
Theorem markImport_last_wins (name marked : string) (m1 m2 : mark) :
  markImport name m1 = Some marked ->
  m2 = mockMark \/ m2 = testMark \/ m2 = replaceMark ->
  markImport marked m2 = markImport name m2
  /\ markImport marked m1 = Some marked.
Proof.
  intros H1 H2. unfold markImport in H1.
  destruct (String.eqb m1 noMark || String.eqb m1 normalMark) eqn:Hn.
  - injection H1 as <-. split; [reflexivity |]. unfold markImport. now rewrite Hn.
  - destruct (String.eqb m1 mockMark || String.eqb m1 testMark || String.eqb m1 replaceMark)
      eqn:Hs; [|discriminate].
    destruct name as [|c rest]; [discriminate |]. injection H1 as <-.
    assert (Hm1 : m1 = mockMark \/ m1 = testMark \/ m1 = replaceMark).
    { rewrite !orb_true_iff in Hs. destruct Hs as [[Hs | Hs] | Hs];
        apply String.eqb_eq in Hs; auto. }
    split.
    + destruct Hm1 as [-> | [-> | ->]], H2 as [-> | [-> | ->]]; reflexivity.
    + destruct Hm1 as [-> | [-> | ->]]; reflexivity.
Qed.

Lemma markImport_last_wins_witness :
  markImport "xos/exec" mockMark = Some "_os/exec"%string
  /\ markImport "_os/exec" testMark = markImport "xos/exec" testMark.
Proof.
  split; [reflexivity |].
  exact (proj1 (markImport_last_wins "xos/exec" "_os/exec" mockMark testMark eq_refl
                  (or_intror (or_introl eq_refl)))).
Defined.

(** X9. [markImport] panics exactly on an unknown mark, and on the empty
    name under the mock, test or replace mark; [getMark] panics exactly on
    the empty label. *)
Theorem markImport_panics_iff (name : string) (m : mark) :
  (markImport name m = None <->
     (m <> noMark /\ m <> normalMark /\ m <> mockMark /\ m <> testMark /\ m <> replaceMark)
     \/ ((m = mockMark \/ m = testMark \/ m = replaceMark) /\ name = ""))
  /\ (getMark name = None <-> name = "").
Proof.
  split.
  - unfold markImport.
    destruct (String.eqb_spec m noMark) as [-> | H0].
    { cbn [orb]. split; [discriminate |].
      intros [(H & _) | ([H | [H | H]] & _)]; [now elim H | discriminate H ..]. }
    destruct (String.eqb_spec m normalMark) as [-> | H1].
    { cbn [orb]. split; [discriminate |].
      intros [(_ & H & _) | ([H | [H | H]] & _)]; [now elim H | discriminate H ..]. }
    cbn [orb].
    destruct (String.eqb_spec m mockMark) as [-> | H2].
    { cbn [orb]. destruct name; split; try discriminate; auto.
      intros [(_ & _ & H & _) | (_ & H)]; [now elim H | discriminate H]. }
    destruct (String.eqb_spec m testMark) as [-> | H3].
    { cbn [orb]. destruct name; split; try discriminate; auto.
      intros [(_ & _ & _ & H & _) | (_ & H)]; [now elim H | discriminate H]. }
    destruct (String.eqb_spec m replaceMark) as [-> | H4].
    { cbn [orb]. destruct name; split; try discriminate; auto 10.
      intros [(_ & _ & _ & _ & H) | (_ & H)]; [now elim H | discriminate H]. }
    cbn [orb]. split; [auto 10 | reflexivity].
  - destruct name as [|c rest]; [now split |]. cbn [getMark].
    split; [|discriminate].
    repeat match goal with |- context [if ?b then _ else _] => destruct b end; discriminate.
Qed.

End MarksLaws.

(** ** Chains of [utils.Err] *)

Module ErrorsProps.
Import GoStrings Utils Errors StringFacts.

(** Every error is a root error under a list of context labels. *)
Lemma error_chain (e : error) :
  exists ctxs root, e = fold_right Err (errorString root) ctxs.
Proof.
  induction e as [msg | c e (ctxs & root & ->)].
  - now exists [], msg.
  - now exists (c :: ctxs), root.
Qed.

(** X10. [Context] of an [Err] is its own label followed by the labels of
    the [Err]s that it wraps, outermost first, joined by colons; the root
    error adds nothing. *)
Theorem Err_Context_joins_labels (c root : string) (ctxs : list string) :
  Context c (fold_right Err (errorString root) ctxs) = Join (c :: ctxs) ":".
Proof.
  revert c. induction ctxs as [|c' ctxs IH]; intros c; [reflexivity |].
  cbn [fold_right Context]. rewrite IH. reflexivity.
Qed.

(** X11. The wrappers are transparent: under any number of [Err]s,
    [Error] is the message of the root error, and [IsNotExist] is the
    verdict of [os.IsNotExist] on the root error. *)
Theorem Err_wrappers_transparent (osIsNotExist : error -> bool)
    (ctxs : list string) (root : string) :
  Error (fold_right Err (errorString root) ctxs) = root
  /\ IsNotExist osIsNotExist (fold_right Err (errorString root) ctxs)
     = osIsNotExist (errorString root).
Proof.
  induction ctxs as [|c ctxs [IH1 IH2]]; [now split |]. now split.
Qed.

End ErrorsProps.

(** ** More about the toggle state *)

Module ToggleLaws.
Import GoStrings Generated ToggleProps.

Section Props.
Context {C : Type}.
Implicit Types t : ToggleState C.

(** X12. After any sequence of calls of the control surface, the call made
    last decides what a dispatcher does: [MockAll(enabled)] sends every
    name to the mock or to the real implementation, [EnableMock] sends its
    names to the mock and [DisableMock] sends its names to the real
    implementation, whatever was set before, and both leave the other
    names where they were. *)
Theorem last_toggle_call_decides (cs : list toggleCall) :
  exists t, toggleCalls cs (initialToggles (C:=C)) = Done t
    /\ (forall enabled name, realSelected (MockAll enabled t) name = negb enabled)
    /\ (forall names, exists t',
          EnableMock names t = Done t'
          /\ forall name, realSelected t' name =
               if bool_decide (name ∈ names) then false else realSelected t name)
    /\ (forall names, exists t',
          DisableMock names t = Done t'
          /\ forall name, realSelected t' name =
               if bool_decide (name ∈ names) then true else realSelected t name).
Proof.
  destruct (toggleCalls_invariant (C:=C) cs initialToggles) as (t & Hrun & Hm & Hd).
  { split; eexists; reflexivity. }
  { intros n [H _]. discriminate. }
  exists t. split; [exact Hrun |]. split; [|split].
  - intros enabled name. unfold realSelected. cbn. now rewrite orb_false_r, andb_true_r.
  - intros names.
    destruct (EnableMock_spec names t Hm Hd) as (t' & Hr & _ & _ & Ham & _ & Hin & Hout).
    exists t'. split; [exact Hr |]. intros name. unfold realSelected. rewrite Ham.
    case_bool_decide as Hn.
    + destruct (Hin name Hn) as [-> ->]. now rewrite andb_false_r.
    + now destruct (Hout name Hn) as [-> ->].
  - intros names.
    destruct (DisableMock_spec names t Hm Hd) as (t' & Hr & _ & _ & Ham & _ & Hin & Hout).
    exists t'. split; [exact Hr |]. intros name. unfold realSelected. rewrite Ham.
    case_bool_decide as Hn.
    + destruct (Hin name Hn) as [-> ->]. now rewrite orb_true_r.
    + now destruct (Hout name Hn) as [-> ->].
Qed.

(** With the enabled set nil, [DisableMock] still runs: [delete] on a nil
    map does nothing. *)
Lemma DisableMock_suspended (names : list string) :
  forall (am : bool) (d : gmap string bool) (c : option C),
    exists d',
      DisableMock names
        {| allMocked := am; enabledMocks := None; disabledMocks := Some d; ctrl := c |}
      = Done {| allMocked := am; enabledMocks := None; disabledMocks := Some d'; ctrl := c |}
      /\ (forall n, n ∈ names -> mapGet (Some d') n = true)
      /\ (forall n, n ∉ names -> mapGet (Some d') n = mapGet (Some d) n).
Proof.
  induction names as [|name rest IH]; intros am d c.
  - exists d. split; [reflexivity |]. split; [|tauto].
    intros n Hn. now apply not_elem_of_nil in Hn.
  - cbn [DisableMock mapSet mapDelete enabledMocks disabledMocks allMocked ctrl].
    destruct (IH am (<[name := true]> d) c) as (d' & Hr & Hin & Hout).
    exists d'. split; [exact Hr |]. split.
    + intros n Hn. destruct (decide (n ∈ rest)) as [Hi | Hi]; [now apply Hin |].
      apply elem_of_cons in Hn as [-> | Hn]; [|tauto].
      rewrite (Hout name Hi), mapGet_set. now rewrite decide_True.
    + intros n Hn. apply not_elem_of_cons in Hn as [Hne Hr'].
      rewrite (Hout n Hr'), mapGet_set. now rewrite decide_False by congruence.
Qed.

(** X13. The control surface inside [callInits]: an init that calls
    [EnableMock] on a name panics, for the enabled set is nil there; an
    init that calls [DisableMock] runs, and what it disabled stays
    disabled after the bracket, which puts back the flag and the enabled
    set only. *)
Theorem toggles_inside_inits (names : list string) t :
  is_Some (disabledMocks t) ->
  (names <> [] -> callInits [EnableMock names] t = Panic (suspended t))
  /\ exists t',
       callInits [DisableMock names] t = Done t'
       /\ allMocked t' = allMocked t /\ enabledMocks t' = enabledMocks t
       /\ (forall n, n ∈ names ->
             mapGet (disabledMocks t') n = true /\ realSelected t' n = true)
       /\ (forall n, n ∉ names ->
             mapGet (disabledMocks t') n = mapGet (disabledMocks t) n).
Proof.
  intros [d Hd]. split.
  - intros Hne. destruct names as [|name rest]; [now elim Hne |]. reflexivity.
  - destruct t as [am e dm c]. cbn [disabledMocks] in Hd. subst dm.
    destruct (DisableMock_suspended names false d c) as (d' & Hr & Hin & Hout).
    unfold callInits. cbn [runInits allMocked enabledMocks disabledMocks ctrl].
    rewrite Hr. eexists. split; [reflexivity |].
    cbn [allMocked enabledMocks disabledMocks ctrl].
    split; [reflexivity |]. split; [reflexivity |]. split.
    + intros n Hn. split; [now apply Hin |]. unfold realSelected.
      cbn [disabledMocks]. rewrite (Hin n Hn). apply orb_true_r.
    + exact Hout.
Qed.

End Props.

Lemma toggles_inside_inits_witness :
  is_Some (disabledMocks (MockAll true (initialToggles (C:=unit))))
  /\ exists t' : ToggleState unit,
       callInits [DisableMock ["Add"]] (MockAll true initialToggles) = Done t'
       /\ realSelected t' "Add" = true.
Proof.
  assert (H : is_Some (disabledMocks (MockAll true (initialToggles (C:=unit)))))
    by (eexists; reflexivity).
  split; [exact H |].
  destruct (toggles_inside_inits (C:=unit) ["Add"] (MockAll true initialToggles) H)
    as (_ & t' & Hr & _ & _ & Hin & _).
  exists t'. split; [exact Hr |]. apply Hin. apply list_elem_of_here.
Defined.

End ToggleLaws.

(** ** More about the function declarations in [file] *)

Module FileLaws.
Import GoStrings Dispatch StringFacts RenderProps FileProps FileTests MoreExamples.

Lemma realInitName_inj : Inj (=) (=) realInitName.
Proof.
  intros a b H. unfold realInitName, fmtd in H. cbn [String.append] in H.
  injection H as H. now apply pretty_Z_inj in H.
Qed.

(** One declaration: what [file] does to the generator and to the inits. *)
Lemma fileFuncDecl_state (m : mockGen) (inits : list string) (d : FuncDecl) w :
  fileFuncDecl m inits d = Some w ->
  initCount (value w).1 = (initCount m + (if isPlainInit d then 1 else 0))%Z
  /\ (value w).2 =
       inits ++ (if isPlainInit d && Gen.callInits m then [realInitName (initCount m)] else [])
  /\ Gen.callInits (value w).1 = Gen.callInits m
  /\ mockPrototypes (value w).1 = mockPrototypes m
  /\ extFunctions (value w).1 = extFunctions m ++ (if isExternal d then [Name d] else []).
Proof.
  unfold fileFuncDecl, isPlainInit, isExternal.
  destruct (funcInfoOf d) as [[[fi recorder] reg]|] eqn:Hfi; [|discriminate].
  destruct (funcInfoOf_wf d fi recorder reg Hfi) as (_ & _ & Hname).
  cbn [mbind option_bind]. intros [= <-].
  destruct (String.eqb (name fi) "init" && negb (IsMethod fi)) eqn:Hinit.
  - assert (Hex : IsExported (Name d) = false).
    { apply andb_true_iff in Hinit as [Hn _]. apply String.eqb_eq in Hn.
      rewrite <- Hname, Hn. reflexivity. }
    rewrite Hex. cbn [andb].
    destruct reg; cbn [withRecorders Gen.callInits initCount];
      destruct (Gen.callInits m) eqn:Hci; wsimpl;
      cbn [withInitCount initCount Gen.callInits mockPrototypes extFunctions withRecorders
           name withName];
      rewrite ?app_nil_r; repeat split; first [reflexivity | assumption].
  - destruct reg, (bool_decide (Body d = None)), (mockPrototypes m) eqn:Hmp,
      (IsExported (Name d));
      cbn [andb withRecorders mockPrototypes] in *; rewrite ?Hmp; wsimpl;
      cbn [withInitCount initCount Gen.callInits mockPrototypes extFunctions withRecorders
           withExtFunctions];
      rewrite ?app_nil_r, ?Z.add_0_r; repeat split; first [reflexivity | assumption].
Qed.

Lemma fileFuncDecls_state (ds : list FuncDecl) :
  forall (m : mockGen) (inits : list string) w,
    fileFuncDecls m inits ds = Some w ->
    let k := Z.of_nat (length (filter isPlainInit ds)) in
    initCount (value w).1 = (initCount m + k)%Z
    /\ (value w).2 =
         inits ++ (if Gen.callInits m then realInitName <$> seqZ (initCount m) k else [])
    /\ Gen.callInits (value w).1 = Gen.callInits m
    /\ extFunctions (value w).1 = extFunctions m ++ (Name <$> filter isExternal ds).
Proof.
  induction ds as [|d ds IH]; intros m inits w.
  - intros [= <-]. cbn [filter list_filter length value fst snd mret W_ret fmap list_fmap].
    change (Z.of_nat 0) with 0%Z. rewrite Z.add_0_r, app_nil_r.
    replace (if Gen.callInits m then realInitName <$> seqZ (initCount m) 0 else [])
      with (@nil string) by (now destruct (Gen.callInits m)).
    now rewrite app_nil_r.
  - cbn [fileFuncDecls]. destruct (fileFuncDecl m inits d) as [w1|] eqn:H1;
      cbn [mbind option_bind]; [|discriminate].
    destruct (fileFuncDecls (value w1).1 (value w1).2 ds) as [w2|] eqn:H2;
      cbn [mbind option_bind]; [|discriminate].
    intros [= <-]. cbn [value].
    destruct (fileFuncDecl_state m inits d w1 H1) as (Hc1 & Hi1 & Hf1 & _ & He1).
    destruct (IH _ _ _ H2) as (Hc2 & Hi2 & Hf2 & He2).
    cbv zeta. rewrite Hc2, Hi2, Hf2, He2, Hc1, Hi1, Hf1, He1.
    rewrite !filter_cons.
    split; [|split; [|split]].
    + destruct (isPlainInit d);
        [rewrite decide_True by exact I | rewrite decide_False by (intros [])];
        cbn [length]; lia.
    + destruct (isPlainInit d) eqn:Hd.
      * rewrite decide_True by exact I. cbn [length andb].
        destruct (Gen.callInits m); [|now rewrite !app_nil_r].
        rewrite <- app_assoc. f_equal.
        rewrite (seqZ_cons (initCount m)) by lia. cbn [fmap list_fmap app]. f_equal.
        f_equal. f_equal; lia.
      * rewrite decide_False by (intros []). cbn [andb]. rewrite app_nil_r, Z.add_0_r.
        reflexivity.
    + reflexivity.
    + destruct (isExternal d).
      * rewrite decide_True by exact I. now rewrite <- app_assoc.
      * rewrite decide_False by (intros []). now rewrite app_nil_r.
Qed.

(** X14. Over the function declarations of a file, the [init] functions
    are renamed [_real_init_<n>] with consecutive numbers, from the count
    the generator carries, which grows by as many; when the inits are to
    be called they are collected under these names in the order of the
    declarations, and no two of the names are the same. *)
Theorem inits_numbered_in_order (m : mockGen) (inits : list string) (ds : list FuncDecl) w :
  fileFuncDecls m inits ds = Some w ->
  let k := Z.of_nat (length (filter isPlainInit ds)) in
  initCount (value w).1 = (initCount m + k)%Z
  /\ (value w).2 =
       inits ++ (if Gen.callInits m then realInitName <$> seqZ (initCount m) k else [])
  /\ NoDup (realInitName <$> seqZ (initCount m) k).
Proof.
  intros H k. destruct (fileFuncDecls_state ds m inits w H) as (H1 & H2 & _).
  split; [exact H1 |]. split; [exact H2 |].
  apply NoDup_fmap_2; [apply realInitName_inj | apply NoDup_seqZ].
Qed.

Lemma inits_numbered_in_order_witness :
  exists w,
    fileFuncDecls gen0 [] [initDecl; addDecl; initDecl] = Some w
    /\ (value w).2 = ["_real_init_0"; "_real_init_1"]%string
    /\ initCount (value w).1 = 2%Z.
Proof.
  destruct (fileFuncDecls gen0 [] [initDecl; addDecl; initDecl]) as [w|] eqn:H;
    [|vm_compute in H; discriminate H].
  exists w. split; [reflexivity |].
  destruct (inits_numbered_in_order gen0 [] [initDecl; addDecl; initDecl] w H)
    as (H1 & H2 & _).
  rewrite H1, H2. split; reflexivity.
Defined.



End FileLaws.

(** ** The signature that [file] reads and the mock declares *)

Module SignatureProps.
Import GoStrings Dispatch StringFacts RenderProps MoreExamples.

Lemma declFields_names (l : list Field) (ps : list field) :
  declFields l = Some ps -> map names ps = map (fun fld : Field => fld.1.1) l.
Proof.
  unfold declFields. intros H. apply mapM_Some_1 in H.
  induction H as [|[[ns ty] tag] f l ps Hf _ IH]; [reflexivity |].
  cbn [map fst]. rewrite IH. f_equal.
  destruct (exprString ty); [|discriminate]. cbn [mbind option_bind] in Hf.
  injection Hf as Hf. now subst f.
Qed.

Lemma fold_left_last {A B} (f : A -> B) (l : list A) (b : B) :
  fold_left (fun _ x => f x) l b = match last l with Some x => f x | None => b end.
Proof.
  revert b. induction l as [|x l IH]; intros b; [reflexivity |].
  cbn [fold_left]. rewrite IH. destruct l as [|y l]; [reflexivity |].
  rewrite last_cons_cons. destruct (last (y :: l)) eqn:E; [reflexivity |].
  apply last_None in E. discriminate E.
Qed.

(** X16. The [funcInfo] that [file] builds for a declaration has the name
    of the declaration and the names of its parameters, field by field;
    it is variadic exactly when the last parameter is an ellipsis; and for
    a declaration without receiver it is no method, its recorder is
    [_package_Rec], and no recorder is registered. *)
Theorem funcInfoOf_reads_declaration (d : FuncDecl) fi recorder reg :
  funcInfoOf d = Some (fi, recorder, reg) ->
  name fi = Name d
  /\ map names (params fi) = map (fun fld : Field => fld.1.1) (Params d)
  /\ varidic fi = match last (Params d) with
                  | Some p => isEllipsis p.1.2
                  | None => false
                  end
  /\ (Recv d = None -> recorder = "_package_Rec" /\ reg = None /\ IsMethod fi = false).
Proof.
  unfold funcInfoOf. intros H.
  destruct (match Recv d with None => _ | Some _ => _ end) as [[[[rn re] rc] rg]|] eqn:Hr;
    [|discriminate].
  cbn [mbind option_bind] in H.
  destruct (declFields (Params d)) as [ps|] eqn:Hps; [|discriminate].
  cbn [mbind option_bind] in H.
  destruct (match Results d with None => _ | Some _ => _ end) as [rs|]; [|discriminate].
  cbn [mbind option_bind] in H. injection H as <- <- <-.
  cbn [name params varidic]. split; [reflexivity |].
  split; [now apply declFields_names |].
  split; [apply fold_left_last |].
  intros Hn. rewrite Hn in Hr. injection Hr as <- <- <- <-. now repeat split.
Qed.

Lemma funcInfoOf_reads_declaration_witness :
  funcInfoOf logfDecl = Some (logfInfo, "_Logger_Rec"%string, Some "*Logger"%string)
  /\ varidic logfInfo = true.
Proof.
  split; [reflexivity |].
  exact (proj1 (proj2 (proj2
           (funcInfoOf_reads_declaration logfDecl logfInfo "_Logger_Rec" (Some "*Logger")
              eq_refl)))).
Defined.

Lemma countParams_fold_sum (ps : list field) (p : Z) :
  fold_left (fun p param =>
      if (length (names param) =? 0)%nat then (p + 1)%Z
      else (p + Z.of_nat (length (names param)))%Z) ps p
  = (p + Z.of_nat (sum_list (map (fun f => Nat.max 1 (length (names f))) ps)))%Z.
Proof.
  revert p. induction ps as [|f ps IH]; intros p.
  - cbn. lia.
  - cbn [fold_left map]. rewrite IH.
    change (sum_list (?x :: ?l)) with (x + sum_list l)%nat.
    destruct (length (names f)) as [|n]; cbn [Nat.eqb]; lia.
Qed.

(** X17. The number that [writeParams] returns after numbering the
    parameters is the number that [countParams] computes: one for each
    name of a parameter field, and one for a field without names. *)
Theorem writeParams_counts_names (fi : funcInfo) :
  value (writeParams fi) = countParams fi
  /\ countParams fi =
       Z.of_nat (sum_list (map (fun f => Nat.max 1 (length (names f))) (params fi))).
Proof.
  split; [apply writeParams_countParams |].
  unfold countParams. rewrite countParams_fold_sum. lia.
Qed.

End SignatureProps.

(** ** More about what a generated dispatcher does *)

Module ExecLaws.
Import GoStrings Dispatch StringFacts RenderProps ExecProps MoreExamples.

Section Running.
Context {C : Type}.
Variable ctrlCall : C -> val -> string -> list val -> C * option (list val).
Variable assertType : val -> string -> option val.
Variable zeroValue : string -> val.

Implicit Types (s : State (C:=C)).

(** The dispatcher proper of a function without results, when the real
    implementation is selected. *)
Lemma dispatcher_forwards_void real (fi : funcInfo) pm recv ps s :
  wfInfo fi -> realDisabled fi = false -> results fi = [] ->
  length ps = Z.to_nat (countParams fi) ->
  realSelected (toggles s) (scopedNameOf fi) = true ->
  match Dispatch.execBody ctrlCall assertType zeroValue real pm
          (dispatcherBody fi (countParams fi)) (entry recv ps) s with
  | Continue _ s' => Returned [] s'
  | Exit o => o
  end =
  match real ("_real_" +:+ name fi) (if IsMethod fi then Some recv else None) ps s with
  | Returned _ s' => Returned [] s'
  | o => o
  end.
Proof.
  intros Hwf Hd Hres Hlen Hsel. unfold dispatcherBody. rewrite Hd.
  cbn [app Dispatch.execBody Dispatch.execStmt]. rewrite Hsel.
  rewrite (evalArgs_pass fi (entry recv ps) Hwf Hlen). cbn [f_recv f_params entry].
  rewrite Hres. cbn [length Nat.ltb Nat.leb].
  now destruct (real _ _ _ _).
Qed.

(** X18. For a declaration without results, when the real implementation
    is selected, a call of the dispatcher is the call of the [_real_]
    implementation with the same arguments, after which it returns
    nothing; a panic of the implementation passes through. *)
Theorem void_dispatcher_forwards real (d : FuncDecl) fi recorder reg recv ps s :
  funcInfoOf d = Some (fi, recorder, reg) ->
  results fi = [] ->
  length ps = Z.to_nat (countParams fi) ->
  realSelected (toggles s) (scopedNameOf fi) = true ->
  Dispatch.callMock ctrlCall assertType zeroValue real (mockFuncs fi) recv ps s =
    match real ("_real_" +:+ Name d) (if IsMethod fi then Some recv else None) ps s with
    | Returned _ s' => Returned [] s'
    | o => o
    end.
Proof.
  intros Hfi Hres Hlen Hsel.
  destruct (funcInfoOf_wf d fi recorder reg Hfi) as (Hwf & Hd & Hname).
  rewrite (callMock_dispatcher ctrlCall assertType zeroValue real fi recv ps s Hwf Hlen).
  rewrite (dispatcher_forwards_void real fi _ (receiverOf fi recv) ps s Hwf Hd Hres Hlen Hsel).
  rewrite Hname, Hres. unfold receiverOf.
  destruct (IsMethod fi); now destruct (real _ _ _ _).
Qed.

(** X19. A mocked call never runs the real implementation: whatever the
    real implementations are, the call comes to the same. *)
Theorem mocked_call_ignores_real real1 real2 (fi : funcInfo) recv ps cargs (c : C) s :
  wfInfo fi -> mocked fi s -> ctrl (toggles s) = Some c ->
  length ps = Z.to_nat (countParams fi) -> passes fi ps cargs ->
  Dispatch.callMock ctrlCall assertType zeroValue real1 (mockFuncs fi) recv ps s
  = Dispatch.callMock ctrlCall assertType zeroValue real2 (mockFuncs fi) recv ps s.
Proof.
  intros Hwf Hmock Hc Hlen Hpass.
  rewrite (callMock_mocked ctrlCall assertType zeroValue real1 fi recv ps cargs c s)
    by assumption.
  now rewrite (callMock_mocked ctrlCall assertType zeroValue real2 fi recv ps cargs c s)
    by assumption.
Qed.

(** X20. A mocked call of a function without results calls the controller
    once and returns nothing, whatever list the controller answers. *)
Theorem mocked_void_drops_answer real (fi : funcInfo) recv ps cargs (c c' : C) rets s :
  wfInfo fi -> mocked fi s -> ctrl (toggles s) = Some c ->
  length ps = Z.to_nat (countParams fi) -> passes fi ps cargs ->
  results fi = [] ->
  ctrlCall c (receiverOf fi recv) (name fi) cargs = (c', Some rets) ->
  Dispatch.callMock ctrlCall assertType zeroValue real (mockFuncs fi) recv ps s
  = Returned []
      {| toggles := SetController (Some c') (toggles s);
         calls := calls s ++ [(receiverOf fi recv, name fi, cargs)] |}.
Proof.
  intros Hwf Hmock Hc Hlen Hpass Hres Hans.
  rewrite (callMock_mocked ctrlCall assertType zeroValue real fi recv ps cargs c s)
    by assumption.
  unfold Dispatch.afterCall. rewrite Hans, (retTypes_nil fi Hres).
  rewrite decide_True by (cbn [length]; lia). now rewrite zip_with_nil_r.
Qed.

(** X21. A mocked call of a variadic function without variadic arguments
    (the variadic parameter is nil) hands the controller the fixed
    arguments only, as a call with an empty slice does. *)
Theorem variadic_nil_passes_fixed real (fi : funcInfo) recv fixed (c : C) s :
  wfInfo fi -> varidic fi = true -> mocked fi s -> ctrl (toggles s) = Some c ->
  length fixed = Z.to_nat (countParams fi - 1) ->
  Dispatch.callMock ctrlCall assertType zeroValue real (mockFuncs fi) recv (fixed ++ [VNil]) s
  = Dispatch.afterCall ctrlCall assertType zeroValue fi (receiverOf fi recv) fixed c s
  /\ Dispatch.callMock ctrlCall assertType zeroValue real (mockFuncs fi) recv
       (fixed ++ [VSlice []]) s
     = Dispatch.callMock ctrlCall assertType zeroValue real (mockFuncs fi) recv
         (fixed ++ [VNil]) s.
Proof.
  intros Hwf Hv Hmock Hc Hlen.
  assert (Hl : forall v, length (fixed ++ [v]) = Z.to_nat (countParams fi)).
  { intros v. specialize (Hwf Hv). rewrite length_app. cbn [length]. lia. }
  rewrite (callMock_mocked ctrlCall assertType zeroValue real fi recv (fixed ++ [VNil]) fixed c s);
    try assumption; [|apply Hl | now constructor].
  split; [reflexivity |].
  rewrite (callMock_mocked ctrlCall assertType zeroValue real fi recv (fixed ++ [VSlice []])
             (fixed ++ []) c s); try assumption; [|apply Hl | now constructor].
  now rewrite app_nil_r.
Qed.

End Running.

Lemma void_dispatcher_forwards_witness :
  funcInfoOf resetDecl = Some (resetInfo, "_package_Rec"%string, None)
  /\ callMock answer99 assertBasic zeroBasic realOne (mockFuncs resetInfo) VNil [] unmocked
     = Returned [] unmocked.
Proof.
  split; [reflexivity |].
  exact (void_dispatcher_forwards answer99 assertBasic zeroBasic realOne
           resetDecl resetInfo "_package_Rec" None VNil [] unmocked
           eq_refl eq_refl eq_refl eq_refl).
Defined.

Lemma logfInfo_wf : wfInfo logfInfo.
Proof. intros _. vm_compute. discriminate. Qed.

Lemma mocked_call_ignores_real_witness :
  callMock answer99 assertBasic zeroBasic realAdd (mockFuncs logfInfo)
    (VObject "*Logger" 1) ([VInt 2; VString "%d"] ++ [VSlice [VInt 7]]) allMockedState
  = callMock answer99 assertBasic zeroBasic realOne (mockFuncs logfInfo)
      (VObject "*Logger" 1) ([VInt 2; VString "%d"] ++ [VSlice [VInt 7]]) allMockedState.
Proof.
  apply (mocked_call_ignores_real answer99 assertBasic zeroBasic realAdd realOne
           logfInfo (VObject "*Logger" 1) ([VInt 2; VString "%d"] ++ [VSlice [VInt 7]])
           ([VInt 2; VString "%d"] ++ [VInt 7]) 0%nat allMockedState).
  - exact logfInfo_wf.
  - right. reflexivity.
  - reflexivity.
  - reflexivity.
  - now constructor.
Defined.

Lemma mocked_void_drops_answer_witness :
  callMock answer99 assertBasic zeroBasic realOne (mockFuncs resetInfo) VNil []
    allMockedState
  = Returned []
      {| toggles := SetController (Some 1%nat) (toggles allMockedState);
         calls := [(pkgMockValue, "Reset"%string, [])] |}.
Proof.
  apply (mocked_void_drops_answer answer99 assertBasic zeroBasic realOne
           resetInfo VNil [] [] 0%nat 1%nat [VInt 99; VString "oops"] allMockedState).
  - intros H. discriminate H.
  - right. reflexivity.
  - reflexivity.
  - reflexivity.
  - now constructor.
  - reflexivity.
  - reflexivity.
Defined.

Lemma variadic_nil_passes_fixed_witness :
  callMock answer99 assertBasic zeroBasic realOne (mockFuncs logfInfo)
    (VObject "*Logger" 1) ([VInt 2; VString "done"] ++ [VNil]) allMockedState
  = afterCall answer99 assertBasic zeroBasic logfInfo
      (receiverOf logfInfo (VObject "*Logger" 1)) [VInt 2; VString "done"] 0%nat
      allMockedState.
Proof.
  refine (proj1 (variadic_nil_passes_fixed answer99 assertBasic zeroBasic realOne
                   logfInfo (VObject "*Logger" 1) [VInt 2; VString "done"] 0%nat
                   allMockedState logfInfo_wf eq_refl _ eq_refl eq_refl)).
  right. reflexivity.
Defined.

End ExecLaws.

(** ** The recorder that [writeRecorder] writes *)

Module RecorderProps.
Import GoStrings Dispatch StringFacts RenderProps ExecProps Recorder MoreExamples.

(** The text that [writeRecorder] writes is the concrete syntax of
    [recorderFunc]. *)
Lemma writeRecorder_renders (fi : funcInfo) (recorder : string) :
  text (writeRecorder fi recorder) = renderRecorder (recorderFunc fi recorder).
Proof.
  unfold writeRecorder, renderRecorder, recorderFunc, recorderParams.
  cbn [rRecorder rName rParams rBody].
  destruct (varidic fi), (0 <? countParams fi)%Z, (1 <? countParams fi)%Z.
  all: cbn [fold_right]; unfold renderRStmt, renderCtrlArgs, pList.
  all: wnorm.
  all: reflexivity.
Qed.

Lemma recorderCall_passes (fi : funcInfo) (recorder : string) (mock : val) ps cargs :
  wfInfo fi -> length ps = Z.to_nat (countParams fi) -> passes fi ps cargs ->
  recorderCall (recorderFunc fi recorder) mock ps = Some (mock, name fi, cargs).
Proof.
  intros Hwf Hlen Hpass. unfold recorderCall, recorderFunc. cbn [rBody].
  destruct Hpass as [ps Hv | fixed vs Hv | fixed Hv]; rewrite Hv.
  - cbn [execRBody execRStmt]. rewrite paramsUpTo_all by (cbn [entry f_params]; lia).
    reflexivity.
  - specialize (Hwf Hv). rewrite length_app in Hlen. cbn [length] in Hlen.
    cbn [execRBody execRStmt].
    rewrite paramsUpTo_take by (cbn [entry f_params]; rewrite length_app; cbn [length]; lia).
    cbn [entry f_params].
    replace (Z.to_nat (countParams fi - 1)) with (length fixed) by lia.
    rewrite take_app_length.
    rewrite (paramAt_last (entry mock (fixed ++ [VSlice vs])) fixed (VSlice vs) (countParams fi));
      [| reflexivity | lia | lia].
    reflexivity.
  - specialize (Hwf Hv). rewrite length_app in Hlen. cbn [length] in Hlen.
    cbn [execRBody execRStmt].
    rewrite paramsUpTo_take by (cbn [entry f_params]; rewrite length_app; cbn [length]; lia).
    cbn [entry f_params].
    replace (Z.to_nat (countParams fi - 1)) with (length fixed) by lia.
    rewrite take_app_length.
    rewrite (paramAt_last (entry mock (fixed ++ [VNil])) fixed VNil (countParams fi));
      [| reflexivity | lia | lia].
    reflexivity.
Qed.

Section Agreement.
Context {C : Type}.
Variable ctrlCall : C -> val -> string -> list val -> C * option (list val).
Variable assertType : val -> string -> option val.
Variable zeroValue : string -> val.
Variable real : string -> option val -> list val -> State (C:=C) -> Outcome (C:=C).

(** X22. The recorder and the dispatcher of a function agree: the text
    that [writeRecorder] writes is the syntax of the recorder method; for
    the same parameters, the recorder hands [RecordCall] the method name
    and the argument list (the variadic arguments one by one after the
    fixed ones) that the mocked dispatcher hands [Call]. *)
Theorem recorder_matches_dispatcher (fi : funcInfo) (recorder : string)
    (recv mock : val) ps cargs (c : C) (s : State (C:=C)) :
  wfInfo fi -> mocked fi s -> ctrl (toggles s) = Some c ->
  length ps = Z.to_nat (countParams fi) -> passes fi ps cargs ->
  text (writeRecorder fi recorder) = renderRecorder (recorderFunc fi recorder)
  /\ recorderCall (recorderFunc fi recorder) mock ps = Some (mock, name fi, cargs)
  /\ exists s',
       outcomeState
         (Dispatch.callMock ctrlCall assertType zeroValue real (mockFuncs fi) recv ps s)
       = Some s'
       /\ calls s' = calls s ++ [(receiverOf fi recv, name fi, cargs)].
Proof.
  intros Hwf Hmock Hc Hlen Hpass.
  split; [apply writeRecorder_renders |].
  split; [now apply recorderCall_passes |].
  rewrite (callMock_mocked ctrlCall assertType zeroValue real fi recv ps cargs c s)
    by assumption.
  unfold Dispatch.afterCall.
  destruct (ctrlCall c (receiverOf fi recv) (name fi) cargs) as [c' [rets|]].
  - destruct (decide _); eexists; split; reflexivity.
  - eexists; split; reflexivity.
Qed.

End Agreement.

Lemma recorder_matches_dispatcher_witness :
  recorderCall (recorderFunc logfInfo "_Logger_Rec") (VObject "*Logger" 1)
    ([VInt 2; VString "%d"] ++ [VSlice [VInt 7]])
  = Some (VObject "*Logger" 1, "Logf"%string, [VInt 2; VString "%d"] ++ [VInt 7]).
Proof.
  refine (proj1 (proj2 (recorder_matches_dispatcher answer99 assertBasic zeroBasic realAdd
                          logfInfo "_Logger_Rec" (VObject "*Logger" 1) (VObject "*Logger" 1)
                          ([VInt 2; VString "%d"] ++ [VSlice [VInt 7]])
                          ([VInt 2; VString "%d"] ++ [VInt 7]) 0%nat allMockedState
                          _ _ eq_refl eq_refl _))).
  - intros _. vm_compute. discriminate.
  - right. reflexivity.
  - now constructor.
Defined.

(** The recorder of [Logf], as written. *)
Example recorder_of_Logf :
  text (writeRecorder logfInfo "_Logger_Rec") =
    "func (_mr *_Logger_Rec) Logf(p0, p1 interface{}, p2 ...interface{}) *gomock.Call {" +:+ nl +:+
    tab +:+ "args := append([]interface{}{p0, p1}, p2...)" +:+ nl +:+
    tab +:+ "return _ctrl.RecordCall(_mr.mock, " +:+ quoted "Logf" +:+ ", args...)" +:+ nl +:+
    "}" +:+ nl.
Proof. vm_compute. reflexivity. Qed.

End RecorderProps.

(** ** The text of a hash *)

Module HashTextProps.
Import GoStrings Utils Cache StringFacts CacheProps HexText.

Lemma hexDigit_isHex (n : nat) : isHexDigit (hexDigit n) = true.
Proof.
  unfold hexDigit.
  do 16 (destruct n as [|n]; [reflexivity |]).
  cbn. now destruct n.
Qed.

Lemma EncodeToString_hex (src : string) :
  String.length (EncodeToString src) = (2 * String.length src)%nat
  /\ allHex (EncodeToString src) = true.
Proof.
  induction src as [|c rest [IH1 IH2]]; [now split |].
  cbn [EncodeToString String.length allHex]. rewrite IH1, IH2, !hexDigit_isHex.
  split; [lia | reflexivity].
Qed.

Section KeyProps.
Variable jsonString : string -> string.
Variable cacheHashSum : string -> string.

(** X23. Whatever the memo holds, [Hash] returns lower-case hexadecimal
    text, two digits for each byte of the digest of the key's encoding. *)
Theorem Hash_is_hex_text (k : CacheFileKey) (t : trace) :
  keyOK jsonString cacheHashSum k ->
  let h := (Hash jsonString cacheHashSum k t).1.1 in
  String.length h = (2 * String.length (cacheHashSum (jsonEncode jsonString k)))%nat
  /\ allHex h = true.
Proof.
  intros Hk h. subst h. rewrite Hash_value by exact Hk. apply EncodeToString_hex.
Qed.

End KeyProps.

Lemma Hash_is_hex_text_witness :
  let k := {| Self := "cache"; Op := "mock"; Files := Some ["f1"]; hash := "" |} in
  (Hash id (fun _ => "AZ"%string) k []).1.1 = "415a"%string
  /\ String.length (Hash id (fun _ => "AZ"%string) k []).1.1 = 4%nat.
Proof.
  intros k. split; [reflexivity |].
  exact (proj1 (Hash_is_hex_text id (fun _ => "AZ"%string) k [] (or_introl eq_refl))).
Defined.

End HashTextProps.

(** ** Package names *)

Module PkgNamesProps.
Import GoStrings Utils StringFacts ScopeLaws PkgNames MoreExamples.

(** *** [lookupImportName] *)

Section Lookup.
Context {World : Type}.
Variable goListName : World -> string -> World * (string + error).

#[local] Abbreviation lookupAlternates := (lookupAlternates goListName).
#[local] Abbreviation lookupImportName := (lookupImportName goListName).
#[local] Abbreviation AllFail := (AllFail goListName).

Lemma lookupAlternates_fail (alts : list string) (w w' : World) :
  AllFail w alts w' -> lookupAlternates w alts = (w', None).
Proof.
  induction 1 as [|w p w1 e rest w2 Hp _ IH]; [reflexivity |].
  cbn [PkgNames.lookupAlternates]. now rewrite Hp.
Qed.

Lemma lookupAlternates_first (failed : list string) :
  forall (w w2 w3 : World) p rest name,
    AllFail w failed w2 -> goListName w2 p = (w3, inl name) ->
    lookupAlternates w (failed ++ p :: rest) = (w3, Some name).
Proof.
  induction failed as [|q failed IH]; intros w w2 w3 p rest name Hf Hp.
  - inversion Hf; subst. cbn [app PkgNames.lookupAlternates]. now rewrite Hp.
  - inversion Hf as [|? ? w1 e ? ? Hq Hrest]; subst.
    cbn [app PkgNames.lookupAlternates]. rewrite Hq. now apply (IH w1 w2).
Qed.

(** X24. [lookupImportName] returns the name of the first path that the
    [go] tool resolves, the main path first and then the alternates in
    order, and looks up no path after that one; when no path resolves, the
    error it returns is the error of the main path, not that of the last
    alternate. *)
Theorem lookupImportName_first_success (w : World) (main : string)
    (alternates : list string) :
  (forall w1 name,
     goListName w main = (w1, inl name) ->
     lookupImportName w main alternates = (w1, inl name))
  /\ (forall w1 e,
        goListName w main = (w1, inr e) ->
        (forall failed p rest w2 w3 name,
           alternates = failed ++ p :: rest ->
           AllFail w1 failed w2 -> goListName w2 p = (w3, inl name) ->
           lookupImportName w main alternates = (w3, inl name))
        /\ (forall w2,
              AllFail w1 alternates w2 ->
              lookupImportName w main alternates = (w2, inr e))).
Proof.
  split.
  - intros w1 name H. unfold PkgNames.lookupImportName. now rewrite H.
  - intros w1 e H. split.
    + intros failed p rest w2 w3 name -> Hf Hp. unfold PkgNames.lookupImportName.
      now rewrite H, (lookupAlternates_first failed w1 w2 w3 p rest name Hf Hp).
    + intros w2 Hf. unfold PkgNames.lookupImportName.
      now rewrite H, (lookupAlternates_fail alternates w1 w2 Hf).
Qed.

End Lookup.

(** The error of the main path comes back when every path fails, and the
    second alternate is not looked up once the first one resolves. *)
Example lookupImportName_sample :
  let tool := fun (w : nat) (path : string) =>
    (S w, if String.eqb path "vendor/x" then inl "x"%string
          else inr (errorString ("no package " +:+ path))) in
  lookupImportName tool 0%nat "x" ["a/vendor/x"; "vendor/x"; "x/x"]
  = (3%nat, inl "x"%string)
  /\ lookupImportName tool 0%nat "x" ["a/vendor/x"]
     = (2%nat, inr (errorString "no package x")).
Proof. split; reflexivity. Qed.

(** *** [getVendorPaths] *)

Lemma splitDir_length (p : string) : (String.length (splitDir p) <= String.length p)%nat.
Proof.
  induction p as [|c p IH]; [reflexivity |]. cbn [splitDir].
  destruct (splitDir p) as [|x d]; [destruct (Ascii.eqb c "/") |]; cbn [String.length] in *; lia.
Qed.

Lemma substring_length_le (s : string) (n : nat) :
  (String.length (String.substring 0 n s) <= n)%nat.
Proof.
  revert s. induction n as [|n IH]; intros [|c s]; cbn [String.substring String.length];
    try lia. specialize (IH s). lia.
Qed.

Lemma HasSuffix_slash_cons (c : ascii) (d : string) :
  d <> "" -> HasSuffix (String c d) "/" = HasSuffix d "/".
Proof.
  intros Hd. destruct d as [|x d]; [now elim Hd |]. unfold HasSuffix.
  cbn [String.length Nat.leb Nat.sub sliceFrom andb]. now rewrite !Nat.sub_0_r.
Qed.

(** A directory part is empty or ends with a slash. *)
Lemma splitDir_slash (p : string) : splitDir p = "" \/ HasSuffix (splitDir p) "/" = true.
Proof.
  induction p as [|c p IH]; [now left |]. cbn [splitDir].
  destruct (splitDir p) as [|x d] eqn:Hs.
  - destruct (Ascii.eqb c "/"); [now right | now left].
  - right. destruct IH as [IH | IH]; [discriminate |].
    now rewrite HasSuffix_slash_cons.
Qed.

Lemma parentOf_shorter (p : string) :
  p <> "" -> (String.length (parentOf p) < String.length p)%nat.
Proof.
  intros Hp. unfold parentOf.
  pose proof (splitDir_length p) as Hd.
  destruct (splitDir_slash p) as [Hs | Hs]; rewrite Hs.
  - cbn. destruct p; [now elim Hp | cbn; lia].
  - unfold sliceTo.
    pose proof (substring_length_le (splitDir p) (String.length (splitDir p) - 1)).
    destruct (splitDir p); [discriminate Hs |]. cbn [String.length] in *. lia.
Qed.

Section Vendor.
Variable pathJoin : string -> string -> string.

#[local] Abbreviation getVendorPaths_fuel := (getVendorPaths_fuel pathJoin).
#[local] Abbreviation getVendorPaths := (getVendorPaths pathJoin).

Lemma getVendorPaths_fuel_acc (fuel : nat) :
  forall p acc, getVendorPaths_fuel fuel p acc = acc ++ getVendorPaths_fuel fuel p [].
Proof.
  induction fuel as [|fuel IH]; intros p acc; cbn [PkgNames.getVendorPaths_fuel]; [reflexivity |].
  destruct (0 <? String.length p)%nat; [|reflexivity].
  rewrite (IH _ (acc ++ _)), (IH _ ([] ++ _)). now rewrite <- app_assoc.
Qed.

Lemma getVendorPaths_fuel_enough (f1 : nat) :
  forall f2 p, (String.length p < f1)%nat -> (String.length p < f2)%nat ->
    getVendorPaths_fuel f1 p [] = getVendorPaths_fuel f2 p [].
Proof.
  induction f1 as [|f1 IH]; intros f2 p H1 H2; [lia |].
  destruct f2 as [|f2]; [lia |]. cbn [PkgNames.getVendorPaths_fuel].
  destruct (0 <? String.length p)%nat eqn:Hp; [|reflexivity].
  apply Nat.ltb_lt in Hp.
  assert (p <> "") as Hne by (intros ->; cbn in Hp; lia).
  pose proof (parentOf_shorter p Hne).
  rewrite (getVendorPaths_fuel_acc f1), (getVendorPaths_fuel_acc f2). f_equal.
  apply IH; lia.
Qed.

(** [getVendorPaths] satisfies the equation of the loop. *)
Lemma getVendorPaths_unfold (p : string) :
  getVendorPaths p =
    if (0 <? String.length p)%nat
    then pathJoin p "vendor" :: getVendorPaths (parentOf p)
    else ["vendor"].
Proof.
  unfold PkgNames.getVendorPaths at 1. cbn [PkgNames.getVendorPaths_fuel].
  destruct (0 <? String.length p)%nat eqn:Hp; [|reflexivity].
  apply Nat.ltb_lt in Hp.
  assert (p <> "") as Hne by (intros ->; cbn in Hp; lia).
  pose proof (parentOf_shorter p Hne).
  rewrite getVendorPaths_fuel_acc. cbn [app]. f_equal.
  apply getVendorPaths_fuel_enough; lia.
Qed.

Lemma Contains_slash_skip (c : ascii) (s : string) :
  c <> "/"%char -> Contains (String c s) "/" = Contains s "/".
Proof.
  intros Hc. unfold Contains. cbn [String.index String.prefix].
  destruct (ascii_dec "/" c) as [<- | _]; [now elim Hc |].
  now destruct (String.index 0 "/" s).
Qed.

Lemma Contains_slash_head (s : string) : Contains (String "/" s) "/" = true.
Proof. unfold Contains. cbn [String.index String.prefix]. now rewrite prefix_empty. Qed.

Lemma splitDir_noslash (c : string) : Contains c "/" = false -> splitDir c = "".
Proof.
  induction c as [|x c IH]; [reflexivity |]. intros H.
  destruct (Ascii.eqb_spec x "/") as [-> | Hx].
  - now rewrite Contains_slash_head in H.
  - rewrite Contains_slash_skip in H by exact Hx. cbn [splitDir]. rewrite (IH H).
    apply Ascii.eqb_neq in Hx. now rewrite Hx.
Qed.

Lemma splitDir_app (a c : string) :
  Contains c "/" = false -> splitDir (a +:+ String "/" c) = a +:+ "/".
Proof.
  intros Hc. induction a as [|x a IH].
  - cbn [String.append splitDir]. now rewrite (splitDir_noslash c Hc).
  - cbn [String.append splitDir]. rewrite IH. now destruct a.
Qed.

Lemma substring_append_l (a b : string) :
  String.substring 0 (String.length a) (a +:+ b) = a.
Proof.
  induction a as [|x a IH]; cbn [String.length String.append String.substring].
  - now destruct b.
  - now rewrite IH.
Qed.

Lemma parentOf_child (a c : string) :
  Contains c "/" = false -> parentOf (a +:+ String "/" c) = a.
Proof.
  intros Hc. unfold parentOf. rewrite (splitDir_app a c Hc).
  assert (Hlen : (String.length (a +:+ "/") - 1 = String.length a)%nat).
  { rewrite length_append. cbn. lia. }
  assert (HasSuffix (a +:+ "/") "/" = true) as ->.
  { unfold HasSuffix. cbn [String.length]. rewrite Hlen, sliceFrom_append.
    rewrite length_append. cbn [String.length].
    replace (1 <=? String.length a + 1)%nat with true by (symmetry; apply Nat.leb_le; lia).
    reflexivity. }
  unfold sliceTo. rewrite Hlen. apply substring_append_l.
Qed.

Lemma parentOf_single (c : string) : Contains c "/" = false -> parentOf c = "".
Proof. intros Hc. unfold parentOf. now rewrite (splitDir_noslash c Hc). Qed.

Lemma Join_snoc (cs : list string) (c sep : string) :
  Join (cs ++ [c]) sep = if bool_decide (cs = []) then c else Join cs sep +:+ sep +:+ c.
Proof.
  induction cs as [|x cs IH]; [reflexivity |].
  rewrite bool_decide_false by discriminate.
  destruct cs as [|y cs]; [reflexivity |].
  change (Join ((x :: y :: cs) ++ [c]) sep) with (x +:+ sep +:+ Join ((y :: cs) ++ [c]) sep).
  rewrite IH, bool_decide_false by discriminate.
  change (Join (x :: y :: cs) sep) with (x +:+ sep +:+ Join (y :: cs) sep).
  now rewrite !append_assoc.
Qed.

Lemma Join_nonempty (cs : list string) (sep : string) :
  cs <> [] -> Forall isComponent cs -> Join cs sep <> "".
Proof.
  intros Hne Hall. destruct cs as [|c cs]; [now elim Hne |].
  apply Forall_cons in Hall as [[Hc _] _].
  destruct cs; cbn [Join]; destruct c; try discriminate; now elim Hc.
Qed.

Lemma parentOf_Join (cs : list string) (c : string) :
  isComponent c -> parentOf (Join (cs ++ [c]) "/") = Join cs "/".
Proof.
  intros [_ Hc]. rewrite Join_snoc. case_bool_decide as Hcs.
  - subst cs. now apply parentOf_single.
  - now apply parentOf_child.
Qed.

Lemma getVendorPaths_ancestors (rcs : list string) :
  Forall isComponent rcs ->
  getVendorPaths (Join (rev rcs) "/") =
    map (fun a => pathJoin (Join a "/") "vendor") (ancestorsRev rcs) ++ ["vendor"].
Proof.
  induction rcs as [|c rcs IH]; intros Hall; [reflexivity |].
  apply Forall_cons in Hall as [Hc Hall].
  rewrite getVendorPaths_unfold.
  assert (Hne : Join (rev (c :: rcs)) "/" <> "").
  { apply Join_nonempty.
    - cbn [rev]. now destruct (rev rcs).
    - apply Forall_rev. now constructor. }
  destruct (Join (rev (c :: rcs)) "/") as [|x j] eqn:Hj; [now elim Hne |].
  cbn [String.length Nat.ltb Nat.leb]. rewrite <- Hj.
  cbn [ancestorsRev map app]. f_equal.
  cbn [rev]. rewrite (parentOf_Join (rev rcs) c Hc). now apply IH.
Qed.

(** X25. For a package path of [n] components, [getVendorPaths] returns
    [n + 1] candidates: the [vendor] directory of the package itself, then
    that of each directory above it, from the innermost outwards, and last
    the plain [vendor]. *)
Theorem getVendorPaths_walks_up (cs : list string) :
  Forall isComponent cs ->
  getVendorPaths (Join cs "/") =
    map (fun a => pathJoin (Join a "/") "vendor") (ancestors cs) ++ ["vendor"]
  /\ length (getVendorPaths (Join cs "/")) = S (length cs)
  /\ last (getVendorPaths (Join cs "/")) = Some "vendor".
Proof.
  intros Hall.
  assert (H : getVendorPaths (Join cs "/") =
              map (fun a => pathJoin (Join a "/") "vendor") (ancestors cs) ++ ["vendor"]).
  { unfold ancestors. rewrite <- (rev_involutive cs) at 1.
    apply getVendorPaths_ancestors. now apply Forall_rev. }
  split; [exact H |]. rewrite H. split.
  - rewrite length_app, length_map. cbn [length]. unfold ancestors.
    assert (forall l : list string, length (ancestorsRev l) = length l) as ->.
    { induction l as [|? ? IHl]; cbn [ancestorsRev length]; [reflexivity | now rewrite IHl]. }
    rewrite length_rev. lia.
  - apply last_snoc.
Qed.

End Vendor.

Lemma getVendorPaths_walks_up_witness :
  Forall isComponent ["github.com"; "qur"; "withmock"]
  /\ getVendorPaths (fun a b => a +:+ "/" +:+ b) "github.com/qur/withmock"
     = ["github.com/qur/withmock/vendor"; "github.com/qur/vendor"; "github.com/vendor";
        "vendor"]%string.
Proof.
  assert (H : Forall isComponent ["github.com"; "qur"; "withmock"]).
  { repeat constructor; discriminate. }
  split; [exact H |].
  exact (proj1 (getVendorPaths_walks_up (fun a b => a +:+ "/" +:+ b)
                  ["github.com"; "qur"; "withmock"] H)).
Defined.

(** *** [getPackageName] *)

Section Memo.
Variable pathJoin : string -> string -> string.
Context {World : Type}.
Variable goListName : World -> string -> World * (string + error).
Variable Getwd : World -> string + error.
Variable Chdir : World -> string -> World.

#[local] Abbreviation getPackageName := (getPackageName pathJoin goListName Getwd Chdir).

(** What a call leaves in [pkgNames]: the entry of a successful lookup of
    a path that is not relative, and nothing else. *)
Lemma getPackageName_pkgNames (impPath srcPath pkgName : string) (st : LookupState World) :
  let r := getPackageName impPath srcPath pkgName st in
  pkgNames r.1 = pkgNames st
  \/ (exists name, r.2 = inl name /\ HasPrefix impPath "./" = false
        /\ impPath <> "C" /\ pkgNames st !! impPath = None
        /\ pkgNames r.1 = <[impPath := name]> (pkgNames st)).
Proof.
  cbv zeta. unfold PkgNames.getPackageName.
  destruct (String.eqb_spec impPath "C") as [-> | HC]; [now left |].
  destruct (pkgNames st !! impPath) as [name|] eqn:Hl; [now left |].
  destruct (HasPrefix impPath "./") eqn:Hrel, (HasPrefix impPath "_/") eqn:Hout.
  all: match goal with
       | |- context [match (if ?b then _ else _) with inl _ => _ | inr _ => _ end] =>
           destruct b; [destruct (Getwd (world st)); [|now left] |]
       end.
  all: match goal with
       | |- context [PkgNames.lookupImportName ?g ?w ?p ?l] =>
           destruct (PkgNames.lookupImportName g w p l) as [w' [name | err]]
       end.
  all: cbn [fst snd pkgNames]; try (now left).
  all: right; exists name; auto.
Qed.

(** X26. [getPackageName] memoizes: once it has returned the name of an
    import path that is not relative, a further call for that path, from
    whatever source directory and package, returns the same name from
    [pkgNames] and leaves the state alone: no command runs. A relative
    path is never entered in [pkgNames], and no call takes an entry out of
    it. *)
Theorem getPackageName_memoizes (impPath srcPath pkgName : string)
    (st st' : LookupState World) (name : string) :
  getPackageName impPath srcPath pkgName st = (st', inl name) ->
  (HasPrefix impPath "./" = false ->
     forall srcPath' pkgName', getPackageName impPath srcPath' pkgName' st' = (st', inl name))
  /\ (HasPrefix impPath "./" = true -> pkgNames st' = pkgNames st)
  /\ pkgNames st ⊆ pkgNames st'.
Proof.
  intros H.
  pose proof (getPackageName_pkgNames impPath srcPath pkgName st) as Hp.
  cbv zeta in Hp. rewrite H in Hp. cbn [fst snd] in Hp.
  split; [|split].
  - intros Hrel srcPath' pkgName'.
    assert (Hhit : impPath <> "C" -> pkgNames st' !! impPath = Some name ->
                   getPackageName impPath srcPath' pkgName' st' = (st', inl name)).
    { intros HC Hl. unfold PkgNames.getPackageName.
      apply String.eqb_neq in HC. now rewrite HC, Hl. }
    destruct (String.eqb_spec impPath "C") as [-> | HC].
    { injection H as <- <-. reflexivity. }
    apply Hhit; [exact HC |].
    destruct Hp as [Hp | (name' & Hn & _ & _ & _ & Hp)].
    + rewrite Hp. revert H. unfold PkgNames.getPackageName.
      apply String.eqb_neq in HC. rewrite HC.
      destruct (pkgNames st !! impPath) as [n|] eqn:Hl; [now intros [= <- <-] |].
      rewrite Hrel.
      destruct (HasPrefix impPath "_/");
        match goal with
        | |- context [match (if ?b then _ else _) with inl _ => _ | inr _ => _ end] =>
            destruct b; [destruct (Getwd (world st)); [|discriminate] |]
        end;
        match goal with
        | |- context [PkgNames.lookupImportName ?g ?w ?p ?l] =>
            destruct (PkgNames.lookupImportName g w p l) as [w' [n | err]]
        end; try discriminate;
        intros [= <- <-]; cbn [pkgNames] in Hp;
        apply (f_equal (fun g => g !! impPath)) in Hp;
        rewrite lookup_insert_eq, Hl in Hp; discriminate.
    + injection Hn as <-. rewrite Hp. apply lookup_insert_eq.
  - intros Hrel. destruct Hp as [Hp | (name' & _ & Hf & _)]; [exact Hp | congruence].
  - destruct Hp as [-> | (name' & _ & _ & _ & Hl & ->)]; [reflexivity |].
    now apply insert_subseteq.
Qed.

(** The magic package [C] has no name, and is looked up nowhere. *)
Lemma getPackageName_C (srcPath pkgName : string) (st : LookupState World) :
  getPackageName "C" srcPath pkgName st = (st, inl "").
Proof. reflexivity. Qed.

End Memo.

Lemma getPackageName_memoizes_witness :
  let join := fun a b : string => a +:+ "/" +:+ b in
  let run := getPackageName join namedAfterPath (fun _ => inl "/cwd"%string) (fun w _ => w) in
  exists st',
    run "os/exec" "/src/code" "" {| pkgNames := ∅; world := 0%nat |}
    = (st', inl "name of os/exec"%string)
    /\ world st' = 1%nat
    /\ run "os/exec" "/src/other" "code" st' = (st', inl "name of os/exec"%string).
Proof.
  intros join run. eexists. split; [reflexivity |]. split; [reflexivity |].
  refine (proj1 (getPackageName_memoizes join namedAfterPath (fun _ => inl "/cwd"%string)
                   (fun w _ => w) "os/exec" "/src/code" ""
                   {| pkgNames := ∅; world := 0%nat |} _ "name of os/exec" eq_refl)
            eq_refl "/src/other" "code").
Defined.

End PkgNamesProps.

(** ** The scopes that [exprString] registers *)

Module ScopeRegistryProps.
Import GoStrings ScopeRegistry.

Lemma registerScopes_nil (l : list string) : registerScopes l None = None.
Proof. induction l as [|x l IH]; [reflexivity | exact IH]. Qed.

Lemma registerScopes_some (l : list string) :
  forall g, exists g', registerScopes l (Some g) = Some g'
    /\ forall x, is_Some (g' !! x) <-> x ∈ l \/ is_Some (g !! x).
Proof.
  induction l as [|y l IH]; intros g.
  - exists g. split; [reflexivity |]. intros x. rewrite elem_of_nil. tauto.
  - destruct (IH (<[y := true]> g)) as (g' & Hr & Hg').
    exists g'. split; [exact Hr |]. intros x. rewrite Hg', elem_of_cons.
    rewrite lookup_insert_is_Some. destruct (decide (y = x)) as [-> | Hne]; [tauto |].
    split.
    + intros [? | [? | [_ ?]]]; first [congruence | auto].
    + intros [[? | ?] | ?]; first [congruence | auto].
Qed.

(** X27. The scopes are collected between [collectScopes] and
    [getScopes]: [getScopes] returns the scopes registered since
    [collectScopes], each of them once, whatever was registered before;
    it ends the collection, so that scopes registered afterwards are
    dropped and a second [getScopes] returns nothing. *)
Theorem scopes_collected_between (before names after : list string) (scopes : scopesField) :
  let collected :=
    getScopes (registerScopes names (collectScopes (registerScopes before scopes))) in
  NoDup collected.1
  /\ (forall x, x ∈ collected.1 <-> x ∈ names)
  /\ collected.2 = None
  /\ getScopes (registerScopes after collected.2) = ([], None).
Proof.
  cbv zeta. unfold collectScopes.
  destruct (registerScopes_some names ∅) as (g & -> & Hg).
  cbn [getScopes fst snd]. split; [|split; [|split]].
  - apply NoDup_fst_map_to_list.
  - intros x. rewrite list_elem_of_fmap. split.
    + intros ([k v] & -> & Hkv). apply elem_of_map_to_list in Hkv. cbn [fst].
      destruct (proj1 (Hg k)) as [H | [? H]]; [eexists; exact Hkv | exact H |].
      rewrite lookup_empty in H. discriminate.
    + intros Hx. destruct (proj2 (Hg x)) as [v Hv]; [now left |].
      exists (x, v). split; [reflexivity | now apply elem_of_map_to_list].
  - reflexivity.
  - now rewrite registerScopes_nil.
Qed.

End ScopeRegistryProps.
